(** * CODECHECK Buddy Exchange: the issue aggregation engine of [github-api.js]

    A shallow embedding of the [GitHubAPI] class: the availability filter,
    the paginated fetchers, the leaderboard and buddy-ratio aggregators and
    the certificate-identifier allocator, with the properties the
    specification states about them.

    Conventions.
    - A JavaScript number that holds an integer is a [Z]. Counts are array
      lengths, hence below 2^32 and exact. The ratio of the buddy report is
      the binary64 quotient of two such counts; it is kept as the rational
      number that double denotes ([Double.div]).
    - A JavaScript string is a [string]; only ASCII digits and the dash are
      ever inspected character by character.
    - [null], [undefined] and absent fields are [None].
    - A plain object used as a dictionary keyed by login is a table of its
      own properties ([gmap]) together with the order in which the keys were
      created. A read [o[k]] that finds no own property goes on to
      [Object.prototype] ([JsObject.get]); [Object.values] lists array
      indices first, in ascending order, and then the other keys in creation
      order ([JsObject.ownKeys]).
    - The built-in objects reached through [Object.prototype] are shared by
      all calls. What the engine assigns on them is kept in a [Realm.t],
      which every aggregator takes and returns along with its result or the
      error it throws ([Run]). [Object.prototype] is taken to start out as
      the language defines it.
    - [new Date()] reads the clock; the reading is an explicit argument.
    - The engine never assigns to a property of an issue or of the array of
      issues it is given; the snapshot is a list of records. *)

From Stdlib Require Import ZArith QArith Qabs Ascii String DecimalString Sorted SpecFloat.
From stdpp Require Import base option list strings gmap.

Close Scope Q_scope.
Local Open Scope Z_scope.

(** ** Data model: the issue records the GitHub REST API returns *)

Module User.
Record t := mk
  { login : string;
    avatar_url : string;
    html_url : string }.
End User.

Module Label.
Record t := mk
  { name : string;
    color : string;
    description : option string }.
End Label.

(** A point in time, as the milliseconds [Date.prototype.valueOf] returns. *)
Definition Date := Z.

Module Issue.
Record t := mk
  { id : Z;
    number : Z;
    title : string;
    body : option string;
    state : string;
    user : User.t;
    assignee : option User.t;
    assignees : option (list User.t);
    labels : list Label.t;
    created_at : Date;
    updated_at : Date;
    closed_at : option Date;
    comments : Z }.
End Issue.

(** ** [config.js]: the constants of [BuddyExchangeConfig] the engine reads *)

Module BuddyExchangeConfig.
Definition repository_fullName : string := "codecheckers/testing-dev-register".
Definition github_issuesPerPage : nat := 100.
Definition github_maxLeaderboardPages : nat := 10.
Definition github_maxAllIssuesPages : nat := 50.
Definition labels_buddyExchange : string := "buddy exchange".
Definition labels_needsCodechecker : string := "needs codechecker".
End BuddyExchangeConfig.

(** ** JavaScript built-ins the engine calls *)

Module Js.

(** Truthiness of a value that is either an object or [null]/[undefined]. *)
Definition truthy {A} (o : option A) : bool :=
  match o with Some _ => true | None => false end.

(** [Array.prototype.some]. *)
Definition some {A} (p : A -> bool) (l : list A) : bool := existsb p l.

(** [a === b] on strings. *)
Definition strictEq (a b : string) : bool := bool_decide (a = b).

(** [String.prototype.toLowerCase] restricted to ASCII letters. The
    availability filter is stated for any lower-casing function; this one
    instantiates it in the examples. *)
Definition asciiLower (c : ascii) : ascii :=
  let n := nat_of_ascii c in
  if (65 <=? n)%nat && (n <=? 90)%nat then ascii_of_nat (n + 32) else c.

Fixpoint toLowerCaseAscii (s : string) : string :=
  match s with
  | EmptyString => EmptyString
  | String c r => String (asciiLower c) (toLowerCaseAscii r)
  end.

(** [Array.prototype.includes] on an array of integers. *)
Definition includes (x : Z) (l : list Z) : bool := existsb (Z.eqb x) l.

(** [[...new Set(a)]]: the distinct elements of [a], each at the position
    of its first occurrence. *)
Definition setOf (a : list Z) : list Z :=
  foldl (fun seen x => if includes x seen then seen else seen ++ [x]) [] a.

(** [Array.prototype.sort(compareFn)], which is stable. [before a b] stands
    for [compareFn(a, b) <= 0]: [a] may stay in front of [b]. *)
Fixpoint insertSorted {A} (before : A -> A -> bool) (x : A) (l : list A) : list A :=
  match l with
  | [] => [x]
  | y :: r => if before x y then x :: y :: r else y :: insertSorted before x r
  end.

Fixpoint sort {A} (before : A -> A -> bool) (l : list A) : list A :=
  match l with
  | [] => []
  | x :: r => insertSorted before x (sort before r)
  end.

(** Template-literal rendering of an integer. *)
Definition showZ (z : Z) : string := NilEmpty.string_of_int (Z.to_int z).

(** [encodeURIComponent] on a string given by its UTF-8 bytes: every byte
    but the unreserved marks is percent-escaped. *)
Definition isUnreserved (c : ascii) : bool :=
  let n := nat_of_ascii c in
  ((48 <=? n) && (n <=? 57) || (65 <=? n) && (n <=? 90)
   || (97 <=? n) && (n <=? 122))%nat
  || existsb (Ascii.eqb c)
       ["-"; "_"; "."; "!"; "~"; "*"; "'"; "("; ")"]%char.

Definition hexDigit (n : nat) : ascii :=
  if (n <? 10)%nat then ascii_of_nat (48 + n) else ascii_of_nat (55 + n).

Fixpoint encodeURIComponent (s : string) : string :=
  match s with
  | EmptyString => EmptyString
  | String c r =>
      if isUnreserved c then String c (encodeURIComponent r)
      else
        let n := nat_of_ascii c in
        String "%" (String (hexDigit (n / 16)) (String (hexDigit (n mod 16))
          (encodeURIComponent r)))
  end.

(** The array index a property name denotes, if it denotes one: the name is
    the decimal numeral, without sign or leading zero, of an integer from 0
    to 2^32 - 2. *)
Definition arrayIndex (k : string) : option Z :=
  match NilEmpty.uint_of_string k with
  | Some d =>
      let n := Z.of_uint d in
      if String.eqb (showZ n) k && (n <? 2 ^ 32 - 1) then Some n else None
  | None => None
  end.

End Js.

(** ** Results, errors and the state calls share *)

(** What a call or an [await] yields: the value, or the error thrown. *)
Inductive Outcome (A : Type) :=
  | Returned (value : A)
  | Thrown (message : string).
Arguments Returned {A} _.
Arguments Thrown {A} _.

(** The built-in objects a plain object leads to. Each is named by the
    property of [Object.prototype] that holds it; ["__proto__"] names
    [Object.prototype] itself. The realm records the properties the code
    of [GitHubAPI] has assigned on them so far; all of them hold [NaN]. *)
Module Realm.

Record t := mk
  { assigned : gset (string * string) }.

(** The realm before any call. *)
Definition pristine : t := mk ∅.

(** [holder.property = NaN] *)
Definition assign (holder property : string) (realm : t) : t :=
  mk ({[ (holder, property) ]} ∪ assigned realm).

Definition isAssigned (holder property : string) (realm : t) : bool :=
  bool_decide ((holder, property) ∈ assigned realm).

End Realm.

(** A computation that may throw and may assign on the built-in objects. A
    thrown error ends it; the assignments made before stay. *)
Definition Run (A : Type) : Type := Realm.t -> Outcome A * Realm.t.

Definition ret {A} (a : A) : Run A := fun realm => (Returned a, realm).

Definition bind {A B} (m : Run A) (k : A -> Run B) : Run B :=
  fun realm =>
    match m realm with
    | (Returned a, realm') => k a realm'
    | (Thrown message, realm') => (Thrown message, realm')
    end.

Notation "'let*' x ':=' m 'in' k" := (bind m (fun x => k))
  (at level 10, x name, m at level 100, k at level 200).

(** [l.forEach(...)], the body acting on the variables [s] it assigns. *)
Fixpoint forEach {A S} (body : S -> A -> Run S) (l : list A) (s : S) : Run S :=
  match l with
  | [] => ret s
  | x :: r => let* s' := body s x in forEach body r s'
  end.

(** A plain object used as a dictionary: its own properties and their keys
    in creation order. *)
Module JsObject.

Record t (V : Type) := mk
  { props : gmap string V;
    keys : list string }.
Arguments mk {V} _ _.
Arguments props {V} _.
Arguments keys {V} _.

(** [{}] *)
Definition empty {V} : t V := mk ∅ [].

(** The property names a plain object inherits from [Object.prototype]. *)
Definition inherited : list string :=
  [ "constructor"; "__defineGetter__"; "__defineSetter__"; "hasOwnProperty";
    "__lookupGetter__"; "__lookupSetter__"; "isPrototypeOf";
    "propertyIsEnumerable"; "toString"; "valueOf"; "__proto__";
    "toLocaleString" ].

Definition isInherited (k : string) : bool := existsb (String.eqb k) inherited.

(** What [o[k]] evaluates to: a record of the dictionary, a built-in
    function or object, [NaN], or [undefined]. *)
Inductive Slot (V : Type) :=
  | Own (v : V)
  | Builtin
  | NotANumber
  | Undefined.
Arguments Own {V} _.
Arguments Builtin {V}.
Arguments NotANumber {V}.
Arguments Undefined {V}.

(** The own property [k] of [o]. *)
Definition own {V} (k : string) (o : t V) : option V := props o !! k.

(** [o[k]]: the own property if there is one, else the property of
    [Object.prototype]. *)
Definition get {V} (realm : Realm.t) (k : string) (o : t V) : Slot V :=
  match own k o with
  | Some v => Own v
  | None =>
      if isInherited k then Builtin
      else if Realm.isAssigned "__proto__" k realm then NotANumber
      else Undefined
  end.

(** Objects and functions are truthy, [NaN] and [undefined] are not. *)
Definition truthy {V} (slot : Slot V) : bool :=
  match slot with
  | Own _ | Builtin => true
  | NotANumber | Undefined => false
  end.

(** [o[k] = v] for a key that is not inherited: a new key goes last, an
    existing one keeps its place. *)
Definition set {V} (k : string) (v : V) (o : t V) : t V :=
  mk (<[k:=v]> (props o))
     (if Js.truthy (props o !! k) then keys o else keys o ++ [k]).

(** The messages of the [TypeError]s, in the wording of V8. *)
Definition cannotRead (property : string) : string :=
  "Cannot read properties of undefined (reading '" +:+ property +:+ "')".

Definition cannotCreate (property : string) : string :=
  "Cannot create property '" +:+ property +:+ "' on number 'NaN'".

(** [o[k].counter++; o[k].array.push(...)] and whatever else the code does
    to the record it expects under [k], all of it given by [f]. On a
    built-in the increment leaves [NaN] in [counter]; [array] is not
    defined there, and [push] throws. [NaN] takes no property in strict
    code, and [undefined] has none. *)
Definition count {V} (k counter array : string) (f : V -> V) (o : t V) : Run (t V) :=
  fun realm =>
    match get realm k o with
    | Own v => (Returned (set k (f v) o), realm)
    | Builtin => (Thrown (cannotRead "push"), Realm.assign k counter realm)
    | NotANumber => (Thrown (cannotCreate counter), realm)
    | Undefined => (Thrown (cannotRead counter), realm)
    end.

(** The record under the own key [k] replaced by [f] of it. *)
Definition update {V} (k : string) (f : V -> V) (o : t V) : t V :=
  match own k o with
  | Some v => set k (f v) o
  | None => o
  end.

(** The order [Object.values] and [Object.keys] enumerate the own keys in:
    array indices ascending, then the other keys as created. *)
Definition isIndex (k : string) : bool := Js.truthy (Js.arrayIndex k).

Definition byIndex (a b : string) : bool :=
  match Js.arrayIndex a, Js.arrayIndex b with
  | Some i, Some j => i - j <=? 0
  | _, _ => true
  end.

Definition ownKeys {V} (o : t V) : list string :=
  Js.sort byIndex (List.filter isIndex (keys o))
  ++ List.filter (fun k => negb (isIndex k)) (keys o).

(** [Object.values(o)] *)
Definition values {V} (o : t V) : list V :=
  omap (fun k => props o !! k) (ownKeys o).

End JsObject.

(** ** The availability filter *)

Section Availability.

(** [String.prototype.toLowerCase]: the Unicode case mapping is the
    platform's; the filter only compares its results. *)
Variable toLowerCase : string -> string.

(** [issue.labels.some(label => label.name.toLowerCase() === wanted.toLowerCase())] *)
Definition hasLabel (wanted : string) (issue : Issue.t) : bool :=
  Js.some
    (fun label => Js.strictEq (toLowerCase (Label.name label)) (toLowerCase wanted))
    (Issue.labels issue).

(** [!issue.assignee && (!issue.assignees || issue.assignees.length === 0)] *)
Definition isUnassigned (issue : Issue.t) : bool :=
  negb (Js.truthy (Issue.assignee issue))
  && (negb (Js.truthy (Issue.assignees issue))
      || match Issue.assignees issue with
         | Some l => (length l =? 0)%nat
         | None => false
         end).

(** The filter of the class that [app.js] loads: the "buddy exchange"
    label is required of every issue. *)
Definition filterAvailableIssues (issues : list Issue.t) : list Issue.t :=
  List.filter
    (fun issue =>
       let hasBuddyExchangeLabel :=
         hasLabel BuddyExchangeConfig.labels_buddyExchange issue in
       if negb hasBuddyExchangeLabel then false
       else
         let hasNeedsCodecheckerLabel :=
           hasLabel BuddyExchangeConfig.labels_needsCodechecker issue in
         if hasNeedsCodecheckerLabel then true
         else isUnassigned issue)
    issues.

(** The filter of the second copy of the class in the repository, which
    does not look at the "buddy exchange" label. *)
Definition filterAvailableIssues_rev2 (issues : list Issue.t) : list Issue.t :=
  List.filter
    (fun issue =>
       let hasNeedsCodecheckerLabel :=
         hasLabel BuddyExchangeConfig.labels_needsCodechecker issue in
       if hasNeedsCodecheckerLabel then true
       else isUnassigned issue)
    issues.

(** [filterUnassignedIssues], the legacy filter. *)
Definition filterUnassignedIssues (issues : list Issue.t) : list Issue.t :=
  List.filter isUnassigned issues.

End Availability.

(** ** Search links *)

Definition doubleQuote : string := String (ascii_of_nat 34) EmptyString.

Definition generateUserIssuesSearchUrl (username : string) : string :=
  let searchQuery :=
    "repo:" +:+ BuddyExchangeConfig.repository_fullName
    +:+ " label:" +:+ doubleQuote +:+ BuddyExchangeConfig.labels_buddyExchange
    +:+ doubleQuote +:+ " assignee:" +:+ username +:+ " is:closed" in
  "https://github.com/search?q=" +:+ Js.encodeURIComponent searchQuery
  +:+ "&type=issues".

(** [issue.assignee || (issue.assignees && issue.assignees.length > 0)] *)
Definition hasAssignees (issue : Issue.t) : bool :=
  Js.truthy (Issue.assignee issue)
  || match Issue.assignees issue with
     | Some l => (0 <? length l)%nat
     | None => false
     end.

(** [!issue.assignee || issue.assignee.login !== login]: the guard under
    which a member of the [assignees] array is counted. *)
Definition notPrimary (issue : Issue.t) (login : string) : bool :=
  match Issue.assignee issue with
  | None => true
  | Some a => negb (Js.strictEq (User.login a) login)
  end.

(** [new Date(issue.closed_at)]; [new Date(null)] is the epoch. *)
Definition closedDate (issue : Issue.t) : Date :=
  match Issue.closed_at issue with
  | Some d => d
  | None => 0
  end.

(** ** The leaderboard *)

Module UserStats.
Record t := mk
  { username : string;
    avatar : string;
    url : string;
    completedCount : Z;
    lastCompleted : option Date;
    completedIssues : list Z;
    searchUrl : option string }.
End UserStats.

Module Leaderboard.
Record t := mk
  { leaderboard : list UserStats.t;
    totalCompleted : Z;
    activeContributors : Z;
    lastUpdated : Date }.
End Leaderboard.

(** The record created for a user seen for the first time. *)
Definition newUserStats (who : User.t) : UserStats.t :=
  UserStats.mk (User.login who) (User.avatar_url who) (User.html_url who)
    0 None [] None.

(** [if (!userStats[username]) { userStats[username] = {...} }] *)
Definition ensureUser (who : User.t) (userStats : JsObject.t UserStats.t) :
    Run (JsObject.t UserStats.t) :=
  fun realm =>
    if JsObject.truthy (JsObject.get realm (User.login who) userStats)
    then ret userStats realm
    else ret (JsObject.set (User.login who) (newUserStats who) userStats) realm.

(** [completedCount++], [completedIssues.push(issue.number)] and the update
    of [lastCompleted], on the record of a user. *)
Definition recordCompletion (issue : Issue.t) (s : UserStats.t) : UserStats.t :=
  UserStats.mk (UserStats.username s) (UserStats.avatar s) (UserStats.url s)
    (UserStats.completedCount s + 1)
    (match UserStats.lastCompleted s with
     | None => Some (closedDate issue)
     | Some d => if d <? closedDate issue then Some (closedDate issue) else Some d
     end)
    (UserStats.completedIssues s ++ [Issue.number issue])
    (UserStats.searchUrl s).

(** The three statements that follow the creation of the record:
    [userStats[username].completedCount++] and the rest. *)
Definition complete (issue : Issue.t) (username : string)
    (userStats : JsObject.t UserStats.t) : Run (JsObject.t UserStats.t) :=
  JsObject.count username "completedCount" "completedIssues"
    (recordCompletion issue) userStats.

(** "Count for primary assignee". *)
Definition countPrimary (issue : Issue.t) (userStats : JsObject.t UserStats.t) :
    Run (JsObject.t UserStats.t) :=
  match Issue.assignee issue with
  | Some a =>
      let* userStats := ensureUser a userStats in
      complete issue (User.login a) userStats
  | None => ret userStats
  end.

(** "Count for additional assignees": one turn of [issue.assignees.forEach]. *)
Definition countAdditionalOne (issue : Issue.t)
    (userStats : JsObject.t UserStats.t) (a : User.t) :
    Run (JsObject.t UserStats.t) :=
  let* userStats := ensureUser a userStats in
  if notPrimary issue (User.login a)
  then complete issue (User.login a) userStats
  else ret userStats.

Definition countAdditional (issue : Issue.t) (userStats : JsObject.t UserStats.t) :
    Run (JsObject.t UserStats.t) :=
  match Issue.assignees issue with
  | Some l =>
      if (0 <? length l)%nat then forEach (countAdditionalOne issue) l userStats
      else ret userStats
  | None => ret userStats
  end.

(** One turn of [closedIssues.forEach], on [userStats] and [totalCompleted]. *)
Definition tallyIssue (st : JsObject.t UserStats.t * Z) (issue : Issue.t) :
    Run (JsObject.t UserStats.t * Z) :=
  if hasAssignees issue
  then
    let totalCompleted := snd st + 1 in
    let* userStats := countPrimary issue (fst st) in
    let* userStats := countAdditional issue userStats in
    ret (userStats, totalCompleted)
  else ret st.

Definition withSearchUrl (s : UserStats.t) : UserStats.t :=
  UserStats.mk (UserStats.username s) (UserStats.avatar s) (UserStats.url s)
    (UserStats.completedCount s) (UserStats.lastCompleted s)
    (UserStats.completedIssues s)
    (Some (generateUserIssuesSearchUrl (UserStats.username s))).

(** [(a, b) => b.completedCount - a.completedCount], tested for [<= 0]. *)
Definition byCompletedCount (a b : UserStats.t) : bool :=
  UserStats.completedCount b - UserStats.completedCount a <=? 0.

(** What follows the loop: [Object.values(userStats).sort(...)], the search
    links and the record returned. *)
Definition leaderboardFrom (now : Date) (st : JsObject.t UserStats.t * Z) :
    Leaderboard.t :=
  let leaderboard :=
    map withSearchUrl (Js.sort byCompletedCount (JsObject.values (fst st))) in
  Leaderboard.mk leaderboard (snd st) (Z.of_nat (length leaderboard)) now.

Definition calculateLeaderboard (now : Date) (closedIssues : list Issue.t) :
    Run Leaderboard.t :=
  let* st := forEach tallyIssue closedIssues (JsObject.empty, 0) in
  ret (leaderboardFrom now st).

(** ** The buddy report *)

Module BuddyStats.
Record t := mk
  { username : string;
    avatar : string;
    url : string;
    receivedChecks : Z;
    conductedChecks : Z;
    receivedIssues : list Z;
    conductedIssues : list Z }.
End BuddyStats.

(** Division of JavaScript numbers that hold integers: the quotient
    rounded to the nearest binary64 number, ties to the even significand.
    The result is given as the rational number the double denotes. The
    operands are counts, far below 2^53: they are doubles themselves, and
    their quotient is neither subnormal nor infinite. *)
Module Double.

(** The integer nearest to [n / d], ties to even, for [0 <= n] and [0 < d]. *)
Definition nearestEven (n d : Z) : Z :=
  let q := n / d in
  match 2 * (n mod d) ?= d with
  | Lt => q
  | Gt => q + 1
  | Eq => if Z.even q then q else q + 1
  end.

(** [a / b] scaled by [2 ^ (- e)], as a fraction of integers. *)
Definition scaled (a b e : Z) : Z * Z :=
  if e <=? 0 then (a * 2 ^ (- e), b) else (a, b * 2 ^ e).

(** The exponent of the last place of the quotient of two positive
    integers: the [e] with [2 ^ 52 <= a / b / 2 ^ e < 2 ^ 53]. *)
Definition exponent (a b : Z) : Z :=
  let e := Z.log2 a - Z.log2 b - 53 in
  let (n, d) := scaled a b e in
  if n <? d * 2 ^ 53 then e else e + 1.

(** [m * 2 ^ e] *)
Definition ldexp (m e : Z) : Q :=
  if e <=? 0 then m # Z.to_pos (2 ^ (- e)) else inject_Z (m * 2 ^ e).

Definition quotient (a b : positive) : Q :=
  let e := exponent (Zpos a) (Zpos b) in
  let (n, d) := scaled (Zpos a) (Zpos b) e in
  ldexp (nearestEven n d) e.

(** [a / b] for a divisor that is at least 1. *)
Definition div (a : Z) (b : positive) : Q :=
  match a with
  | Z0 => 0%Q
  | Zpos a => quotient a b
  | Zneg a => (- quotient a b)%Q
  end.

End Double.

(** [{...user, ratio, deficit, searchUrl}] *)
Module BuddyEntry.
Record t := mk
  { stats : BuddyStats.t;
    ratio : Q;
    deficit : Z;
    searchUrl : string }.
End BuddyEntry.

Module BuddyReport.
Record t := mk
  { allRecipients : list BuddyEntry.t;
    totalUsers : Z;
    totalIssues : Z;
    lastUpdated : Date }.
End BuddyReport.

Definition newBuddyStats (who : User.t) : BuddyStats.t :=
  BuddyStats.mk (User.login who) (User.avatar_url who) (User.html_url who)
    0 0 [] [].

Definition ensureBuddy (who : User.t) (userStats : JsObject.t BuddyStats.t) :
    Run (JsObject.t BuddyStats.t) :=
  fun realm =>
    if JsObject.truthy (JsObject.get realm (User.login who) userStats)
    then ret userStats realm
    else ret (JsObject.set (User.login who) (newBuddyStats who) userStats) realm.

(** [receivedChecks++; receivedIssues.push(issue.number)] *)
Definition recordReceived (issue : Issue.t) (s : BuddyStats.t) : BuddyStats.t :=
  BuddyStats.mk (BuddyStats.username s) (BuddyStats.avatar s) (BuddyStats.url s)
    (BuddyStats.receivedChecks s + 1) (BuddyStats.conductedChecks s)
    (BuddyStats.receivedIssues s ++ [Issue.number issue])
    (BuddyStats.conductedIssues s).

(** [conductedChecks++; conductedIssues.push(issue.number)] *)
Definition recordConducted (issue : Issue.t) (s : BuddyStats.t) : BuddyStats.t :=
  BuddyStats.mk (BuddyStats.username s) (BuddyStats.avatar s) (BuddyStats.url s)
    (BuddyStats.receivedChecks s) (BuddyStats.conductedChecks s + 1)
    (BuddyStats.receivedIssues s)
    (BuddyStats.conductedIssues s ++ [Issue.number issue]).

(** First pass, "count received checks": one turn of the loop. *)
Definition creditAuthor (userStats : JsObject.t BuddyStats.t) (issue : Issue.t) :
    Run (JsObject.t BuddyStats.t) :=
  let creator := Issue.user issue in
  let* userStats := ensureBuddy creator userStats in
  JsObject.count (User.login creator) "receivedChecks" "receivedIssues"
    (recordReceived issue) userStats.

(** [userStats[assignee].conductedChecks++] and the [push] after it. *)
Definition conduct (issue : Issue.t) (assignee : string)
    (userStats : JsObject.t BuddyStats.t) : Run (JsObject.t BuddyStats.t) :=
  JsObject.count assignee "conductedChecks" "conductedIssues"
    (recordConducted issue) userStats.

Definition conductedPrimary (issue : Issue.t) (userStats : JsObject.t BuddyStats.t) :
    Run (JsObject.t BuddyStats.t) :=
  match Issue.assignee issue with
  | Some a =>
      let* userStats := ensureBuddy a userStats in
      conduct issue (User.login a) userStats
  | None => ret userStats
  end.

Definition conductedAdditionalOne (issue : Issue.t)
    (userStats : JsObject.t BuddyStats.t) (a : User.t) :
    Run (JsObject.t BuddyStats.t) :=
  let* userStats := ensureBuddy a userStats in
  if notPrimary issue (User.login a)
  then conduct issue (User.login a) userStats
  else ret userStats.

Definition conductedAdditional (issue : Issue.t)
    (userStats : JsObject.t BuddyStats.t) : Run (JsObject.t BuddyStats.t) :=
  match Issue.assignees issue with
  | Some l =>
      if (0 <? length l)%nat then forEach (conductedAdditionalOne issue) l userStats
      else ret userStats
  | None => ret userStats
  end.

(** Second pass, "count conducted checks": one turn of the loop. *)
Definition creditAssignees (userStats : JsObject.t BuddyStats.t) (issue : Issue.t) :
    Run (JsObject.t BuddyStats.t) :=
  if Js.strictEq (Issue.state issue) "closed" && hasAssignees issue
  then
    let* userStats := conductedPrimary issue userStats in
    conductedAdditional issue userStats
  else ret userStats.

(** [user.receivedChecks / Math.max(user.conductedChecks, 1)] and the other
    two added fields. *)
Definition toBuddyEntry (user : BuddyStats.t) : BuddyEntry.t :=
  BuddyEntry.mk user
    (Double.div (BuddyStats.receivedChecks user)
       (Z.to_pos (Z.max (BuddyStats.conductedChecks user) 1)))
    (BuddyStats.receivedChecks user - BuddyStats.conductedChecks user)
    (generateUserIssuesSearchUrl (BuddyStats.username user)).

(** [(a, b) => b.ratio - a.ratio], tested for [<= 0]: the difference of two
    doubles has the sign of the difference of the numbers they denote. *)
Definition byRatio (a b : BuddyEntry.t) : bool :=
  Qle_bool (BuddyEntry.ratio b) (BuddyEntry.ratio a).

(** What follows the two loops: [Object.values(userStats)], the filter, the
    added fields, the sort and the record returned. *)
Definition buddyReportFrom (now : Date) (allIssues : list Issue.t)
    (userStats : JsObject.t BuddyStats.t) : BuddyReport.t :=
  let allUsers := JsObject.values userStats in
  let allRecipients :=
    Js.sort byRatio
      (map toBuddyEntry
         (List.filter (fun user => 0 <? BuddyStats.receivedChecks user) allUsers)) in
  BuddyReport.mk allRecipients (Z.of_nat (length allUsers))
    (Z.of_nat (length allIssues)) now.

Definition calculateBuddyRatios (now : Date) (allIssues : list Issue.t) :
    Run BuddyReport.t :=
  let* userStats := forEach creditAuthor allIssues JsObject.empty in
  let* userStats := forEach creditAssignees allIssues userStats in
  ret (buddyReportFrom now allIssues userStats).

(** ** The paginated fetchers *)

(** The query string of a request to the issues endpoint. *)
Module Request.
Record t := mk
  { labels : option string;
    state : string;
    sort : string;
    direction : string;
    per_page : nat;
    page : nat }.
End Request.

Module Response.
Record t := mk
  { ok : bool;
    status : Z;
    statusText : string;
    json : Outcome (list Issue.t) }.
End Response.

Section Fetch.

(** The network: what [fetch(url)] resolves to, or the error it rejects
    with, for each request. *)
Variable fetch : Request.t -> Outcome Response.t.

(** The [while (page <= maxPages)] loop shared by the three fetchers.
    [remaining] is [maxPages + 1 - page], the number of pages that may still
    be requested; the first component of the result lists the requests
    made, oldest first. *)
Fixpoint fetchPages (request : nat -> Request.t) (perPage remaining page : nat)
    (allIssues : list Issue.t) (sent : list Request.t) :
    list Request.t * Outcome (list Issue.t) :=
  match remaining with
  | O => (sent, Returned allIssues)
  | S remaining' =>
      let sent := sent ++ [request page] in
      match fetch (request page) with
      | Thrown e => (sent, Thrown e)
      | Returned response =>
          if negb (Response.ok response)
          then (sent,
                Thrown ("GitHub API error: " +:+ Js.showZ (Response.status response)
                        +:+ " " +:+ Response.statusText response))
          else
            match Response.json response with
            | Thrown e => (sent, Thrown e)
            | Returned issues =>
                if (length issues =? 0)%nat then (sent, Returned allIssues)
                else
                  let allIssues := allIssues ++ issues in
                  if (length issues <? perPage)%nat then (sent, Returned allIssues)
                  else fetchPages request perPage remaining' (S page) allIssues sent
            end
      end
  end.

Definition closedBuddyExchangeRequest (perPage page : nat) : Request.t :=
  Request.mk (Some BuddyExchangeConfig.labels_buddyExchange) "closed" "updated"
    "desc" perPage page.

Definition allIssuesRequest (perPage page : nat) : Request.t :=
  Request.mk None "all" "created" "desc" perPage page.

Definition allBuddyExchangeRequest (perPage page : nat) : Request.t :=
  Request.mk (Some BuddyExchangeConfig.labels_buddyExchange) "all" "updated"
    "desc" perPage page.

Definition fetchClosedBuddyExchangeIssues (perPage maxPages : nat) :
    list Request.t * Outcome (list Issue.t) :=
  fetchPages (closedBuddyExchangeRequest perPage) perPage maxPages 1 [] [].

Definition fetchAllIssues (perPage maxPages : nat) :
    list Request.t * Outcome (list Issue.t) :=
  fetchPages (allIssuesRequest perPage) perPage maxPages 1 [] [].

Definition fetchAllBuddyExchangeIssues (perPage maxPages : nat) :
    list Request.t * Outcome (list Issue.t) :=
  fetchPages (allBuddyExchangeRequest perPage) perPage maxPages 1 [] [].

End Fetch.

(** ** The certificate identifiers *)

(** The regular expressions of [extractCertificateIdentifiers] are
    sequences of [\d{n}] and [-]; all carry the [g] flag. *)
Inductive Atom :=
  | Digits (n : nat)
  | Dash.

Definition RegExp := list Atom.

Definition patterns : list RegExp :=
  [ [Digits 4; Dash; Digits 3];
    [Digits 4; Dash; Digits 2];
    [Digits 4; Dash; Digits 1];
    [Digits 3];
    [Digits 2];
    [Digits 1] ].

Definition dash : ascii := "-"%char.

(** [\d] *)
Definition isDigit (c : ascii) : bool :=
  let n := nat_of_ascii c in (48 <=? n)%nat && (n <=? 57)%nat.

(** [\d{n}] at the head of [s]: the digits and what follows them. *)
Fixpoint matchDigits (n : nat) (s : string) : option (string * string) :=
  match n with
  | O => Some (EmptyString, s)
  | S n' =>
      match s with
      | String c r =>
          if isDigit c
          then match matchDigits n' r with
               | Some (m, rest) => Some (String c m, rest)
               | None => None
               end
          else None
      | EmptyString => None
      end
  end.

(** The text the expression matches at the head of [s], if it does. *)
Fixpoint matchAt (re : RegExp) (s : string) : option string :=
  match re with
  | [] => Some EmptyString
  | Digits n :: re' =>
      match matchDigits n s with
      | Some (m, rest) =>
          match matchAt re' rest with
          | Some m' => Some (m +:+ m')
          | None => None
          end
      | None => None
      end
  | Dash :: re' =>
      match s with
      | String c rest =>
          if Ascii.eqb c dash
          then match matchAt re' rest with
               | Some m' => Some (String c m')
               | None => None
               end
          else None
      | EmptyString => None
      end
  end.

(** The successive matches of a global expression, left to right: after a
    match the search resumes behind it, so [skip] characters of the
    previous match are passed over. *)
Fixpoint scan (re : RegExp) (skip : nat) (s : string) : list string :=
  match s with
  | EmptyString => []
  | String _ r =>
      match skip with
      | S k => scan re k r
      | O =>
          match matchAt re s with
          | Some m => m :: scan re (String.length m - 1) r
          | None => scan re 0 r
          end
      end
  end.

(** [title.match(pattern)]: [null] when nothing matches. *)
Definition String_match (pattern : RegExp) (title : string) : option (list string) :=
  match scan pattern 0 title with
  | [] => None
  | matches => Some matches
  end.

(** [match.includes('-')] *)
Fixpoint String_includes (c : ascii) (s : string) : bool :=
  match s with
  | EmptyString => false
  | String d r => Ascii.eqb d c || String_includes c r
  end.

(** [match.split('-')] *)
Fixpoint String_split (sep : ascii) (s : string) : list string :=
  match s with
  | EmptyString => [EmptyString]
  | String c r =>
      if Ascii.eqb c sep then EmptyString :: String_split sep r
      else match String_split sep r with
           | h :: t => String c h :: t
           | [] => [String c EmptyString]
           end
  end.

Fixpoint leadingDigits (s : string) : list Z :=
  match s with
  | String c r =>
      if isDigit c then (Z.of_nat (nat_of_ascii c) - 48) :: leadingDigits r else []
  | EmptyString => []
  end.

(** [parseInt] on text that starts with neither blanks nor a sign nor
    [0x], as every match of [patterns] and every piece of one does: the value
    of the leading decimal digits, [NaN] ([None]) without any and on
    [undefined]. *)
Definition parseInt (text : option string) : option Z :=
  match text with
  | None => None
  | Some s =>
      match leadingDigits s with
      | [] => None
      | ds => Some (foldl (fun acc d => 10 * acc + d) 0 ds)
      end
  end.

(** The body of [matches.forEach]: the number a match stands for, when it
    is pushed. *)
Definition identifierOf (m : string) : option Z :=
  let number :=
    if String_includes dash m then parseInt (String_split dash m !! 1%nat)
    else parseInt (Some m) in
  match number with
  | Some n => if (0 <? n) && (n <? 10000) then Some n else None
  | None => None
  end.

(** [for (const pattern of patterns) { ... break; }] on one title. *)
Fixpoint extractFromTitle (ps : list RegExp) (title : string) : list Z :=
  match ps with
  | [] => []
  | pattern :: weaker =>
      match String_match pattern title with
      | Some matches => omap identifierOf matches
      | None => extractFromTitle weaker title
      end
  end.

(** [(a, b) => a - b], tested for [<= 0]. *)
Definition ascending (a b : Z) : bool := a - b <=? 0.

Definition extractCertificateIdentifiers (issues : list Issue.t) : list Z :=
  let identifiers :=
    flat_map (fun issue => extractFromTitle patterns (Issue.title issue)) issues in
  Js.sort ascending (Js.setOf identifiers).

(** The [for (let i = 1; i <= last + 1; i++)] loop of
    [calculateNextIdentifier] with [turns] iterations left, and the value
    returned after it. *)
Fixpoint firstGap (existingIdentifiers : list Z) (turns : nat) (i : Z)
    (otherwise : Z) : Z :=
  match turns with
  | O => otherwise
  | S turns' =>
      if negb (Js.includes i existingIdentifiers) then i
      else firstGap existingIdentifiers turns' (i + 1) otherwise
  end.

Definition calculateNextIdentifier (existingIdentifiers : list Z) : Z :=
  match last existingIdentifiers with
  | None => 1
  | Some highest =>
      firstGap existingIdentifiers (Z.to_nat (highest + 1)) 1 (highest + 1)
  end.

(** ** Vocabulary of the statements *)

(** An issue is assigned when the legacy [assignee] field is set or the
    [assignees] array has a member. *)
Definition assigned (issue : Issue.t) : Prop :=
  is_Some (Issue.assignee issue)
  \/ exists a l, Issue.assignees issue = Some (a :: l).

(** The issues a page delivered, when the request succeeded and the body
    parsed. *)
Definition pageItems (fetch : Request.t -> Outcome Response.t) (rq : Request.t) :
    option (list Issue.t) :=
  match fetch rq with
  | Returned response =>
      if Response.ok response
      then match Response.json response with
           | Returned issues => Some issues
           | Thrown _ => None
           end
      else None
  | Thrown _ => None
  end.

(** A full page: it is not empty and holds no fewer than [perPage] issues. *)
Definition fullPage (fetch : Request.t -> Outcome Response.t) (perPage : nat)
    (rq : Request.t) : Prop :=
  exists issues,
    pageItems fetch rq = Some issues
    /\ length issues <> 0%nat /\ (perPage <= length issues)%nat.

Definition pageBody (fetch : Request.t -> Outcome Response.t) (rq : Request.t) :
    list Issue.t :=
  default [] (pageItems fetch rq).

(** [`GitHub API error: ${response.status} ${response.statusText}`] *)
Definition apiError (response : Response.t) : string :=
  "GitHub API error: " +:+ Js.showZ (Response.status response)
  +:+ " " +:+ Response.statusText response.

(** A text made of decimal digits only. *)
Fixpoint allDigits (s : string) : bool :=
  match s with
  | EmptyString => true
  | String c r => isDigit c && allDigits r
  end.

(** The texts an expression matches in full. *)
Fixpoint Matches (re : RegExp) (m : string) : Prop :=
  match re with
  | [] => m = EmptyString
  | Digits n :: re' =>
      exists ds m',
        m = ds +:+ m' /\ String.length ds = n /\ allDigits ds = true /\ Matches re' m'
  | Dash :: re' => exists m', m = String dash m' /\ Matches re' m'
  end.

(** The expression matches somewhere in the title. *)
Definition occurs (re : RegExp) (title : string) : Prop :=
  exists before m after, title = before +:+ m +:+ after /\ Matches re m.

(** The expression matches at the head of the text. *)
Definition matchesAtHead (re : RegExp) (s : string) : Prop :=
  exists m rest, s = m +:+ rest /\ Matches re m.

(** The successive matches of a global expression in a text, as
    [String.prototype.match] finds them: each match is the leftmost one in
    what is left of the text, the search for the next one starts behind
    it, and it ends when the expression matches nowhere in the rest. *)
Inductive Successive (re : RegExp) : string -> list string -> Prop :=
  | Successive_none (title : string) :
      ~ occurs re title -> Successive re title []
  | Successive_match (gap m rest : string) (ms : list string) :
      Matches re m ->
      (forall before after,
         gap = before +:+ after -> after <> EmptyString ->
         ~ matchesAtHead re (after +:+ m +:+ rest)) ->
      Successive re rest ms ->
      Successive re (gap +:+ m +:+ rest) (m :: ms).

(** The number a digit string denotes in base ten. *)
Fixpoint decimalFrom (acc : Z) (s : string) : Z :=
  match s with
  | EmptyString => acc
  | String c r => decimalFrom (10 * acc + (Z.of_nat (nat_of_ascii c) - 48)) r
  end.

Definition decimal (s : string) : Z := decimalFrom 0 s.

(** The number a match of a title pattern stands for: the digits behind
    the dash of a year-dash-number match, all the digits of a bare one. *)
Definition numberOfMatch (re : RegExp) (m : string) (number : Z) : Prop :=
  (exists year suffix,
      m = year +:+ String dash suffix
      /\ allDigits year = true /\ allDigits suffix = true
      /\ re = [Digits 4; Dash; Digits (String.length suffix)]
      /\ number = decimal suffix)
  \/ (allDigits m = true
      /\ re = [Digits (String.length m)]
      /\ number = decimal m).

(** The tallying scheme the leaderboard and the second pass of the buddy
    report share, as it runs when no login is an inherited name: no error is
    thrown and only own properties are met. It is given over any record
    type: [fresh] makes the record of a user met for the first time and
    [record] notes one issue in it. *)
Section Tally.

Context {V : Type} (fresh : User.t -> V) (record : Issue.t -> V -> V).

Definition ensure (who : User.t) (o : JsObject.t V) : JsObject.t V :=
  if Js.truthy (JsObject.own (User.login who) o) then o
  else JsObject.set (User.login who) (fresh who) o.

Definition creditPrimary (issue : Issue.t) (o : JsObject.t V) : JsObject.t V :=
  match Issue.assignee issue with
  | Some a => JsObject.update (User.login a) (record issue) (ensure a o)
  | None => o
  end.

Definition creditAdditionalOne (issue : Issue.t) (o : JsObject.t V) (a : User.t) :
    JsObject.t V :=
  let o := ensure a o in
  if notPrimary issue (User.login a)
  then JsObject.update (User.login a) (record issue) o
  else o.

Definition creditAdditional (issue : Issue.t) (o : JsObject.t V) : JsObject.t V :=
  match Issue.assignees issue with
  | Some l => if (0 <? length l)%nat then foldl (creditAdditionalOne issue) o l else o
  | None => o
  end.

Definition creditAll (issue : Issue.t) (o : JsObject.t V) : JsObject.t V :=
  creditAdditional issue (creditPrimary issue o).

(** The same scheme as it runs on any logins, with the reads that reach
    [Object.prototype] and the errors: [counter] is the property
    incremented and [array] the one pushed to. *)
Context (counter array : string).

Definition ensureRun (who : User.t) (o : JsObject.t V) : Run (JsObject.t V) :=
  fun realm =>
    if JsObject.truthy (JsObject.get realm (User.login who) o)
    then ret o realm
    else ret (JsObject.set (User.login who) (fresh who) o) realm.

Definition creditRun (issue : Issue.t) (k : string) (o : JsObject.t V) :
    Run (JsObject.t V) :=
  JsObject.count k counter array (record issue) o.

Definition primaryRun (issue : Issue.t) (o : JsObject.t V) : Run (JsObject.t V) :=
  match Issue.assignee issue with
  | Some a => let* o := ensureRun a o in creditRun issue (User.login a) o
  | None => ret o
  end.

Definition additionalOneRun (issue : Issue.t) (o : JsObject.t V) (a : User.t) :
    Run (JsObject.t V) :=
  let* o := ensureRun a o in
  if notPrimary issue (User.login a)
  then creditRun issue (User.login a) o
  else ret o.

Definition additionalRun (issue : Issue.t) (o : JsObject.t V) : Run (JsObject.t V) :=
  match Issue.assignees issue with
  | Some l => if (0 <? length l)%nat then forEach (additionalOneRun issue) l o else ret o
  | None => ret o
  end.

Definition creditAllRun (issue : Issue.t) (o : JsObject.t V) : Run (JsObject.t V) :=
  let* o := primaryRun issue o in additionalRun issue o.

End Tally.

(** The members of the [assignees] array of an issue. *)
Definition assigneeList (issue : Issue.t) : list User.t :=
  default [] (Issue.assignees issue).

(** The user records an issue names as assignees, [assignee] first. *)
Definition mentions (issue : Issue.t) : list User.t :=
  match Issue.assignee issue with
  | Some a => a :: assigneeList issue
  | None => assigneeList issue
  end.

Definition isUser (u : string) (a : User.t) : bool :=
  bool_decide (User.login a = u).

(** How often one issue is counted for the user [u]: once when [u] is the
    [assignee]; otherwise once for each place [u] has in [assignees]. *)
Definition creditsOf (u : string) (issue : Issue.t) : nat :=
  match Issue.assignee issue with
  | Some a =>
      if isUser u a then 1%nat
      else length (List.filter (isUser u) (assigneeList issue))
  | None => length (List.filter (isUser u) (assigneeList issue))
  end.

(** The issue numbers counted for [u], in the order of the issues. *)
Definition history (u : string) (issues : list Issue.t) : list Z :=
  flat_map (fun issue => replicate (creditsOf u issue) (Issue.number issue)) issues.

(** No own key of the object is an inherited name. *)
Definition clean {V} (o : JsObject.t V) : Prop :=
  forall k, JsObject.isInherited k = true -> JsObject.own k o = None.

(** Every key of the property table is enumerated. *)
Definition covered {V} (o : JsObject.t V) : Prop :=
  forall k, is_Some (JsObject.props o !! k) -> In k (JsObject.keys o).

(** What the leaderboard holds for a user: the issue numbers and the
    count of the record, nothing for a user without a record. *)
Definition issuesOf (cur : option UserStats.t) : list Z :=
  match cur with
  | Some e => UserStats.completedIssues e
  | None => []
  end.

Definition countOf (cur : option UserStats.t) : Z :=
  match cur with
  | Some e => UserStats.completedCount e
  | None => 0
  end.

(** The number of issues [u] opened. *)
Definition authored (u : string) (issues : list Issue.t) : nat :=
  length (List.filter (fun issue => isUser u (Issue.user issue)) issues).

(** The number of checks [u] conducted: the closed issues counted for [u]. *)
Definition conducted (u : string) (issues : list Issue.t) : nat :=
  sum_list_with
    (fun issue =>
       if Js.strictEq (Issue.state issue) "closed" then creditsOf u issue else 0%nat)
    issues.

Definition receivedOf (cur : option BuddyStats.t) : Z :=
  match cur with
  | Some s => BuddyStats.receivedChecks s
  | None => 0
  end.

Definition conductedOf (cur : option BuddyStats.t) : Z :=
  match cur with
  | Some s => BuddyStats.conductedChecks s
  | None => 0
  end.

Definition isClosed (issue : Issue.t) : bool := Js.strictEq (Issue.state issue) "closed".

(** The aggregators as they run when no login is an inherited name: the
    state the loops of [calculateLeaderboard] and [calculateBuddyRatios]
    reach, and the records made from it. *)
Definition tallied (st : JsObject.t UserStats.t * Z) (issue : Issue.t) :
    JsObject.t UserStats.t * Z :=
  if hasAssignees issue
  then (creditAll newUserStats recordCompletion issue (fst st), snd st + 1)
  else st.

Definition leaderboardOf (now : Date) (closedIssues : list Issue.t) : Leaderboard.t :=
  leaderboardFrom now (foldl tallied (JsObject.empty, 0) closedIssues).

Definition authorCredited (userStats : JsObject.t BuddyStats.t) (issue : Issue.t) :
    JsObject.t BuddyStats.t :=
  JsObject.update (User.login (Issue.user issue)) (recordReceived issue)
    (ensure newBuddyStats (Issue.user issue) userStats).

Definition assigneesCredited (userStats : JsObject.t BuddyStats.t) (issue : Issue.t) :
    JsObject.t BuddyStats.t :=
  if Js.strictEq (Issue.state issue) "closed" && hasAssignees issue
  then creditAll newBuddyStats recordConducted issue userStats
  else userStats.

Definition buddyUserStats (allIssues : list Issue.t) : JsObject.t BuddyStats.t :=
  foldl assigneesCredited (foldl authorCredited JsObject.empty allIssues) allIssues.

Definition buddyReportOf (now : Date) (allIssues : list Issue.t) : BuddyReport.t :=
  buddyReportFrom now allIssues (buddyUserStats allIssues).

(** The division of the Standard Library's model of IEEE 754 arithmetic,
    at the precision and exponent range of binary64, on two integers; and the
    number a finite double of that model denotes. *)
Definition binary64 (a : Z) : spec_float := binary_normalize 53 1024 a 0 false.

Definition SFdiv64 (a b : Z) : spec_float := SFdiv 53 1024 (binary64 a) (binary64 b).

Definition denoted (f : spec_float) : Q :=
  match f with
  | S754_finite negative m e => Double.ldexp (if negative then Zneg m else Zpos m) e
  | _ => 0%Q
  end.

(** Numerators and divisors to try [Double.div] on. *)
Definition samples : list (Z * positive) :=
  flat_map
    (fun a => map (fun b => (Z.of_nat a, Pos.of_nat b)) (seq 1 40))
    (seq 0 60)
  ++ flat_map
       (fun a =>
          map (fun b => (Z.of_nat a * 4294967291 + 7, (Pos.of_nat b * 65521 + 2)%positive))
            (seq 1 10))
       (seq 1 10).

(** The login of a user is not an inherited name. *)
Abbreviation ordinaryLogin a := (negb (JsObject.isInherited (User.login a))).

(** No assignee an issue of the list names has an inherited name for a
    login; no author has. *)
Definition ordinaryAssignees (issues : list Issue.t) : bool :=
  forallb (fun issue => forallb (fun a => ordinaryLogin a) (mentions issue)) issues.

Definition ordinaryAuthors (issues : list Issue.t) : bool :=
  forallb (fun issue => ordinaryLogin (Issue.user issue)) issues.

(** The four queries the presentation layer calls, each as a computation
    over the fetched snapshot, made at the time [now]. The filter and the
    allocation touch nothing the calls share. *)
Definition listAvailableIssues (toLowerCase : string -> string) (now : Date)
    (snapshot : list Issue.t) : Run (list Issue.t) :=
  ret (filterAvailableIssues toLowerCase snapshot).

Definition buildLeaderboard (now : Date) (snapshot : list Issue.t) :
    Run Leaderboard.t :=
  calculateLeaderboard now snapshot.

Definition buildBuddyReport (now : Date) (snapshot : list Issue.t) :
    Run BuddyReport.t :=
  calculateBuddyRatios now snapshot.

Definition allocateNextIdentifier (now : Date) (snapshot : list Issue.t) : Run Z :=
  ret (calculateNextIdentifier (extractCertificateIdentifiers snapshot)).

(** Two calls one after the other: the second starts in the realm the
    first has left. The two results. *)
Definition twice {A} (first second : Run A) (realm : Realm.t) :
    Outcome A * Outcome A :=
  let (r1, realm1) := first realm in
  let (r2, _) := second realm1 in
  (r1, r2).

(** ** Sample data *)

Module Examples.

Definition author : User.t := User.mk "author" EmptyString EmptyString.
Definition alice : User.t := User.mk "alice" EmptyString EmptyString.
Definition bob : User.t := User.mk "bob" EmptyString EmptyString.

Definition label (name : string) : Label.t := Label.mk name "ededed" None.

(** An open issue with the given number, labels and assignees, as the API
    reports it: [assignee] is the first of [assignees]. *)
Definition openIssue (number : Z) (labels : list string) (assignees : list User.t) :
    Issue.t :=
  Issue.mk number number "Request" None "open" author (head assignees)
    (Some assignees) (map label labels) 0 0 None 0.

Definition unlabelled : Issue.t := openIssue 1 [] [].
Definition wanted : Issue.t := openIssue 2 ["needs codechecker"] [alice; bob].
Definition taken : Issue.t := openIssue 3 ["buddy exchange"] [alice].


Definition closedIssue (number : Z) (creator : User.t) (assignees : list User.t) :
    Issue.t :=
  Issue.mk number number "Request" None "closed" creator (head assignees)
    (Some assignees) [label "buddy exchange"] 0 0 (Some number) 0.

Definition okPage (issues : list Issue.t) : Outcome Response.t :=
  Returned (Response.mk true 200 "OK" (Returned issues)).

(** A tracker with two issues, served in pages of two. *)
Definition twoIssues (rq : Request.t) : Outcome Response.t :=
  match Request.page rq with
  | 1%nat => okPage [closedIssue 1 author [alice]; closedIssue 2 author [bob]]
  | _ => okPage []
  end.

(** The same tracker when the rate limit is hit on the second page. *)
Definition rateLimited (rq : Request.t) : Outcome Response.t :=
  match Request.page rq with
  | 1%nat => okPage [closedIssue 1 author [alice]; closedIssue 2 author [bob]]
  | _ => Returned (Response.mk false 403 "rate limit exceeded" (Thrown "no body"))
  end.


(** An issue known by its title alone. *)
Definition titled (title : string) : Issue.t :=
  Issue.mk 0 0 title None "open" author None (Some []) [] 0 0 None 0.


(** A closed issue delivered twice, as happens when the tracker changes
    between two page requests. *)
Definition deliveredTwice : list Issue.t :=
  [closedIssue 7 author [alice]; closedIssue 7 author [alice]].

(** A closed issue whose [assignees] array names alice twice, behind bob,
    who is the [assignee]. *)
Definition listedTwice : list Issue.t :=
  [closedIssue 9 author [bob; alice; alice]].

Definition twoReviews : list Issue.t :=
  [closedIssue 1 author [alice; bob]; closedIssue 2 author [alice]].


Definition openIssueBy (number : Z) (creator : User.t) : Issue.t :=
  Issue.mk number number "Request" None "open" creator None (Some [])
    [label "buddy exchange"] 0 0 None 0.

(** alice asked for three checks and conducted none; bob asked for two and
    conducted two. *)
Definition exchange : list Issue.t :=
  [ openIssueBy 1 alice; closedIssue 2 alice [bob]; closedIssue 3 alice [bob];
    openIssueBy 4 bob; openIssueBy 5 bob ].

End Examples.

(** ** Further vocabulary *)

(** Every character of the text passes the test. *)
Fixpoint allChars (p : ascii -> bool) (s : string) : bool :=
  match s with
  | EmptyString => true
  | String c r => p c && allChars p r
  end.


(** The value of a hexadecimal digit written in upper case. *)
Definition unhexDigit (c : ascii) : nat :=
  let n := nat_of_ascii c in
  if (n <? 58)%nat then (n - 48)%nat else (n - 55)%nat.

(** The keys of the object are pairwise distinct and each has a value. *)
Definition tidy {V} (o : JsObject.t V) : Prop :=
  NoDup (JsObject.keys o)
  /\ forall k, In k (JsObject.keys o) -> is_Some (JsObject.props o !! k).

(** The issue names the user [u] as an assignee. *)
Definition names (issue : Issue.t) (u : string) : Prop :=
  In u (map User.login (mentions issue)).

(** The later of a stored date, if any, and a new one. *)
Definition later (old : option Date) (d : Date) : option Date :=
  match old with
  | None => Some d
  | Some d0 => Some (Z.max d0 d)
  end.

Definition lastOf (cur : option UserStats.t) : option Date :=
  match cur with
  | Some e => UserStats.lastCompleted e
  | None => None
  end.

(** ** More sample data *)

Module Samples.

(** A tracker that answers every page with one issue. *)
Definition endless (rq : Request.t) : Outcome Response.t :=
  Examples.okPage
    [Examples.closedIssue (Z.of_nat (Request.page rq)) Examples.author [Examples.alice]].

(** A connection that is lost after the first page. *)
Definition offline (rq : Request.t) : Outcome Response.t :=
  match Request.page rq with
  | 1%nat =>
      Examples.okPage
        [Examples.closedIssue 1 Examples.author [Examples.alice];
         Examples.closedIssue 2 Examples.author [Examples.bob]]
  | _ => Thrown "Failed to fetch"
  end.

End Samples.

(** One turn of [latest]. *)
Definition laterIf (u : string) (acc : option Date) (issue : Issue.t) : option Date :=
  if (0 <? creditsOf u issue)%nat then later acc (closedDate issue) else acc.

(** The sum of a list of integers. *)
Definition sumZ (l : list Z) : Z := foldr Z.add 0 l.

(** ** Formatting an identifier ([config.js], [formatCertificateIdentifier]) *)

Fixpoint repeatChar (n : nat) (c : ascii) : string :=
  match n with
  | O => EmptyString
  | S n' => String c (repeatChar n' c)
  end.

(** [String.prototype.padStart(targetLength, pad)] for a pad of one
    character. *)
Definition padStart (targetLength : nat) (pad : ascii) (s : string) : string :=
  repeatChar (targetLength - String.length s) pad +:+ s.

(** [BuddyExchangeConfig.certificate.identifierPadding] *)
Definition identifierPadding : nat := 3.

(** [BuddyExchangeConfig.certificate.formatIdentifier]; [currentYear] is
    the year the clock shows. *)
Definition formatIdentifier (currentYear : Z) (number : Z) : string :=
  let paddedNumber := padStart identifierPadding "0" (Js.showZ number) in
  Js.showZ currentYear +:+ "-" +:+ paddedNumber.

(** [GitHubAPI.formatCertificateIdentifier] *)
Definition formatCertificateIdentifier (currentYear : Z) (number : Z) : string :=
  formatIdentifier currentYear number.

(** A text without any decimal digit. *)
Definition noDigits (s : string) : bool := allChars (fun c => negb (isDigit c)) s.

(** The checks made on every year and number of a range. *)
Definition yearShown (y : Z) : bool :=
  allDigits (Js.showZ y) && (String.length (Js.showZ y) =? 4)%nat.

Definition numberPadded (n : Z) : bool :=
  let p := padStart identifierPadding "0" (Js.showZ n) in
  allDigits p && (String.length p =? 3)%nat && (decimal p =? n).

Definition numberTooLong (n : Z) : bool :=
  match padStart identifierPadding "0" (Js.showZ n) with
  | String a (String b (String c (String d EmptyString))) =>
      allDigits (String a (String b (String c (String d EmptyString))))
      && (decimal (String a (String b (String c EmptyString))) =? n / 10)
  | _ => false
  end.

Module Register.

(** A register in which the identifiers 1 to 999 of 2025 are taken. *)
Definition full : list Issue.t :=
  map (fun i => Examples.titled (formatIdentifier 2025 (1 + Z.of_nat i))) (seq 0 999).

(** A register with the first two identifiers of 2025. *)
Definition begun : list Issue.t :=
  [Examples.titled "Smith | 2025-001"; Examples.titled "Jones | 2025-002"].

End Register.

(** ** Reading a line of the codecheckers table ([parseCSVLine]) *)

Definition quote : ascii := ascii_of_nat 34.
Definition comma : ascii := ","%char.

(** The [for] loop of [parseCSVLine] over the rest of the line, with
    [result], [current] and [inQuotes] as they stand; at the end of the line
    the last field is pushed. *)
Fixpoint parseCSVFrom (line : string) (result : list string) (current : string)
    (inQuotes : bool) : list string :=
  match line with
  | EmptyString => result ++ [current]
  | String char rest =>
      if Ascii.eqb char quote then parseCSVFrom rest result current (negb inQuotes)
      else if Ascii.eqb char comma && negb inQuotes
      then parseCSVFrom rest (result ++ [current]) EmptyString inQuotes
      else parseCSVFrom rest result (current +:+ String char EmptyString) inQuotes
  end.

Definition parseCSVLine (line : string) : list string :=
  parseCSVFrom line [] EmptyString false.

(** [Array.prototype.join(',')] *)
Fixpoint joinComma (fields : list string) : string :=
  match fields with
  | [] => EmptyString
  | [f] => f
  | f :: rest => f +:+ String comma (joinComma rest)
  end.

(** A field put between double quotes. *)
Definition quoted (f : string) : string := String quote (f +:+ String quote EmptyString).

(** ** Relative times ([getTimeAgo]) *)

(** [getTimeAgo(date)] when the clock shows [now]; [Math.floor] of a
    quotient of integers is the floored division. *)
Definition getTimeAgo (now date : Date) : string :=
  let diffMs := now - date in
  let diffDays := diffMs / (1000 * 60 * 60 * 24) in
  if diffDays =? 0 then
    let diffHours := diffMs / (1000 * 60 * 60) in
    if diffHours =? 0 then
      let diffMinutes := diffMs / (1000 * 60) in
      if diffMinutes <=? 1 then "just now"
      else Js.showZ diffMinutes +:+ " minutes ago"
    else if diffHours =? 1 then "1 hour ago"
    else Js.showZ diffHours +:+ " hours ago"
  else if diffDays =? 1 then "1 day ago"
  else if diffDays <? 30 then Js.showZ diffDays +:+ " days ago"
  else
    let diffMonths := diffDays / 30 in
    if diffMonths =? 1 then "1 month ago"
    else if diffMonths <? 12 then Js.showZ diffMonths +:+ " months ago"
    else
      let diffYears := diffDays / 365 in
      if diffYears =? 1 then "1 year ago"
      else Js.showZ diffYears +:+ " years ago".

(** The milliseconds of a day. *)
Definition dayMs : Z := 1000 * 60 * 60 * 24.
(** ** The codecheckers table ([fetchCodecheckersMetadata]) *)

(** The response to the request for the table; [text] is what
    [response.text()] yields. *)
Module TextResponse.
Record t := mk
  { ok : bool;
    status : Z;
    text : Outcome string }.
End TextResponse.

(** The value stored for a handle. *)
Module Codechecker.
Record t := mk
  { name : string;
    fields : string;
    languages : string }.
End Codechecker.

Definition newline : ascii := ascii_of_nat 10.










Section Metadata.

(** [String.prototype.trim]: which characters count as blanks is the
    platform's matter. *)
Variable trim : string -> string.



End Metadata.


Module Table.

Definition lf : string := String newline EmptyString.

(** A table with the columns in the usual order; the second row has no
    skills, the third too few columns. *)
Definition csv : string :=
  "name,handle,fields,languages" +:+ lf
  +:+ "Ada , @ada ," +:+ quoted "ecology, hydrology" +:+ ",R" +:+ lf
  +:+ "Bob,@bob,," +:+ lf
  +:+ "Cy,@cy" +:+ lf.

Definition response : Outcome TextResponse.t :=
  Returned (TextResponse.mk true 200 (Returned csv)).

End Table.
(** [issue.state === 'closed'] *)
(** * Properties *)

(** ** The availability filter *)

Section AvailabilityFacts.

Variable toLowerCase : string -> string.

Abbreviation needsCodechecker := (hasLabel toLowerCase BuddyExchangeConfig.labels_needsCodechecker).
Abbreviation buddyExchange := (hasLabel toLowerCase BuddyExchangeConfig.labels_buddyExchange).

Lemma isUnassigned_false issue : assigned issue -> isUnassigned issue = false.
Proof.
  unfold isUnassigned.
  intros [[a Ha] | (a & l & Hl)].
  - now rewrite Ha.
  - rewrite Hl. simpl. now rewrite andb_false_r.
Qed.

Lemma isUnassigned_true issue : ~ assigned issue -> isUnassigned issue = true.
Proof.
  unfold isUnassigned, assigned. intros H.
  destruct (Issue.assignee issue) as [a|].
  - exfalso. apply H. left. eauto.
  - destruct (Issue.assignees issue) as [[|a l]|]; simpl; try reflexivity.
    exfalso. apply H. right. eauto.
Qed.

Lemma hasLabel_no_labels wanted issue :
  Issue.labels issue = [] -> hasLabel toLowerCase wanted issue = false.
Proof. unfold hasLabel. now intros ->. Qed.

Lemma filterAvailableIssues_rev2_In issues issue :
  In issue (filterAvailableIssues_rev2 toLowerCase issues)
  <-> In issue issues
      /\ (needsCodechecker issue || isUnassigned issue = true).
Proof.
  unfold filterAvailableIssues_rev2. rewrite filter_In.
  now destruct (needsCodechecker issue).
Qed.

Lemma filterAvailableIssues_In issues issue :
  In issue (filterAvailableIssues toLowerCase issues)
  <-> In issue issues
      /\ (buddyExchange issue
          && (needsCodechecker issue || isUnassigned issue) = true).
Proof.
  unfold filterAvailableIssues. rewrite filter_In.
  destruct (buddyExchange issue); simpl; [|reflexivity].
  now destruct (needsCodechecker issue).
Qed.

End AvailabilityFacts.

(** C1 (as the code has it). Among the open issues handed to it, the
    filter of the second copy of the class includes every issue that
    carries "needs codechecker", whatever its assignees; excludes an issue
    without that label that is assigned; and includes an issue with no
    labels and no assignees. The filter of the class the application loads
    behaves the same on issues that carry "buddy exchange" and excludes
    every issue that does not, among them the issue with no labels. *)
Theorem filterAvailableIssues_cases (toLowerCase : string -> string)
    (issues : list Issue.t) (issue : Issue.t) :
  In issue issues ->
  let needs := hasLabel toLowerCase BuddyExchangeConfig.labels_needsCodechecker issue in
  let buddy := hasLabel toLowerCase BuddyExchangeConfig.labels_buddyExchange issue in
  let kept := In issue (filterAvailableIssues toLowerCase issues) in
  let kept2 := In issue (filterAvailableIssues_rev2 toLowerCase issues) in
  (needs = true -> kept2)
  /\ (needs = false -> assigned issue -> ~ kept2)
  /\ (Issue.labels issue = [] -> ~ assigned issue -> kept2)
  /\ (buddy = true -> needs = true -> kept)
  /\ (buddy = true -> needs = false -> assigned issue -> ~ kept)
  /\ (buddy = true -> needs = false -> ~ assigned issue -> kept)
  /\ (buddy = false -> ~ kept)
  /\ (Issue.labels issue = [] -> ~ kept).
Proof.
  intros Hin needs buddy kept kept2. subst kept kept2.
  rewrite filterAvailableIssues_In, filterAvailableIssues_rev2_In.
  fold needs buddy.
  repeat split.
  - assumption.
  - now rewrite H.
  - intros Hn Ha [_ Hk]. rewrite Hn, (isUnassigned_false _ Ha) in Hk. discriminate.
  - assumption.
  - rewrite (isUnassigned_true _ H0). apply orb_true_r.
  - assumption.
  - now rewrite H, H0.
  - intros Hb Hn Ha [_ Hk].
    rewrite Hb, Hn, (isUnassigned_false _ Ha) in Hk. discriminate.
  - assumption.
  - rewrite H, H0, (isUnassigned_true _ H1). reflexivity.
  - intros Hb [_ Hk]. rewrite Hb in Hk. discriminate.
  - intros Hl [_ Hk]. subst buddy.
    rewrite (hasLabel_no_labels _ _ _ Hl) in Hk. discriminate.
Qed.

(** C1, an instance: the three issues of the specification's scenario. *)
Lemma filterAvailableIssues_cases_witness :
  In Examples.unlabelled
    (filterAvailableIssues_rev2 Js.toLowerCaseAscii
       [Examples.unlabelled; Examples.wanted; Examples.taken])
  /\ ~ In Examples.unlabelled
       (filterAvailableIssues Js.toLowerCaseAscii
          [Examples.unlabelled; Examples.wanted; Examples.taken]).
Proof.
  pose proof (filterAvailableIssues_cases Js.toLowerCaseAscii
    [Examples.unlabelled; Examples.wanted; Examples.taken] Examples.unlabelled
    (or_introl eq_refl)) as H.
  cbv zeta in H.
  destruct H as (_ & _ & H3 & _ & _ & _ & _ & H8).
  split.
  - apply H3; [reflexivity|].
    intros [[a Ha] | (a & l & Hl)]; discriminate.
  - apply H8. reflexivity.
Defined.

(** C1 as stated fails for the class the application loads: it drops the
    issue with no labels and no assignees, and the issue that carries
    "needs codechecker" with two assignees but not "buddy exchange". *)
Lemma filterAvailableIssues_counterexample :
  Issue.labels Examples.unlabelled = []
  /\ Issue.assignee Examples.unlabelled = None
  /\ Issue.assignees Examples.unlabelled = Some []
  /\ hasLabel Js.toLowerCaseAscii "needs codechecker" Examples.wanted = true
  /\ Issue.assignees Examples.wanted = Some [Examples.alice; Examples.bob]
  /\ filterAvailableIssues Js.toLowerCaseAscii
       [Examples.unlabelled; Examples.wanted] = [].
Proof. repeat split. Qed.

(** ** The paginated fetchers *)

Section FetchFacts.

Variable fetch : Request.t -> Outcome Response.t.
Variable request : nat -> Request.t.
Variable perPage : nat.

Lemma fullPage_items rq issues :
  pageItems fetch rq = Some issues ->
  length issues = 0%nat \/ (length issues < perPage)%nat ->
  ~ fullPage fetch perPage rq.
Proof.
  intros Hi Hs (issues' & Hi' & Hn & Hf).
  rewrite Hi in Hi'. injection Hi' as <-. lia.
Qed.

Lemma fullPage_none rq : pageItems fetch rq = None -> ~ fullPage fetch perPage rq.
Proof. intros Hi (issues & Hi' & _). congruence. Qed.

(** What one run of the loop does, from any page on: it requests [k]
    consecutive pages, all but the last of them full, stops short of the
    ceiling only behind a page that is not full, and hands back the pages
    in request order unless one failed. *)
Lemma fetchPages_run remaining :
  forall page allIssues sent,
  exists k,
    (k <= remaining)%nat
    /\ fst (fetchPages fetch request perPage remaining page allIssues sent)
       = sent ++ map request (seq page k)
    /\ (forall p, (page <= p)%nat -> (S p < page + k)%nat ->
          fullPage fetch perPage (request p))
    /\ ((k < remaining)%nat ->
          (1 <= k)%nat /\ ~ fullPage fetch perPage (request (page + k - 1)%nat))
    /\ ((forall p, (page <= p < page + k)%nat -> pageItems fetch (request p) <> None) ->
          snd (fetchPages fetch request perPage remaining page allIssues sent)
          = Returned (allIssues ++ flat_map (fun p => pageBody fetch (request p)) (seq page k))).
Proof.
  induction remaining as [|remaining IH]; intros page allIssues sent.
  - exists 0%nat. simpl. rewrite !app_nil_r. repeat split; try lia.
  - assert (Hstop : forall out,
      pageItems fetch (request page) = None
      \/ (exists issues, pageItems fetch (request page) = Some issues
            /\ (length issues = 0%nat \/ (length issues < perPage)%nat)
            /\ out = Returned (allIssues ++ issues)) ->
      exists k,
        (k <= S remaining)%nat
        /\ sent ++ [request page] = sent ++ map request (seq page k)
        /\ (forall p, (page <= p)%nat -> (S p < page + k)%nat ->
              fullPage fetch perPage (request p))
        /\ ((k < S remaining)%nat ->
              (1 <= k)%nat /\ ~ fullPage fetch perPage (request (page + k - 1)%nat))
        /\ ((forall p, (page <= p < page + k)%nat ->
               pageItems fetch (request p) <> None) ->
              out = Returned (allIssues
                ++ flat_map (fun p => pageBody fetch (request p)) (seq page k)))).
    { intros out Hcase. exists 1%nat. simpl.
      replace (page + 1 - 1)%nat with page by lia.
      repeat split; try lia.
      - destruct Hcase as [Hn | (issues & Hi & Hs & _)].
        + now apply fullPage_none.
        + now apply fullPage_items with issues.
      - intros Hall. destruct Hcase as [Hn | (issues & Hi & _ & ->)].
        + exfalso. apply (Hall page); [lia | exact Hn].
        + unfold pageBody. rewrite Hi. simpl. now rewrite app_nil_r. }
    simpl. unfold pageItems in Hstop.
    destruct (fetch (request page)) as [response | e] eqn:Hf.
    2:{ apply Hstop. now left. }
    destruct (Response.ok response) eqn:Hok; simpl.
    2:{ apply Hstop. now left. }
    destruct (Response.json response) as [issues | e] eqn:Hj.
    2:{ apply Hstop. now left. }
    destruct (length issues =? 0)%nat eqn:H0.
    { apply Nat.eqb_eq in H0. apply Hstop. right. exists issues.
      destruct issues; [|discriminate]. rewrite app_nil_r. auto. }
    destruct (length issues <? perPage)%nat eqn:Hlt.
    { apply Nat.ltb_lt in Hlt. apply Hstop. right. exists issues. auto. }
    apply Nat.eqb_neq in H0. apply Nat.ltb_ge in Hlt.
    assert (Hfull : fullPage fetch perPage (request page)).
    { exists issues. unfold pageItems. rewrite Hf, Hok, Hj. auto. }
    destruct (IH (S page) (allIssues ++ issues) (sent ++ [request page]))
      as (k & Hle & Hsent & Hbefore & Hlast & Hout).
    exists (S k). repeat split.
    + lia.
    + rewrite Hsent. simpl. now rewrite <- app_assoc.
    + intros p Hp1 Hp2. destruct (decide (p = page)) as [->|Hne]; [exact Hfull|].
      apply Hbefore; lia.
    + lia.
    + replace (page + S k - 1)%nat with (S page + k - 1)%nat by lia.
      apply Hlast. lia.
    + intros Hall. rewrite Hout.
      * simpl. unfold pageBody at 2, pageItems. rewrite Hf, Hok, Hj. simpl.
        now rewrite <- app_assoc.
      * intros p Hp. apply Hall. lia.
Qed.

(** A page that answers with a failure status ends the run with the error
    made from that status, whatever was collected before. *)
Lemma fetchPages_failure remaining :
  forall page allIssues sent p response,
  In (request p) (fst (fetchPages fetch request perPage remaining page allIssues sent)) ->
  ~ In (request p) sent ->
  fetch (request p) = Returned response ->
  Response.ok response = false ->
  snd (fetchPages fetch request perPage remaining page allIssues sent)
  = Thrown (apiError response).
Proof.
  induction remaining as [|remaining IH]; intros page allIssues sent p response;
    simpl.
  - intros Hin Hnot. contradiction.
  - intros Hin Hnot Hf Hok.
    assert (Hhere : In (request p) (sent ++ [request page]) ->
                    fetch (request page) = Returned response).
    { intros H. apply in_app_or in H. destruct H as [H | [H | []]].
      - contradiction.
      - now rewrite H. }
    destruct (fetch (request page)) as [response' | e] eqn:Hf'.
    2:{ simpl in Hin. specialize (Hhere Hin). discriminate. }
    destruct (Response.ok response') eqn:Hok'; simpl in *.
    2:{ specialize (Hhere Hin). now injection Hhere as ->. }
    assert (Hnot' : ~ In (request p) (sent ++ [request page])).
    { intros H. specialize (Hhere H). injection Hhere as ->. congruence. }
    destruct (Response.json response') as [issues | e]; simpl in *;
      [|contradiction].
    destruct (length issues =? 0)%nat; simpl in *; [contradiction|].
    destruct (length issues <? perPage)%nat; simpl in *; [contradiction|].
    now apply IH with p.
Qed.

End FetchFacts.

(** C8. When a page that [fetchClosedBuddyExchangeIssues] requested comes
    back with a failure status, the call ends with the error built from
    that status and status text; the issues of the pages collected before
    are not part of the result. *)
Theorem fetchClosedBuddyExchangeIssues_failure
    (fetch : Request.t -> Outcome Response.t) (perPage maxPages page : nat)
    (response : Response.t) :
  In (closedBuddyExchangeRequest perPage page)
     (fst (fetchClosedBuddyExchangeIssues fetch perPage maxPages)) ->
  fetch (closedBuddyExchangeRequest perPage page) = Returned response ->
  Response.ok response = false ->
  snd (fetchClosedBuddyExchangeIssues fetch perPage maxPages)
  = Thrown ("GitHub API error: " +:+ Js.showZ (Response.status response)
            +:+ " " +:+ Response.statusText response)
  /\ forall issues,
       snd (fetchClosedBuddyExchangeIssues fetch perPage maxPages) <> Returned issues.
Proof.
  intros Hin Hf Hok.
  assert (H : snd (fetchClosedBuddyExchangeIssues fetch perPage maxPages)
              = Thrown (apiError response)).
  { unfold fetchClosedBuddyExchangeIssues in *.
    apply fetchPages_failure with page; auto. }
  split; [exact H|]. intros issues. rewrite H. discriminate.
Qed.

(** C8, an instance: the second page of two hits the rate limit; the two
    issues of the first page are dropped and the error names status 403. *)
Lemma fetchClosedBuddyExchangeIssues_failure_witness :
  pageItems Examples.rateLimited (closedBuddyExchangeRequest 2 1)
  = Some [Examples.closedIssue 1 Examples.author [Examples.alice];
          Examples.closedIssue 2 Examples.author [Examples.bob]]
  /\ snd (fetchClosedBuddyExchangeIssues Examples.rateLimited 2 10)
     = Thrown "GitHub API error: 403 rate limit exceeded".
Proof.
  split; [reflexivity|].
  refine (proj1 (fetchClosedBuddyExchangeIssues_failure Examples.rateLimited 2 10 2
    (Response.mk false 403 "rate limit exceeded" (Thrown "no body")) _ _ _)).
  - right. left. reflexivity.
  - reflexivity.
  - reflexivity.
Defined.

(** C9. [fetchAllIssues] always returns, after requesting the pages
    1, 2, ..., k for some k that does not exceed [maxPages]. Every page
    before the last requested one was full; when the run ends below the
    ceiling, the last requested page was not full (it failed, was empty or
    held fewer than [perPage] issues). In particular full pages 1..n
    followed by an empty page n+1 end the run right behind that empty
    page, with the issues of the n full pages in request order. *)
Theorem fetchAllIssues_pagination
    (fetch : Request.t -> Outcome Response.t) (perPage maxPages : nat) :
  exists k,
    (k <= maxPages)%nat
    /\ fst (fetchAllIssues fetch perPage maxPages)
       = map (allIssuesRequest perPage) (seq 1 k)
    /\ (forall p, (1 <= p < k)%nat ->
          fullPage fetch perPage (allIssuesRequest perPage p))
    /\ ((k < maxPages)%nat ->
          (1 <= k)%nat /\ ~ fullPage fetch perPage (allIssuesRequest perPage k))
    /\ (forall n, (n < maxPages)%nat ->
          (forall p, (1 <= p <= n)%nat ->
             fullPage fetch perPage (allIssuesRequest perPage p)) ->
          pageItems fetch (allIssuesRequest perPage (S n)) = Some [] ->
          k = S n
          /\ snd (fetchAllIssues fetch perPage maxPages)
             = Returned
                 (flat_map (fun p => pageBody fetch (allIssuesRequest perPage p))
                    (seq 1 n))).
Proof.
  unfold fetchAllIssues.
  destruct (fetchPages_run fetch (allIssuesRequest perPage) perPage maxPages 1 [] [])
    as (k & Hle & Hsent & Hbefore & Hlast & Hout).
  exists k. split; [exact Hle|]. split; [exact Hsent|].
  assert (Hlast' : (k < maxPages)%nat ->
            (1 <= k)%nat /\ ~ fullPage fetch perPage (allIssuesRequest perPage k)).
  { intros Hk. destruct (Hlast Hk) as [H1 Hn]. split; [exact H1|].
    now replace (1 + k - 1)%nat with k in Hn by lia. }
  split; [intros p Hp; apply Hbefore; lia|].
  split; [exact Hlast'|].
  intros n Hn Hfull Hempty.
  assert (Hk : k = S n).
  { destruct (Nat.lt_trichotomy k (S n)) as [Hlt | [Heq | Hgt]]; [|exact Heq|].
    - exfalso. destruct Hlast' as [H1 Hnot]; [lia|]. apply Hnot, Hfull. lia.
    - exfalso. destruct (Hbefore (S n)) as (issues & Hi & Hne & _); [lia|lia|].
      rewrite Hempty in Hi. injection Hi as <-. now apply Hne. }
  split; [exact Hk|]. subst k. rewrite Hout.
  - rewrite app_nil_l, seq_S, flat_map_app. simpl.
    unfold pageBody at 2. rewrite Hempty. simpl. now rewrite !app_nil_r.
  - intros p Hp. destruct (decide (p = S n)) as [->|Hne].
    + rewrite Hempty. discriminate.
    + destruct (Hfull p) as (issues & Hi & _); [lia|]. rewrite Hi. discriminate.
Qed.

(** C9, an instance: two issues in pages of two; the full first page is
    followed by an empty second page and the run ends there, far below the
    ceiling of fifty pages. *)
Lemma fetchAllIssues_pagination_witness :
  fst (fetchAllIssues Examples.twoIssues 2 50)
  = [allIssuesRequest 2 1; allIssuesRequest 2 2]
  /\ snd (fetchAllIssues Examples.twoIssues 2 50)
     = Returned [Examples.closedIssue 1 Examples.author [Examples.alice];
                 Examples.closedIssue 2 Examples.author [Examples.bob]].
Proof.
  destruct (fetchAllIssues_pagination Examples.twoIssues 2 50)
    as (k & _ & Hsent & _ & _ & Hrun).
  destruct (Hrun 1%nat) as [Hk Hout].
  - lia.
  - intros p Hp. assert (p = 1%nat) as -> by lia.
    eexists. split; [reflexivity|]. split; [discriminate|]. simpl. lia.
  - reflexivity.
  - subst k. split; [exact Hsent | exact Hout].
Defined.

(** ** Built-ins: sorting and the set of an array *)

Section SortFacts.

Context {A : Type} (before : A -> A -> bool).

Lemma insertSorted_Permutation x l : Permutation (Js.insertSorted before x l) (x :: l).
Proof.
  induction l as [|y l IH]; simpl; [reflexivity|].
  destruct (before x y); [reflexivity|].
  rewrite IH. apply perm_swap.
Qed.

Lemma sort_Permutation l : Permutation (Js.sort before l) l.
Proof.
  induction l as [|x l IH]; simpl; [reflexivity|].
  rewrite insertSorted_Permutation. now constructor.
Qed.

Lemma sort_In x l : In x (Js.sort before l) <-> In x l.
Proof.
  split; apply Permutation_in; [|symmetry]; apply sort_Permutation.
Qed.

Lemma sort_length l : length (Js.sort before l) = length l.
Proof. apply Permutation_length, sort_Permutation. Qed.

End SortFacts.

Lemma includes_In x l : Js.includes x l = true <-> In x l.
Proof.
  unfold Js.includes. rewrite existsb_exists. split.
  - intros (y & Hy & Heq). apply Z.eqb_eq in Heq. now subst.
  - intros H. exists x. split; [exact H | apply Z.eqb_refl].
Qed.

Lemma setOf_from l :
  forall seen,
  NoDup seen ->
  NoDup (foldl (fun seen x => if Js.includes x seen then seen else seen ++ [x]) seen l)
  /\ forall x,
       In x (foldl (fun seen x => if Js.includes x seen then seen else seen ++ [x]) seen l)
       <-> In x seen \/ In x l.
Proof.
  induction l as [|y l IH]; intros seen Hnd; simpl.
  - split; [exact Hnd | intros x; tauto].
  - destruct (Js.includes y seen) eqn:Hy.
    + apply includes_In in Hy.
      destruct (IH seen Hnd) as [H1 H2]. split; [exact H1|].
      intros x. rewrite H2. intuition (subst; auto).
    + assert (Hny : ~ In y seen).
      { intros H. apply includes_In in H. congruence. }
      destruct (IH (seen ++ [y])) as [H1 H2].
      { apply NoDup_app. split; [exact Hnd|].
        split; [|apply NoDup_singleton].
        intros x Hx Hx'. apply list_elem_of_In in Hx.
        apply list_elem_of_singleton in Hx'. now subst. }
      split; [exact H1|].
      intros x. rewrite H2, in_app_iff. simpl. tauto.
Qed.

Lemma setOf_NoDup l : NoDup (Js.setOf l).
Proof. apply setOf_from. constructor. Qed.

Lemma setOf_In x l : In x (Js.setOf l) <-> In x l.
Proof.
  unfold Js.setOf. destruct (setOf_from l [] (NoDup_nil_2)) as [_ H].
  rewrite H. simpl. tauto.
Qed.

Lemma insertSorted_ascending x l :
  StronglySorted Z.le l -> StronglySorted Z.le (Js.insertSorted ascending x l).
Proof.
  induction 1 as [|y l Hs IH Hy]; simpl.
  - repeat constructor.
  - unfold ascending at 1. destruct (Z.leb_spec (x - y) 0) as [Hle | Hgt].
    + constructor; [now constructor|].
      constructor; [lia|].
      eapply Forall_impl; [exact Hy|]. simpl. intros; lia.
    + constructor; [exact IH|].
      rewrite List.Forall_forall. intros z Hz.
      apply (Permutation_in _ (insertSorted_Permutation ascending x l)) in Hz.
      destruct Hz as [<- | Hz]; [lia|].
      rewrite List.Forall_forall in Hy. now apply Hy.
Qed.

Lemma sort_ascending l : StronglySorted Z.le (Js.sort ascending l).
Proof.
  induction l as [|x l IH]; simpl; [constructor|].
  now apply insertSorted_ascending.
Qed.

Lemma StronglySorted_strict l :
  StronglySorted Z.le l -> NoDup l -> StronglySorted Z.lt l.
Proof.
  induction 1 as [|x l Hs IH Hx]; intros Hnd; [constructor|].
  apply NoDup_cons in Hnd. destruct Hnd as [Hnx Hnd].
  constructor; [now apply IH|].
  rewrite List.Forall_forall in *. intros y Hy.
  specialize (Hx y Hy).
  assert (x <> y) by (intros ->; now apply Hnx, list_elem_of_In). lia.
Qed.

(** ** The identifier allocator *)

Lemma firstGap_spec (U : list Z) (turns : nat) :
  forall i otherwise,
  ((forall k, i <= k < i + Z.of_nat turns -> In k U)
   /\ firstGap U turns i otherwise = otherwise)
  \/ (i <= firstGap U turns i otherwise < i + Z.of_nat turns
      /\ ~ In (firstGap U turns i otherwise) U
      /\ forall k, i <= k < firstGap U turns i otherwise -> In k U).
Proof.
  induction turns as [|turns IH]; intros i otherwise.
  - left. split; [intros k Hk; lia | reflexivity].
  - cbn [firstGap]. destruct (Js.includes i U) eqn:Hi; simpl.
    + apply includes_In in Hi.
      destruct (IH (i + 1) otherwise) as [[Hall Heq] | (Hr & Hnot & Hbelow)].
      * left. split; [|exact Heq].
        intros k Hk. destruct (decide (k = i)) as [->|Hne]; [exact Hi|].
        apply Hall. lia.
      * right. split; [lia|]. split; [exact Hnot|].
        intros k Hk. destruct (decide (k = i)) as [->|Hne]; [exact Hi|].
        apply Hbelow. lia.
    + right. split; [lia|]. split; [|intros k Hk; lia].
      intros H. apply includes_In in H. congruence.
Qed.

Lemma last_highest (U : list Z) :
  StronglySorted Z.lt U ->
  forall h, last U = Some h -> In h U /\ forall u, In u U -> u <= h.
Proof.
  induction 1 as [|x l Hs IH Hx]; intros h Hl; [discriminate|].
  destruct l as [|y l].
  - injection Hl as <-. split; [now left|]. intros u [<- | []]. lia.
  - rewrite last_cons_cons in Hl. destruct (IH h Hl) as [Hin Hmax].
    split; [now right|].
    intros u [<- | Hu]; [|now apply Hmax].
    rewrite List.Forall_forall in Hx. specialize (Hx h Hin). lia.
Qed.

(** On an ascending list of positive integers the loop finds the least
    positive integer the list lacks. *)
Lemma calculateNextIdentifier_spec (U : list Z) :
  StronglySorted Z.lt U ->
  Forall (fun u => 0 < u) U ->
  0 < calculateNextIdentifier U
  /\ ~ In (calculateNextIdentifier U) U
  /\ forall k, 0 < k < calculateNextIdentifier U -> In k U.
Proof.
  intros Hs Hpos. unfold calculateNextIdentifier.
  destruct (last U) as [h|] eqn:Hl.
  - destruct (last_highest U Hs h Hl) as [Hin Hmax].
    rewrite List.Forall_forall in Hpos. specialize (Hpos h Hin).
    destruct (firstGap_spec U (Z.to_nat (h + 1)) 1 (h + 1))
      as [[Hall _] | (Hr & Hnot & Hbelow)].
    + exfalso. specialize (Hmax (h + 1)). cut (h + 1 <= h); [lia|].
      apply Hmax, Hall. lia.
    + split; [lia|]. split; [exact Hnot|]. intros k Hk. apply Hbelow. lia.
  - apply last_None in Hl. subst U. split; [lia|]. split; [intros []|].
    intros k Hk. lia.
Qed.

(** C5. On a deduplicated ascending list [U] of positive integers,
    [calculateNextIdentifier] returns the smallest positive integer that is
    not in [U]: 1 for the empty list, the maximum plus one when nothing is
    missing below it; and the identifiers extracted from the titles
    2025-001, 2025-002 and 2025-004 give 3. *)
Theorem calculateNextIdentifier_smallest_unused (U : list Z) :
  StronglySorted Z.lt U ->
  Forall (fun u => 0 < u) U ->
  (0 < calculateNextIdentifier U
   /\ ~ In (calculateNextIdentifier U) U
   /\ forall k, 0 < k < calculateNextIdentifier U -> In k U)
  /\ (U = [] -> calculateNextIdentifier U = 1)
  /\ (forall m, In m U -> (forall u, In u U -> u <= m) ->
        (forall k, 0 < k <= m -> In k U) ->
        calculateNextIdentifier U = m + 1)
  /\ calculateNextIdentifier
       (extractCertificateIdentifiers
          (map Examples.titled ["2025-001"; "2025-002"; "2025-004"])) = 3.
Proof.
  intros Hs Hpos.
  pose proof (calculateNextIdentifier_spec U Hs Hpos) as (Hr & Hnot & Hbelow).
  split; [auto|]. split; [now intros ->|]. split; [|reflexivity].
  intros m Hm Hmax Hfull.
  destruct (Z.lt_trichotomy (calculateNextIdentifier U) (m + 1)) as [Hlt | [Heq | Hgt]].
  - exfalso. apply Hnot, Hfull. lia.
  - exact Heq.
  - specialize (Hbelow (m + 1)). specialize (Hmax (m + 1)).
    cut (m + 1 <= m); [lia|]. apply Hmax, Hbelow.
    rewrite List.Forall_forall in Hpos. specialize (Hpos m Hm). lia.
Qed.

(** C5, an instance: the list 1, 2, 4, whose first free slot is 3. *)
Lemma calculateNextIdentifier_smallest_unused_witness :
  0 < calculateNextIdentifier [1; 2; 4]
  /\ ~ In (calculateNextIdentifier [1; 2; 4]) [1; 2; 4]
  /\ forall k, 0 < k < calculateNextIdentifier [1; 2; 4] -> In k [1; 2; 4].
Proof.
  refine (proj1 (calculateNextIdentifier_smallest_unused [1; 2; 4] _ _)).
  - repeat constructor; lia.
  - repeat constructor; lia.
Defined.

(** The other two scenarios of the specification. *)
Example calculateNextIdentifier_no_titles :
  calculateNextIdentifier (extractCertificateIdentifiers []) = 1.
Proof. reflexivity. Qed.

Example calculateNextIdentifier_no_gap :
  calculateNextIdentifier
    (extractCertificateIdentifiers
       (map Examples.titled ["2025-001"; "2025-002"; "2025-003"])) = 4.
Proof. reflexivity. Qed.

(** ** Matching the title patterns *)

Lemma append_cons (x : ascii) (a b : string) : String x a +:+ b = String x (a +:+ b).
Proof. reflexivity. Qed.

Lemma append_nil_l (a : string) : EmptyString +:+ a = a.
Proof. reflexivity. Qed.

Ltac norm_append := rewrite ?append_cons, ?append_nil_l.

Lemma append_assoc (a b c : string) : (a +:+ b) +:+ c = a +:+ b +:+ c.
Proof. induction a as [|x a IH]; norm_append; [reflexivity | now rewrite IH]. Qed.

Lemma append_nil_r (a : string) : a +:+ EmptyString = a.
Proof. induction a as [|x a IH]; norm_append; [reflexivity | now rewrite IH]. Qed.

Lemma append_length (a b : string) :
  String.length (a +:+ b) = (String.length a + String.length b)%nat.
Proof. induction a as [|x a IH]; norm_append; simpl; [reflexivity | now rewrite IH]. Qed.

Lemma matchDigits_Some n :
  forall s m rest,
  matchDigits n s = Some (m, rest) ->
  s = m +:+ rest /\ String.length m = n /\ allDigits m = true.
Proof.
  induction n as [|n IH]; intros s m rest; simpl.
  - intros [= <- <-]. auto.
  - destruct s as [|c r]; [discriminate|].
    destruct (isDigit c) eqn:Hc; [|discriminate].
    destruct (matchDigits n r) as [[m' rest']|] eqn:Hm; [|discriminate].
    intros [= <- <-]. destruct (IH _ _ _ Hm) as (-> & Hlen & Hd).
    norm_append. simpl. rewrite Hc, Hlen, Hd. auto.
Qed.

Lemma matchDigits_complete ds :
  forall rest,
  allDigits ds = true ->
  matchDigits (String.length ds) (ds +:+ rest) = Some (ds, rest).
Proof.
  induction ds as [|c ds IH]; intros rest; norm_append; simpl; [reflexivity|].
  intros H. apply andb_true_iff in H. destruct H as [Hc Hd].
  now rewrite Hc, IH.
Qed.

Lemma matchAt_Some re :
  forall s m, matchAt re s = Some m -> Matches re m /\ exists rest, s = m +:+ rest.
Proof.
  induction re as [|[n|] re IH]; intros s m; simpl.
  - intros [= <-]. split; [reflexivity | now exists s].
  - destruct (matchDigits n s) as [[ds rest]|] eqn:Hd; [|discriminate].
    destruct (matchAt re rest) as [m'|] eqn:Hm; [|discriminate].
    intros [= <-]. apply matchDigits_Some in Hd. destruct Hd as (-> & Hlen & Hds).
    destruct (IH _ _ Hm) as (Hmatch & rest' & ->).
    split; [now exists ds, m' | exists rest'; now rewrite append_assoc].
  - destruct s as [|c rest]; [discriminate|].
    destruct (Ascii.eqb_spec c dash) as [->|]; [|discriminate].
    destruct (matchAt re rest) as [m'|] eqn:Hm; [|discriminate].
    intros [= <-]. destruct (IH _ _ Hm) as (Hmatch & rest' & ->).
    split; [now exists m' | now exists rest'].
Qed.

Lemma matchAt_complete re :
  forall m rest, Matches re m -> matchAt re (m +:+ rest) = Some m.
Proof.
  induction re as [|[n|] re IH]; intros m rest; simpl.
  - now intros ->.
  - intros (ds & m' & -> & <- & Hds & Hm).
    rewrite append_assoc, matchDigits_complete by exact Hds.
    now rewrite (IH _ _ Hm).
  - intros (m' & -> & Hm). norm_append. rewrite (IH _ _ Hm).
    now rewrite (proj2 (Ascii.eqb_eq dash dash) eq_refl).
Qed.

(** Every match the scan reports is a match of the expression and a piece
    of the text. *)
Lemma scan_sound re s :
  forall skip m,
  In m (scan re skip s) ->
  Matches re m /\ exists before after, s = before +:+ m +:+ after.
Proof.
  induction s as [|c s IH]; intros skip m; simpl; [intros []|].
  assert (Hlater : forall k, In m (scan re k s) ->
            Matches re m /\ exists before after, String c s = before +:+ m +:+ after).
  { intros k Hin. destruct (IH _ _ Hin) as (Hm & before & after & ->).
    split; [exact Hm|]. now exists (String c before), after. }
  destruct skip as [|k]; [|apply Hlater].
  destruct (matchAt re (String c s)) as [m'|] eqn:Hm; [|apply Hlater].
  intros [<- | Hin]; [|now apply Hlater with (String.length m' - 1)%nat].
  destruct (matchAt_Some _ _ _ Hm) as (Hmatch & rest & Heq).
  split; [exact Hmatch|]. exists EmptyString, rest. exact Heq.
Qed.

(** The scan misses no place where the expression matches, as long as the
    expression cannot match the empty text. *)
Lemma scan_complete re title :
  (forall m, Matches re m -> m <> EmptyString) ->
  occurs re title -> scan re 0 title <> [].
Proof.
  intros Hne (before & m & after & -> & Hm).
  induction before as [|c before IH]; norm_append.
  - pose proof (Hne m Hm) as Hm'. destruct m as [|c m]; [congruence|].
    norm_append. cbn [scan]. rewrite <- append_cons.
    now rewrite (matchAt_complete _ _ after Hm).
  - cbn [scan].
    destruct (matchAt re (String c (before +:+ m +:+ after))); [discriminate|].
    exact IH.
Qed.

Lemma scan_skip re m :
  forall s, scan re (String.length m) (m +:+ s) = scan re 0 s.
Proof.
  induction m as [|c m IH]; intros s; norm_append; [reflexivity|].
  cbn [String.length]. destruct s as [|d s]; cbn [scan]; apply IH.
Qed.

(** A match at the head of the text is reported, and the search goes on
    behind it. *)
Lemma scan_head re m s :
  Matches re m -> m <> EmptyString ->
  scan re 0 (m +:+ s) = m :: scan re 0 s.
Proof.
  intros Hm Hne. pose proof (matchAt_complete re m s Hm) as Hat.
  destruct m as [|c m]; [congruence|]. rewrite append_cons in *.
  cbn [scan]. rewrite Hat.
  replace (String.length (String c m) - 1)%nat with (String.length m)
    by (simpl; lia).
  now rewrite scan_skip.
Qed.

Lemma patterns_nonempty re m : In re patterns -> Matches re m -> m <> EmptyString.
Proof.
  unfold patterns. simpl. intros Hre Hm ->.
  repeat (destruct Hre as [<- | Hre]; [
    simpl in Hm; destruct Hm as (ds & m' & Heq & Hlen & _);
    destruct ds; discriminate |]).
  exact Hre.
Qed.

Lemma String_match_None re title :
  In re patterns -> (String_match re title = None <-> ~ occurs re title).
Proof.
  intros Hre. unfold String_match. split.
  - intros H Hocc. apply (scan_complete re title) in Hocc.
    + destruct (scan re 0 title); [congruence | discriminate].
    + intros m. now apply patterns_nonempty.
  - intros Hnot. destruct (scan re 0 title) as [|m ms] eqn:Hs; [reflexivity|].
    exfalso. apply Hnot.
    destruct (scan_sound re title 0%nat m) as (Hm & before & after & ->).
    { rewrite Hs. now left. }
    now exists before, m, after.
Qed.

Lemma String_match_Some re title matches :
  String_match re title = Some matches ->
  matches <> []
  /\ Forall (fun m => Matches re m
               /\ exists before after, title = before +:+ m +:+ after) matches.
Proof.
  unfold String_match. destruct (scan re 0 title) as [|m ms] eqn:Hs; [discriminate|].
  intros [= <-]. split; [discriminate|].
  rewrite List.Forall_forall. intros m' Hin. apply scan_sound with 0%nat.
  now rewrite Hs.
Qed.

Lemma matchesAtHead_matchAt re s : matchesAtHead re s -> is_Some (matchAt re s).
Proof.
  intros (m & rest & -> & Hm). rewrite (matchAt_complete _ _ rest Hm). eauto.
Qed.

Lemma append_nil_inv (a b : string) : a +:+ b = EmptyString -> a = EmptyString /\ b = EmptyString.
Proof.
  destruct a; norm_append; [now intros -> | discriminate].
Qed.

(** A character in front of a text in which the search has been made, when
    the expression does not match at that character. *)
Lemma Successive_cons re c title ms :
  ~ matchesAtHead re (String c title) ->
  Successive re title ms -> Successive re (String c title) ms.
Proof.
  intros Hhead Hs. destruct Hs as [title Hnone | gap m rest ms Hm Hgap Hrest].
  - apply Successive_none. intros (before & m & after & Heq & Hm).
    destruct before as [|d before]; norm_append.
    + apply Hhead. now exists m, after.
    + rewrite append_cons in Heq. injection Heq as _ ->. apply Hnone.
      now exists before, m, after.
  - rewrite <- append_cons. apply Successive_match; [exact Hm | | exact Hrest].
    intros before after Heq Hne.
    destruct before as [|d before].
    + rewrite append_nil_l in Heq. subst after. now rewrite append_cons.
    + rewrite append_cons in Heq. injection Heq as _ Heq.
      now apply (Hgap before after).
Qed.

(** The matches the scan reports are the successive matches. *)
Lemma scan_Successive re :
  (forall m, Matches re m -> m <> EmptyString) ->
  forall n title, (String.length title <= n)%nat -> Successive re title (scan re 0 title).
Proof.
  intros Hne. induction n as [|n IH]; intros title Hlen.
  - destruct title; [|simpl in Hlen; lia]. apply Successive_none.
    intros (before & m & after & Heq & Hm). symmetry in Heq.
    apply append_nil_inv in Heq. destruct Heq as [_ Heq].
    apply append_nil_inv in Heq. destruct Heq as [-> _]. now apply (Hne EmptyString).
  - destruct title as [|c title].
    { apply Successive_none.
      intros (before & m & after & Heq & Hm). symmetry in Heq.
      apply append_nil_inv in Heq. destruct Heq as [_ Heq].
      apply append_nil_inv in Heq. destruct Heq as [-> _]. now apply (Hne EmptyString). }
    destruct (matchAt re (String c title)) as [m|] eqn:Hat.
    + destruct (matchAt_Some _ _ _ Hat) as (Hm & rest & Heq).
      rewrite Heq. rewrite (scan_head re m rest Hm (Hne m Hm)).
      rewrite <- (append_nil_l (m +:+ rest)).
      apply Successive_match; [exact Hm | |].
      * intros before after Hgap Hafter. symmetry in Hgap.
        apply append_nil_inv in Hgap. now destruct Hgap.
      * apply IH. pose proof (Hne m Hm) as Hm'.
        assert (Hl : String.length (String c title)
                     = (String.length m + String.length rest)%nat)
          by (rewrite Heq; apply append_length).
        destruct m; [congruence|]. simpl in *. lia.
    + cbn [scan]. rewrite Hat. apply Successive_cons.
      * intros Hhead. apply matchesAtHead_matchAt in Hhead.
        rewrite Hat in Hhead. now destruct Hhead.
      * apply IH. simpl in Hlen. lia.
Qed.

(** Conversely, the successive matches are what the scan reports: there is
    one list of successive matches, and no other. *)
Lemma Successive_scan re :
  (forall m, Matches re m -> m <> EmptyString) ->
  forall title ms, Successive re title ms -> scan re 0 title = ms.
Proof.
  intros Hne title ms Hs.
  induction Hs as [title Hnone | gap m rest ms Hm Hgap Hrest IH].
  - destruct (scan re 0 title) as [|m ms] eqn:Hscan; [reflexivity|].
    exfalso. apply Hnone.
    destruct (scan_sound re title 0%nat m) as (Hm & before & after & ->).
    { rewrite Hscan. now left. }
    now exists before, m, after.
  - induction gap as [|c gap IHgap].
    + rewrite append_nil_l, (scan_head re m rest Hm (Hne m Hm)). now rewrite IH.
    + rewrite append_cons. cbn [scan].
      destruct (matchAt re (String c (gap +:+ m +:+ rest))) as [m'|] eqn:Hat.
      * exfalso. apply (Hgap EmptyString (String c gap)); [reflexivity | discriminate|].
        destruct (matchAt_Some _ _ _ Hat) as (Hm' & rest' & Heq).
        exists m', rest'. now rewrite append_cons.
      * apply IHgap. intros before after Heq Hafter.
        apply (Hgap (String c before) after); [|exact Hafter].
        now rewrite Heq.
Qed.

Lemma String_match_Successive re title matches :
  In re patterns -> String_match re title = Some matches ->
  Successive re title matches
  /\ forall ms, Successive re title ms -> ms = matches.
Proof.
  intros Hre. unfold String_match.
  pose proof (scan_Successive re (fun m => patterns_nonempty re m Hre)
                (String.length title) title (le_n _)) as Hs.
  pose proof (Successive_scan re (fun m => patterns_nonempty re m Hre) title) as Hu.
  destruct (scan re 0 title); [discriminate|]. intros [= <-].
  split; [exact Hs|]. intros ms Hms. symmetry. now apply Hu.
Qed.

(** ** From a match to its number *)

Lemma isDigit_not_dash c : isDigit c = true -> Ascii.eqb c dash = false.
Proof.
  intros H. destruct (Ascii.eqb_spec c dash) as [->|]; [discriminate | reflexivity].
Qed.

Lemma allDigits_cons c s :
  allDigits (String c s) = true <-> isDigit c = true /\ allDigits s = true.
Proof. simpl. apply andb_true_iff. Qed.

Lemma allDigits_no_dash s : allDigits s = true -> String_includes dash s = false.
Proof.
  induction s as [|c s IH]; [reflexivity|].
  rewrite allDigits_cons. intros [Hc Hs]. simpl.
  now rewrite (isDigit_not_dash _ Hc), IH.
Qed.

Lemma includes_dash year suffix :
  String_includes dash (year +:+ String dash suffix) = true.
Proof.
  induction year as [|c year IH]; norm_append; simpl; [reflexivity|].
  rewrite IH. apply orb_true_r.
Qed.

Lemma split_digits s : allDigits s = true -> String_split dash s = [s].
Proof.
  induction s as [|c s IH]; [reflexivity|].
  rewrite allDigits_cons. intros [Hc Hs]. simpl.
  now rewrite (isDigit_not_dash _ Hc), IH.
Qed.

Lemma split_dashed year suffix :
  allDigits year = true -> allDigits suffix = true ->
  String_split dash (year +:+ String dash suffix) = [year; suffix].
Proof.
  intros Hy Hs. induction year as [|c year IH]; norm_append; simpl.
  - now rewrite split_digits.
  - apply allDigits_cons in Hy. destruct Hy as [Hc Hy].
    now rewrite (isDigit_not_dash _ Hc), IH.
Qed.

Lemma leadingDigits_decimal s :
  allDigits s = true ->
  forall acc,
  foldl (fun acc d => 10 * acc + d) acc (leadingDigits s) = decimalFrom acc s.
Proof.
  induction s as [|c s IH]; [reflexivity|].
  rewrite allDigits_cons. intros [Hc Hs] acc. simpl. rewrite Hc. simpl.
  now apply IH.
Qed.

Lemma parseInt_digits s :
  allDigits s = true -> s <> EmptyString -> parseInt (Some s) = Some (decimal s).
Proof.
  intros Hs Hne. unfold parseInt, decimal.
  rewrite <- (leadingDigits_decimal s Hs).
  destruct s as [|c s]; [congruence|].
  apply allDigits_cons in Hs. destruct Hs as [Hc _].
  simpl. now rewrite Hc.
Qed.

Lemma identifierOf_dashed year suffix :
  allDigits year = true -> allDigits suffix = true -> suffix <> EmptyString ->
  identifierOf (year +:+ String dash suffix)
  = if (0 <? decimal suffix) && (decimal suffix <? 10000)
    then Some (decimal suffix) else None.
Proof.
  intros Hy Hs Hne. unfold identifierOf.
  rewrite includes_dash, split_dashed by assumption.
  simpl lookup. now rewrite parseInt_digits.
Qed.

Lemma identifierOf_bare m :
  allDigits m = true -> m <> EmptyString ->
  identifierOf m
  = if (0 <? decimal m) && (decimal m <? 10000) then Some (decimal m) else None.
Proof.
  intros Hm Hne. unfold identifierOf.
  now rewrite allDigits_no_dash, parseInt_digits.
Qed.

Lemma identifierOf_range m n : identifierOf m = Some n -> 0 < n < 10000.
Proof.
  unfold identifierOf.
  destruct (if String_includes dash m then _ else _) as [k|]; [|discriminate].
  destruct (Z.ltb_spec 0 k); [|discriminate].
  destruct (Z.ltb_spec k 10000); [|discriminate].
  simpl. intros [= <-]. lia.
Qed.

(** What the matches of each title pattern look like, and what
    [identifierOf] makes of them. *)
Lemma patterns_number re m :
  In re patterns -> Matches re m ->
  exists number,
    numberOfMatch re m number
    /\ identifierOf m
       = if (0 <? number) && (number <? 10000) then Some number else None.
Proof.
  assert (Hdashed : forall k,
    k <> 0%nat -> Matches [Digits 4; Dash; Digits k] m ->
    exists number,
      numberOfMatch [Digits 4; Dash; Digits k] m number
      /\ identifierOf m
         = if (0 <? number) && (number <? 10000) then Some number else None).
  { intros k Hk (year & m1 & -> & Hlen & Hy & m2 & -> & suffix & m3 & -> & Hlen' & Hs & ->).
    rewrite append_nil_r. exists (decimal suffix). split.
    - left. exists year, suffix. rewrite Hlen'. auto.
    - apply identifierOf_dashed; auto. intros ->. simpl in Hlen'. congruence. }
  assert (Hbare : forall k,
    k <> 0%nat -> Matches [Digits k] m ->
    exists number,
      numberOfMatch [Digits k] m number
      /\ identifierOf m
         = if (0 <? number) && (number <? 10000) then Some number else None).
  { intros k Hk (ds & m1 & -> & Hlen & Hd & ->).
    rewrite append_nil_r. exists (decimal ds). split.
    - right. rewrite Hlen. auto.
    - apply identifierOf_bare; auto. intros ->. simpl in Hlen. congruence. }
  unfold patterns. simpl.
  intros [<- | [<- | [<- | [<- | [<- | [<- | []]]]]]];
    (apply Hdashed || apply Hbare); discriminate.
Qed.

Lemma extractFromTitle_chosen title matches re weaker :
  forall stronger,
  Forall (fun re' => String_match re' title = None) stronger ->
  String_match re title = Some matches ->
  extractFromTitle (stronger ++ re :: weaker) title = omap identifierOf matches.
Proof.
  induction 1 as [|re' stronger Hre' _ IH]; intros Hm; simpl.
  - now rewrite Hm.
  - rewrite Hre'. now apply IH.
Qed.

Lemma extractFromTitle_nothing title ps :
  Forall (fun re => String_match re title = None) ps ->
  extractFromTitle ps title = [].
Proof.
  induction 1 as [|re ps Hre _ IH]; simpl; [reflexivity|]. now rewrite Hre.
Qed.

Lemma extractFromTitle_range title ps :
  Forall (fun n => 0 < n < 10000) (extractFromTitle ps title).
Proof.
  induction ps as [|re ps IH]; simpl; [constructor|].
  destruct (String_match re title) as [matches|]; [|exact IH].
  rewrite Forall_forall. intros n Hn.
  apply list_elem_of_omap in Hn. destruct Hn as (m & _ & Hm).
  now apply identifierOf_range with m.
Qed.

Lemma extractCertificateIdentifiers_In issues n :
  In n (extractCertificateIdentifiers issues)
  <-> exists issue,
        In issue issues /\ In n (extractFromTitle patterns (Issue.title issue)).
Proof.
  unfold extractCertificateIdentifiers.
  rewrite sort_In, setOf_In, in_flat_map. reflexivity.
Qed.

(** C6. The patterns are tried in the order year-dash-3-digits,
    year-dash-2-digits, year-dash-1-digit, 3 digits, 2 digits, 1 digit.
    For every title, the first pattern of that order that matches anywhere
    in the title supplies all the numbers taken from the title. Every match
    of that pattern is taken: the leftmost one, then the leftmost one
    behind it, and so on until the pattern matches nowhere in the rest of
    the title; these successive matches, and no other list, are what is
    read. Each match gives one number, namely the digits behind the
    dash of a dashed match and all the digits of a bare one, kept only when
    it lies strictly between 0 and 10000; no weaker pattern is consulted. A
    title no pattern matches supplies nothing. *)
Theorem extractFromTitle_first_matching_pattern (title : string) :
  patterns
  = [ [Digits 4; Dash; Digits 3]; [Digits 4; Dash; Digits 2];
      [Digits 4; Dash; Digits 1]; [Digits 3]; [Digits 2]; [Digits 1] ]
  /\ (forall stronger re weaker,
        patterns = stronger ++ re :: weaker ->
        (forall re', In re' stronger -> ~ occurs re' title) ->
        occurs re title ->
        exists matches,
          String_match re title = Some matches
          /\ Successive re title matches
          /\ (forall ms, Successive re title ms -> ms = matches)
          /\ extractFromTitle patterns title = omap identifierOf matches
          /\ Forall
               (fun m =>
                  (exists before after, title = before +:+ m +:+ after)
                  /\ exists number,
                       numberOfMatch re m number
                       /\ identifierOf m
                          = if (0 <? number) && (number <? 10000)
                            then Some number else None)
               matches)
  /\ ((forall re, In re patterns -> ~ occurs re title) ->
        extractFromTitle patterns title = [])
  /\ (forall issues n,
        In n (extractCertificateIdentifiers issues)
        <-> exists issue,
              In issue issues
              /\ In n (extractFromTitle patterns (Issue.title issue))).
Proof.
  split; [reflexivity|]. split; [|split].
  - intros stronger re weaker Hsplit Hstronger Hocc.
    assert (Hre : In re patterns).
    { rewrite Hsplit. apply in_or_app. right. now left. }
    destruct (String_match re title) as [matches|] eqn:Hm.
    2:{ exfalso. now apply (String_match_None re title Hre). }
    exists matches. split; [reflexivity|].
    destruct (String_match_Successive re title matches Hre Hm) as [Hsucc Hunique].
    split; [exact Hsucc|]. split; [exact Hunique|]. split.
    + rewrite Hsplit. apply extractFromTitle_chosen; [|exact Hm].
      rewrite List.Forall_forall. intros re' Hre'.
      apply String_match_None; [|now apply Hstronger].
      rewrite Hsplit. apply in_or_app. now left.
    + destruct (String_match_Some _ _ _ Hm) as [_ Hall].
      eapply Forall_impl; [exact Hall|]. simpl.
      intros m [Hmatch Hpiece]. split; [exact Hpiece|].
      now apply patterns_number.
  - intros Hnone. apply extractFromTitle_nothing.
    rewrite List.Forall_forall. intros re Hre.
    apply String_match_None; [exact Hre | now apply Hnone].
  - apply extractCertificateIdentifiers_In.
Qed.

(** C6, an instance: a title with two dashed identifiers and a bare
    number; both matches of the dashed pattern are taken and the bare
    number is not. *)
Lemma extractFromTitle_first_matching_pattern_witness :
  extractFromTitle patterns "Check 2025-007 and 2025-012, part 3" = [7; 12].
Proof.
  destruct (extractFromTitle_first_matching_pattern
              "Check 2025-007 and 2025-012, part 3")
    as (_ & Hfirst & _).
  destruct (Hfirst [] [Digits 4; Dash; Digits 3]
              [ [Digits 4; Dash; Digits 2]; [Digits 4; Dash; Digits 1];
                [Digits 3]; [Digits 2]; [Digits 1] ])
    as (matches & Hm & _ & _ & Hextract & _).
  - reflexivity.
  - intros re' [].
  - exists "Check ", "2025-007", " and 2025-012, part 3". split; [reflexivity|].
    exists "2025", "-007". split; [reflexivity|].
    split; [reflexivity|]. split; [reflexivity|].
    exists "007". split; [reflexivity|].
    exists "007", EmptyString. repeat split.
  - injection Hm as <-. exact Hextract.
Defined.

(** C10. Whatever the issues, the identifiers [extractCertificateIdentifiers]
    returns are strictly increasing and each lies strictly between 0 and
    10000; so [calculateNextIdentifier] applied to them yields the least
    positive integer not among them. *)
Theorem extractCertificateIdentifiers_ascending (issues : list Issue.t) :
  StronglySorted Z.lt (extractCertificateIdentifiers issues)
  /\ Forall (fun n => 0 < n < 10000) (extractCertificateIdentifiers issues)
  /\ 0 < calculateNextIdentifier (extractCertificateIdentifiers issues)
  /\ ~ In (calculateNextIdentifier (extractCertificateIdentifiers issues))
          (extractCertificateIdentifiers issues)
  /\ forall k,
       0 < k < calculateNextIdentifier (extractCertificateIdentifiers issues) ->
       In k (extractCertificateIdentifiers issues).
Proof.
  assert (Hsorted : StronglySorted Z.lt (extractCertificateIdentifiers issues)).
  { unfold extractCertificateIdentifiers.
    apply StronglySorted_strict; [apply sort_ascending|].
    rewrite sort_Permutation. apply setOf_NoDup. }
  assert (Hrange : Forall (fun n => 0 < n < 10000) (extractCertificateIdentifiers issues)).
  { rewrite List.Forall_forall. intros n Hn.
    apply extractCertificateIdentifiers_In in Hn. destruct Hn as (issue & _ & Hn).
    pose proof (extractFromTitle_range (Issue.title issue) patterns) as H.
    rewrite List.Forall_forall in H. now apply H. }
  split; [exact Hsorted|]. split; [exact Hrange|].
  apply calculateNextIdentifier_spec; [exact Hsorted|].
  eapply Forall_impl; [exact Hrange|]. simpl. intros; lia.
Qed.

(** ** Objects used as dictionaries *)

Section JsObjectFacts.

Context {V : Type}.
Implicit Types (o : JsObject.t V) (k : string) (v : V).

Lemma get_empty k : JsObject.own k (@JsObject.empty V) = None.
Proof. apply lookup_empty. Qed.

Lemma filter_complement (p : string -> bool) (l : list string) :
  Permutation (List.filter p l ++ List.filter (fun k => negb (p k)) l) l.
Proof.
  induction l as [|x l IH]; [reflexivity|]. cbn [List.filter].
  destruct (p x); cbn [negb app].
  - now constructor.
  - rewrite <- Permutation_middle. now constructor.
Qed.

(** The enumeration visits every key once: it is a rearrangement of the
    keys. *)
Lemma ownKeys_Permutation o : Permutation (JsObject.ownKeys o) (JsObject.keys o).
Proof.
  unfold JsObject.ownKeys. rewrite (sort_Permutation JsObject.byIndex).
  apply filter_complement.
Qed.

Lemma ownKeys_In o k : In k (JsObject.ownKeys o) <-> In k (JsObject.keys o).
Proof.
  split; apply Permutation_in; [|symmetry]; apply ownKeys_Permutation.
Qed.

(** Logins that are array indices are enumerated first, in ascending order:
    the object with the keys [alice], [10], [bob] and [7], created in this
    order. *)
Example values_order :
  JsObject.values
    (JsObject.set "7" 7
       (JsObject.set "bob" 2
          (JsObject.set "10" 10 (JsObject.set "alice" 1 JsObject.empty))))
  = [7; 10; 1; 2].
Proof. vm_compute. reflexivity. Qed.

Example arrayIndex_samples :
  Js.arrayIndex "42" = Some 42 /\ Js.arrayIndex "042" = None
  /\ Js.arrayIndex "4294967294" = Some 4294967294
  /\ Js.arrayIndex "4294967295" = None /\ Js.arrayIndex "alice" = None.
Proof. vm_compute. auto. Qed.

Lemma get_set o k k' v :
  JsObject.own k' (JsObject.set k v o)
  = if decide (k = k') then Some v else JsObject.own k' o.
Proof. unfold JsObject.own, JsObject.set. simpl. apply lookup_insert. Qed.

Lemma get_update o k k' (f : V -> V) :
  JsObject.own k' (JsObject.update k f o)
  = if decide (k = k') then f <$> JsObject.own k' o else JsObject.own k' o.
Proof.
  unfold JsObject.update.
  destruct (JsObject.own k o) as [v|] eqn:Hk.
  - rewrite get_set. destruct (decide (k = k')) as [<-|]; [|reflexivity].
    now rewrite Hk.
  - destruct (decide (k = k')) as [<-|]; [|reflexivity]. now rewrite Hk.
Qed.

Lemma values_In o v : In v (JsObject.values o) -> exists k, JsObject.own k o = Some v.
Proof.
  unfold JsObject.values. intros H. apply list_elem_of_In, list_elem_of_omap in H.
  destruct H as (k & _ & Hk). now exists k.
Qed.

Lemma values_covered o k v :
  covered o -> JsObject.own k o = Some v -> In v (JsObject.values o).
Proof.
  intros Hc Hk. apply list_elem_of_In, list_elem_of_omap.
  exists k. split; [|exact Hk]. apply list_elem_of_In, ownKeys_In, Hc.
  unfold JsObject.own in Hk. rewrite Hk. eauto.
Qed.

Lemma covered_empty : covered (@JsObject.empty V).
Proof. intros k [v Hv]. simpl in Hv. now rewrite lookup_empty in Hv. Qed.

Lemma covered_set o k v : covered o -> covered (JsObject.set k v o).
Proof.
  intros Hc k' Hk'. unfold JsObject.set in *. simpl in *.
  destruct (decide (k = k')) as [<-|Hne].
  - destruct (JsObject.props o !! k) as [w|] eqn:Hw; simpl.
    + apply Hc. rewrite Hw. eauto.
    + apply in_or_app. right. now left.
  - rewrite lookup_insert_ne in Hk' by exact Hne.
    destruct (JsObject.props o !! k); simpl; [now apply Hc|].
    apply in_or_app. left. now apply Hc.
Qed.

Lemma covered_update o k (f : V -> V) : covered o -> covered (JsObject.update k f o).
Proof.
  intros Hc. unfold JsObject.update.
  destruct (JsObject.own k o); [now apply covered_set | exact Hc].
Qed.

End JsObjectFacts.

(** ** The tallying scheme, seen from one user *)

Section TallyFacts.

Context {V : Type} (fresh : User.t -> V) (record : Issue.t -> V -> V).
Implicit Types (o : JsObject.t V) (u : string) (a : User.t).

Lemma get_ensure o a u :
  JsObject.own u (ensure fresh a o)
  = if decide (User.login a = u)
    then Some (default (fresh a) (JsObject.own u o))
    else JsObject.own u o.
Proof.
  unfold ensure.
  destruct (JsObject.own (User.login a) o) as [v|] eqn:Ha; simpl.
  - destruct (decide (User.login a = u)) as [<-|]; [|reflexivity]. now rewrite Ha.
  - rewrite get_set.
    destruct (decide (User.login a = u)) as [<-|]; [|reflexivity]. now rewrite Ha.
Qed.

Lemma get_creditPrimary issue o u :
  JsObject.own u (creditPrimary fresh record issue o)
  = match Issue.assignee issue with
    | Some a =>
        if decide (User.login a = u)
        then Some (record issue (default (fresh a) (JsObject.own u o)))
        else JsObject.own u o
    | None => JsObject.own u o
    end.
Proof.
  unfold creditPrimary. destruct (Issue.assignee issue) as [a|]; [|reflexivity].
  rewrite get_update, get_ensure.
  now destruct (decide (User.login a = u)).
Qed.

Lemma get_creditAdditionalOne issue o a u :
  JsObject.own u (creditAdditionalOne fresh record issue o a)
  = if decide (User.login a = u)
    then if notPrimary issue u
         then Some (record issue (default (fresh a) (JsObject.own u o)))
         else Some (default (fresh a) (JsObject.own u o))
    else JsObject.own u o.
Proof.
  unfold creditAdditionalOne.
  destruct (decide (User.login a = u)) as [<-|Hne].
  - destruct (notPrimary issue (User.login a)).
    + rewrite get_update, get_ensure. now rewrite !decide_True by reflexivity.
    + rewrite get_ensure. now rewrite decide_True by reflexivity.
  - destruct (notPrimary issue (User.login a)).
    + rewrite get_update, get_ensure. now rewrite !decide_False by exact Hne.
    + rewrite get_ensure. now rewrite decide_False by exact Hne.
Qed.

Lemma isUser_eq a u : User.login a = u -> isUser u a = true.
Proof. intros H. now apply bool_decide_eq_true_2. Qed.

Lemma isUser_ne a u : User.login a <> u -> isUser u a = false.
Proof. intros H. now apply bool_decide_eq_false_2. Qed.

(** The loop over [assignees] for a user who is not the [assignee]. *)
Lemma get_additional_counted issue u l :
  notPrimary issue u = true ->
  forall o,
  JsObject.own u (foldl (creditAdditionalOne fresh record issue) o l)
  = match List.filter (isUser u) l with
    | [] => JsObject.own u o
    | a :: rest =>
        Some (Nat.iter (S (length rest)) (record issue)
                (default (fresh a) (JsObject.own u o)))
    end.
Proof.
  intros Hnp. induction l as [|a l IH]; intros o; [reflexivity|].
  cbn [foldl List.filter]. rewrite IH, get_creditAdditionalOne, Hnp.
  destruct (decide (User.login a = u)) as [Heq|Hne].
  - rewrite (isUser_eq _ _ Heq).
    destruct (List.filter (isUser u) l) as [|a' rest]; [reflexivity|].
    cbn [default length]. unfold id. now rewrite <- Nat.iter_succ_r.
  - now rewrite (isUser_ne _ _ Hne).
Qed.

(** The same loop for the user who is the [assignee]: nothing is added. *)
Lemma get_additional_skipped issue u l :
  notPrimary issue u = false ->
  forall o,
  is_Some (JsObject.own u o) ->
  JsObject.own u (foldl (creditAdditionalOne fresh record issue) o l)
  = JsObject.own u o.
Proof.
  intros Hnp. induction l as [|a l IH]; intros o Ho; [reflexivity|].
  cbn [foldl].
  assert (Hstep : JsObject.own u (creditAdditionalOne fresh record issue o a)
                  = JsObject.own u o).
  { rewrite get_creditAdditionalOne, Hnp. destruct Ho as [v Hv]. rewrite Hv.
    now destruct (decide (User.login a = u)). }
  rewrite IH; [exact Hstep | now rewrite Hstep].
Qed.

Lemma creditAdditional_foldl issue o :
  creditAdditional fresh record issue o
  = foldl (creditAdditionalOne fresh record issue) o (assigneeList issue).
Proof.
  unfold creditAdditional, assigneeList.
  destruct (Issue.assignees issue) as [[|a l]|]; reflexivity.
Qed.

(** One issue, seen from the user [u]: untouched when the issue does not
    name [u], else the record of [u] (a fresh one at need) with the issue
    noted [creditsOf u issue] times. *)
Lemma get_creditAll issue o u :
  JsObject.own u (creditAll fresh record issue o)
  = match List.filter (isUser u) (mentions issue) with
    | [] => JsObject.own u o
    | a :: _ =>
        Some (Nat.iter (creditsOf u issue) (record issue)
                (default (fresh a) (JsObject.own u o)))
    end.
Proof.
  unfold creditAll, mentions, creditsOf. rewrite creditAdditional_foldl.
  pose proof (get_creditPrimary issue o u) as Hp.
  assert (Hnp : notPrimary issue u
                = match Issue.assignee issue with
                  | Some a => negb (isUser u a)
                  | None => true
                  end) by reflexivity.
  destruct (Issue.assignee issue) as [p|].
  - cbn [List.filter].
    destruct (decide (User.login p = u)) as [Heq|Hne].
    + rewrite (isUser_eq _ _ Heq) in Hnp |- *.
      rewrite get_additional_skipped; [exact Hp | exact Hnp | rewrite Hp; eauto].
    + rewrite (isUser_ne _ _ Hne) in Hnp |- *.
      rewrite get_additional_counted by exact Hnp. rewrite Hp.
      now destruct (List.filter (isUser u) (assigneeList issue)).
  - rewrite get_additional_counted by exact Hnp. rewrite Hp.
    now destruct (List.filter (isUser u) (assigneeList issue)).
Qed.

Lemma creditsOf_unmentioned issue u :
  List.filter (isUser u) (mentions issue) = [] -> creditsOf u issue = 0%nat.
Proof.
  unfold mentions, creditsOf. destruct (Issue.assignee issue) as [p|].
  - cbn [List.filter]. destruct (isUser u p); [discriminate|]. now intros ->.
  - now intros ->.
Qed.

Lemma covered_ensure o a : covered o -> covered (ensure fresh a o).
Proof.
  intros Hc. unfold ensure.
  destruct (Js.truthy _); [exact Hc | now apply covered_set].
Qed.

Lemma covered_creditAll issue o : covered o -> covered (creditAll fresh record issue o).
Proof.
  intros Hc. unfold creditAll. rewrite creditAdditional_foldl.
  assert (Hp : covered (creditPrimary fresh record issue o)).
  { unfold creditPrimary. destruct (Issue.assignee issue); [|exact Hc].
    now apply covered_update, covered_ensure. }
  revert Hp. generalize (creditPrimary fresh record issue o).
  induction (assigneeList issue) as [|a l IH]; intros o' Ho'; [exact Ho'|].
  cbn [foldl]. apply IH. unfold creditAdditionalOne.
  destruct (notPrimary issue (User.login a)).
  - now apply covered_update, covered_ensure.
  - now apply covered_ensure.
Qed.

End TallyFacts.

(** ** The tallying scheme as it runs *)

Lemma bind_Returned {A B} (m : Run A) (k : A -> Run B) realm a realm' :
  m realm = (Returned a, realm') -> bind m k realm = k a realm'.
Proof. unfold bind. now intros ->. Qed.

Lemma bind_Thrown {A B} (m : Run A) (k : A -> Run B) realm message realm' :
  m realm = (Thrown message, realm') -> bind m k realm = (Thrown message, realm').
Proof. unfold bind. now intros ->. Qed.

Section RunFacts.

Context {V : Type} (fresh : User.t -> V) (record : Issue.t -> V -> V).
Context (counter array : string).
Implicit Types (o : JsObject.t V) (u : string) (a : User.t) (realm : Realm.t).

Lemma truthy_get realm k o :
  JsObject.isInherited k = false ->
  JsObject.truthy (JsObject.get realm k o) = Js.truthy (JsObject.own k o).
Proof.
  intros Hk. unfold JsObject.get. destruct (JsObject.own k o); [reflexivity|].
  rewrite Hk. now destruct (Realm.isAssigned _ _ _).
Qed.

Lemma ensureRun_ordinary realm a o :
  ordinaryLogin a = true ->
  ensureRun fresh a o realm = (Returned (ensure fresh a o), realm).
Proof.
  intros Ha. apply negb_true_iff in Ha. unfold ensureRun, ensure.
  rewrite (truthy_get _ _ _ Ha). now destruct (Js.truthy _).
Qed.

Lemma creditRun_own realm issue k o v :
  JsObject.own k o = Some v ->
  creditRun record counter array issue k o realm
  = (Returned (JsObject.update k (record issue) o), realm).
Proof.
  intros Hv. unfold creditRun, JsObject.count, JsObject.get, JsObject.update.
  now rewrite Hv.
Qed.

Lemma own_ensure a o : is_Some (JsObject.own (User.login a) (ensure fresh a o)).
Proof.
  rewrite get_ensure, decide_True by reflexivity. eauto.
Qed.

Lemma primaryRun_ordinary realm issue o :
  forallb (fun a => ordinaryLogin a) (mentions issue) = true ->
  primaryRun fresh record counter array issue o realm
  = (Returned (creditPrimary fresh record issue o), realm).
Proof.
  unfold mentions, primaryRun, creditPrimary.
  destruct (Issue.assignee issue) as [p|]; [|reflexivity].
  cbn [forallb]. intros H. apply andb_true_iff in H. destruct H as [Hp _].
  rewrite (bind_Returned _ _ _ _ _ (ensureRun_ordinary realm p o Hp)).
  destruct (own_ensure p o) as [v Hv]. now apply creditRun_own with v.
Qed.

Lemma additionalOneRun_ordinary realm issue o a :
  ordinaryLogin a = true ->
  additionalOneRun fresh record counter array issue o a realm
  = (Returned (creditAdditionalOne fresh record issue o a), realm).
Proof.
  intros Ha. unfold additionalOneRun, creditAdditionalOne.
  rewrite (bind_Returned _ _ _ _ _ (ensureRun_ordinary realm a o Ha)).
  destruct (notPrimary issue (User.login a)); [|reflexivity].
  destruct (own_ensure a o) as [v Hv]. now apply creditRun_own with v.
Qed.

Lemma forEach_additional_ordinary realm issue l :
  forallb (fun a => ordinaryLogin a) l = true ->
  forall o,
  forEach (additionalOneRun fresh record counter array issue) l o realm
  = (Returned (foldl (creditAdditionalOne fresh record issue) o l), realm).
Proof.
  induction l as [|a l IH]; intros Hl o; [reflexivity|].
  cbn [forallb] in Hl. apply andb_true_iff in Hl. destruct Hl as [Ha Hl].
  cbn [forEach foldl].
  rewrite (bind_Returned _ _ _ _ _ (additionalOneRun_ordinary realm issue o a Ha)).
  now apply IH.
Qed.

Lemma forallb_mentions (p : User.t -> bool) issue :
  forallb p (mentions issue) = true -> forallb p (assigneeList issue) = true.
Proof.
  unfold mentions. destruct (Issue.assignee issue); [|auto].
  cbn [forallb]. intros H. now apply andb_true_iff in H.
Qed.

Lemma additionalRun_forEach issue o :
  additionalRun fresh record counter array issue o
  = forEach (additionalOneRun fresh record counter array issue) (assigneeList issue) o.
Proof.
  unfold additionalRun, assigneeList.
  destruct (Issue.assignees issue) as [[|a l]|]; reflexivity.
Qed.

(** On an issue that names ordinary logins only, the scheme returns what
    [creditAll] describes and assigns on no built-in. *)
Lemma creditAllRun_ordinary realm issue o :
  forallb (fun a => ordinaryLogin a) (mentions issue) = true ->
  creditAllRun fresh record counter array issue o realm
  = (Returned (creditAll fresh record issue o), realm).
Proof.
  intros H. unfold creditAllRun, creditAll.
  rewrite (bind_Returned _ _ _ _ _ (primaryRun_ordinary realm issue o H)).
  rewrite additionalRun_forEach, creditAdditional_foldl.
  now apply forEach_additional_ordinary, forallb_mentions.
Qed.

(** Inherited names never become own keys. *)
Lemma clean_empty : clean (@JsObject.empty V).
Proof. intros k _. apply get_empty. Qed.

Lemma clean_update o k (f : V -> V) : clean o -> clean (JsObject.update k f o).
Proof.
  intros Hc k' Hk'. rewrite get_update. specialize (Hc k' Hk').
  destruct (decide (k = k')); [now rewrite Hc | exact Hc].
Qed.

Lemma clean_ensure o a : ordinaryLogin a = true -> clean o -> clean (ensure fresh a o).
Proof.
  intros Ha Hc k Hk. rewrite get_ensure. apply negb_true_iff in Ha.
  destruct (decide (User.login a = k)) as [<-|]; [congruence | now apply Hc].
Qed.

Lemma clean_creditAdditionalOne issue o a :
  ordinaryLogin a = true -> clean o -> clean (creditAdditionalOne fresh record issue o a).
Proof.
  intros Ha Hc. unfold creditAdditionalOne.
  destruct (notPrimary issue (User.login a));
    [apply clean_update|]; now apply clean_ensure.
Qed.

Lemma clean_creditAll issue o :
  forallb (fun a => ordinaryLogin a) (mentions issue) = true ->
  clean o -> clean (creditAll fresh record issue o).
Proof.
  intros H Hc. unfold creditAll. rewrite creditAdditional_foldl.
  assert (Hp : clean (creditPrimary fresh record issue o)).
  { unfold creditPrimary. revert H. unfold mentions.
    destruct (Issue.assignee issue) as [p|]; [|auto].
    cbn [forallb]. intros H. apply andb_true_iff in H. destruct H as [Hp _].
    now apply clean_update, clean_ensure. }
  apply forallb_mentions in H. revert H Hp.
  generalize (creditPrimary fresh record issue o).
  induction (assigneeList issue) as [|a l IH]; intros o' Hl Ho'; [exact Ho'|].
  cbn [forallb] in Hl. apply andb_true_iff in Hl. destruct Hl as [Ha Hl].
  cbn [foldl]. apply IH; [exact Hl|]. now apply clean_creditAdditionalOne.
Qed.

(** A login that is an inherited name: the read finds the built-in, no
    record is made, the increment lands on the built-in and [push] throws. *)
Lemma ensureRun_inherited realm a o :
  ordinaryLogin a = false -> clean o ->
  ensureRun fresh a o realm = (Returned o, realm).
Proof.
  intros Ha Hc. apply negb_false_iff in Ha. unfold ensureRun, JsObject.get.
  now rewrite (Hc _ Ha), Ha.
Qed.

Lemma creditRun_inherited realm issue k o :
  JsObject.isInherited k = true -> clean o ->
  creditRun record counter array issue k o realm
  = (Thrown (JsObject.cannotRead "push"), Realm.assign k counter realm).
Proof.
  intros Hk Hc. unfold creditRun, JsObject.count, JsObject.get.
  now rewrite (Hc _ Hk), Hk.
Qed.

Lemma forEach_additional_inherited realm issue l :
  (forall a, In a l -> ordinaryLogin a = false -> notPrimary issue (User.login a) = true) ->
  forallb (fun a => ordinaryLogin a) l = false ->
  forall o, clean o ->
  exists k,
    JsObject.isInherited k = true /\ In k (map User.login l)
    /\ forEach (additionalOneRun fresh record counter array issue) l o realm
       = (Thrown (JsObject.cannotRead "push"), Realm.assign k counter realm).
Proof.
  induction l as [|a l IH]; intros Hnp Hl o Hc; [discriminate|].
  cbn [forallb] in Hl. cbn [forEach].
  destruct (ordinaryLogin a) eqn:Ha.
  - rewrite (bind_Returned _ _ _ _ _ (additionalOneRun_ordinary realm issue o a Ha)).
    destruct (IH (fun b Hb => Hnp b (or_intror Hb)) Hl
                (creditAdditionalOne fresh record issue o a))
      as (k & Hk & Hin & Hrun).
    { now apply clean_creditAdditionalOne. }
    exists k. split; [exact Hk|]. split; [now right | exact Hrun].
  - exists (User.login a). split; [now apply negb_false_iff in Ha|].
    split; [now left|]. apply bind_Thrown. unfold additionalOneRun.
    rewrite (bind_Returned _ _ _ _ _ (ensureRun_inherited realm a o Ha Hc)).
    rewrite (Hnp a (or_introl eq_refl) Ha).
    apply creditRun_inherited; [now apply negb_false_iff in Ha | exact Hc].
Qed.

Lemma creditAllRun_inherited realm issue o :
  forallb (fun a => ordinaryLogin a) (mentions issue) = false -> clean o ->
  exists k,
    JsObject.isInherited k = true /\ In k (map User.login (mentions issue))
    /\ creditAllRun fresh record counter array issue o realm
       = (Thrown (JsObject.cannotRead "push"), Realm.assign k counter realm).
Proof.
  intros H Hc. unfold creditAllRun.
  unfold mentions in *. unfold primaryRun, notPrimary.
  pose proof (forEach_additional_inherited realm issue (assigneeList issue)) as Hrest.
  unfold notPrimary in Hrest.
  destruct (Issue.assignee issue) as [p|].
  - cbn [forallb] in H. destruct (ordinaryLogin p) eqn:Hop.
    + cbn [andb] in H.
      destruct (Hrest) with (o := JsObject.update (User.login p) (record issue)
                                   (ensure fresh p o))
        as (k & Hk & Hin & Hrun).
      * intros a _ Ha. apply negb_true_iff, bool_decide_eq_false_2.
        apply negb_false_iff in Ha. apply negb_true_iff in Hop. congruence.
      * exact H.
      * now apply clean_update, clean_ensure.
      * exists k. split; [exact Hk|]. split; [now right|].
        erewrite bind_Returned; [rewrite additionalRun_forEach; exact Hrun|].
        rewrite (bind_Returned _ _ _ _ _ (ensureRun_ordinary realm p o Hop)).
        destruct (own_ensure p o) as [v Hv]. now apply creditRun_own with v.
    + exists (User.login p). split; [now apply negb_false_iff in Hop|].
      split; [now left|]. apply bind_Thrown.
      rewrite (bind_Returned _ _ _ _ _ (ensureRun_inherited realm p o Hop Hc)).
      apply creditRun_inherited; [now apply negb_false_iff in Hop | exact Hc].
  - destruct (Hrest (fun _ _ _ => eq_refl) H o Hc) as (k & Hk & Hin & Hrun).
    exists k. split; [exact Hk|]. split; [exact Hin|].
    erewrite bind_Returned; [rewrite additionalRun_forEach; exact Hrun | reflexivity].
Qed.

End RunFacts.

(** ** The leaderboard *)

Lemma hasAssignees_assigned issue : hasAssignees issue = true <-> assigned issue.
Proof.
  unfold hasAssignees, assigned. split.
  - destruct (Issue.assignee issue) as [a|]; [intros _; left; eauto|].
    destruct (Issue.assignees issue) as [[|a l]|]; simpl; try discriminate.
    intros _. right. eauto.
  - intros [[a ->] | (a & l & ->)]; [reflexivity|]. apply orb_true_r.
Qed.

Lemma hasAssignees_false issue : hasAssignees issue = false -> mentions issue = [].
Proof.
  unfold hasAssignees, mentions, assigneeList.
  destruct (Issue.assignee issue); [discriminate|].
  destruct (Issue.assignees issue) as [[|a l]|]; simpl; try reflexivity.
  discriminate.
Qed.

Lemma totalCompleted_foldl issues :
  forall st,
  snd (foldl tallied st issues)
  = snd st + Z.of_nat (length (List.filter hasAssignees issues)).
Proof.
  induction issues as [|issue issues IH]; intros st; simpl; [lia|].
  rewrite IH. unfold tallied.
  destruct (hasAssignees issue); simpl; lia.
Qed.

Lemma iter_recordCompletion issue n :
  forall e,
  UserStats.completedIssues (Nat.iter n (recordCompletion issue) e)
  = UserStats.completedIssues e ++ replicate n (Issue.number issue)
  /\ UserStats.completedCount (Nat.iter n (recordCompletion issue) e)
     = UserStats.completedCount e + Z.of_nat n
  /\ UserStats.username (Nat.iter n (recordCompletion issue) e)
     = UserStats.username e.
Proof.
  induction n as [|n IH]; intros e.
  - simpl. rewrite app_nil_r. repeat split; lia.
  - destruct (IH e) as (Hi & Hc & Hu). rewrite Nat.iter_succ.
    set (x := Nat.iter n (recordCompletion issue) e) in *.
    unfold recordCompletion. cbn [UserStats.completedIssues
      UserStats.completedCount UserStats.username].
    rewrite Hi, Hc, Hu, replicate_S_end, app_assoc. repeat split; lia.
Qed.

Lemma get_tallied st issue u :
  JsObject.own u (fst (tallied st issue))
  = match List.filter (isUser u) (mentions issue) with
    | [] => JsObject.own u (fst st)
    | a :: _ =>
        Some (Nat.iter (creditsOf u issue) (recordCompletion issue)
                (default (newUserStats a) (JsObject.own u (fst st))))
    end.
Proof.
  unfold tallied. destruct (hasAssignees issue) eqn:Hh.
  - apply (get_creditAll newUserStats recordCompletion).
  - now rewrite (hasAssignees_false _ Hh).
Qed.

Lemma filter_isUser_head u a rest l :
  List.filter (isUser u) l = a :: rest -> User.login a = u.
Proof.
  intros H. assert (Hin : In a (List.filter (isUser u) l)) by (rewrite H; now left).
  apply filter_In in Hin. destruct Hin as [_ Ha].
  now apply bool_decide_eq_true in Ha.
Qed.

(** What the loop over the issues leaves in the record of one user. *)
Lemma tally_user u issues :
  forall st,
  (forall e, JsObject.own u (fst st) = Some e -> UserStats.username e = u) ->
  issuesOf (JsObject.own u (fst (foldl tallied st issues)))
  = issuesOf (JsObject.own u (fst st)) ++ history u issues
  /\ countOf (JsObject.own u (fst (foldl tallied st issues)))
     = countOf (JsObject.own u (fst st)) + Z.of_nat (length (history u issues))
  /\ (forall e, JsObject.own u (fst (foldl tallied st issues)) = Some e ->
        UserStats.username e = u).
Proof.
  induction issues as [|issue issues IH]; intros st Hname.
  - simpl. rewrite app_nil_r. repeat split; [lia | exact Hname].
  - cbn [foldl]. unfold history. cbn [flat_map]. fold (history u issues).
    assert (Hstep :
      issuesOf (JsObject.own u (fst (tallied st issue)))
      = issuesOf (JsObject.own u (fst st))
        ++ replicate (creditsOf u issue) (Issue.number issue)
      /\ countOf (JsObject.own u (fst (tallied st issue)))
         = countOf (JsObject.own u (fst st)) + Z.of_nat (creditsOf u issue)
      /\ (forall e, JsObject.own u (fst (tallied st issue)) = Some e ->
            UserStats.username e = u)).
    { rewrite get_tallied.
      destruct (List.filter (isUser u) (mentions issue)) as [|a rest] eqn:Hm.
      - rewrite (creditsOf_unmentioned _ _ Hm). simpl. rewrite app_nil_r.
        repeat split; [lia | exact Hname].
      - apply filter_isUser_head in Hm.
        destruct (iter_recordCompletion issue (creditsOf u issue)
                    (default (newUserStats a) (JsObject.own u (fst st))))
          as (Hi & Hc & Hu).
        cbn [issuesOf countOf]. rewrite Hi, Hc.
        destruct (JsObject.own u (fst st)) as [e|] eqn:He; simpl in *.
        + repeat split. intros e' [= <-]. rewrite Hu. now apply Hname.
        + repeat split. intros e' [= <-]. rewrite Hu. exact Hm. }
    destruct Hstep as (Hi & Hc & Hn).
    destruct (IH (tallied st issue) Hn) as (Hi' & Hc' & Hn').
    rewrite Hi', Hc', Hi, Hc, length_app, length_replicate, <- app_assoc.
    repeat split; [lia | exact Hn'].
Qed.

Lemma history_credited u issues n :
  In n (history u issues) -> In n (map Issue.number issues).
Proof.
  unfold history. rewrite in_flat_map. intros (issue & Hin & Hn).
  apply list_elem_of_In, elem_of_replicate_inv in Hn. subst n.
  now apply in_map.
Qed.

Lemma history_NoDup u issues :
  NoDup (map Issue.number issues) ->
  (forall issue, In issue issues -> (creditsOf u issue <= 1)%nat) ->
  NoDup (history u issues).
Proof.
  induction issues as [|issue issues IH]; intros Hnd Hone; [constructor|].
  cbn [map] in Hnd. apply NoDup_cons in Hnd. destruct Hnd as [Hfresh Hnd].
  unfold history. cbn [flat_map]. fold (history u issues).
  assert (Hrest : NoDup (history u issues)).
  { apply IH; [exact Hnd|]. intros i Hi. apply Hone. now right. }
  assert (Hc : (creditsOf u issue <= 1)%nat) by (apply Hone; now left).
  destruct (creditsOf u issue) as [|[|c]]; [exact Hrest | | lia].
  simpl. apply NoDup_cons. split; [|exact Hrest].
  intros Hin. apply Hfresh, list_elem_of_In.
  apply history_credited with u. now apply list_elem_of_In.
Qed.

Lemma filter_isUser_NoDup u l :
  NoDup (map User.login l) -> (length (List.filter (isUser u) l) <= 1)%nat.
Proof.
  induction l as [|a l IH]; intros Hnd; simpl; [lia|].
  apply NoDup_cons in Hnd. destruct Hnd as [Hfresh Hnd].
  destruct (isUser u a) eqn:Ha; [|now apply IH].
  apply bool_decide_eq_true in Ha.
  destruct (List.filter (isUser u) l) as [|b rest] eqn:Hb; [simpl; lia|].
  exfalso. apply Hfresh. rewrite Ha, <- (filter_isUser_head _ _ _ _ Hb).
  apply list_elem_of_In, in_map.
  assert (Hin : In b (List.filter (isUser u) l)) by (rewrite Hb; now left).
  now apply filter_In in Hin.
Qed.

Lemma creditsOf_once u issue :
  NoDup (map User.login (assigneeList issue)) -> (creditsOf u issue <= 1)%nat.
Proof.
  intros Hnd. unfold creditsOf.
  destruct (Issue.assignee issue) as [p|];
    [destruct (isUser u p); [lia|]|]; now apply filter_isUser_NoDup.
Qed.

(** The record a leaderboard entry comes from. *)
Lemma leaderboard_entry now closedIssues e :
  In e (Leaderboard.leaderboard (leaderboardOf now closedIssues)) ->
  UserStats.completedIssues e = history (UserStats.username e) closedIssues
  /\ UserStats.completedCount e
     = Z.of_nat (length (history (UserStats.username e) closedIssues)).
Proof.
  unfold leaderboardOf, leaderboardFrom. cbn [Leaderboard.leaderboard].
  rewrite in_map_iff. intros (e0 & <- & Hin).
  apply sort_In, values_In in Hin. destruct Hin as (u & Hu).
  destruct (tally_user u closedIssues (JsObject.empty, 0)) as (Hi & Hc & Hn).
  { intros e'. cbn [fst]. now rewrite get_empty. }
  cbn [fst] in *. rewrite get_empty, Hu in *. cbn [issuesOf countOf] in *.
  cbn [withSearchUrl UserStats.completedIssues UserStats.completedCount
       UserStats.username].
  rewrite (Hn e0 eq_refl). split; [exact Hi | lia].
Qed.

(** The counts and the issue lists of the records: the count is the length
    of the list, and the list has no repetition when the issues have
    distinct numbers and list no login twice. *)
Lemma leaderboardOf_entries (now : Date) (closedIssues : list Issue.t)
    (e : UserStats.t) :
  In e (Leaderboard.leaderboard (leaderboardOf now closedIssues)) ->
  UserStats.completedCount e = Z.of_nat (length (UserStats.completedIssues e))
  /\ (NoDup (map Issue.number closedIssues) ->
      (forall issue, In issue closedIssues ->
         NoDup (map User.login (assigneeList issue))) ->
      NoDup (UserStats.completedIssues e)).
Proof.
  intros Hin. destruct (leaderboard_entry _ _ _ Hin) as [Hi Hc].
  split; [now rewrite Hc, Hi|].
  intros Hnd Hlogins. rewrite Hi. apply history_NoDup; [exact Hnd|].
  intros issue Hissue. now apply creditsOf_once, Hlogins.
Qed.

(** ** The leaderboard as it runs *)

Lemma tallyIssue_creditAllRun st issue realm :
  hasAssignees issue = true ->
  tallyIssue st issue realm
  = match creditAllRun newUserStats recordCompletion "completedCount" "completedIssues"
            issue (fst st) realm with
    | (Returned userStats, realm') => (Returned (userStats, snd st + 1), realm')
    | (Thrown message, realm') => (Thrown message, realm')
    end.
Proof.
  intros Hh. unfold tallyIssue. rewrite Hh. unfold creditAllRun, bind.
  change (countPrimary issue (fst st))
    with (primaryRun newUserStats recordCompletion "completedCount" "completedIssues"
            issue (fst st)).
  destruct (primaryRun _ _ _ _ issue (fst st) realm) as [[userStats|message] realm'];
    [|reflexivity].
  change (countAdditional issue userStats)
    with (additionalRun newUserStats recordCompletion "completedCount" "completedIssues"
            issue userStats).
  now destruct (additionalRun _ _ _ _ issue userStats realm') as [[?|?] ?].
Qed.

Lemma unassigned_ordinary issue :
  hasAssignees issue = false ->
  forallb (fun a => ordinaryLogin a) (mentions issue) = true.
Proof. intros Hh. now rewrite (hasAssignees_false _ Hh). Qed.

Lemma tallyIssue_ordinary realm st issue :
  forallb (fun a => ordinaryLogin a) (mentions issue) = true ->
  tallyIssue st issue realm = (Returned (tallied st issue), realm).
Proof.
  intros H. destruct (hasAssignees issue) eqn:Hh.
  - rewrite (tallyIssue_creditAllRun _ _ _ Hh), creditAllRun_ordinary by exact H.
    unfold tallied. now rewrite Hh.
  - unfold tallyIssue, tallied. now rewrite Hh.
Qed.

Lemma tallyIssue_inherited realm st issue :
  forallb (fun a => ordinaryLogin a) (mentions issue) = false -> clean (fst st) ->
  exists k,
    JsObject.isInherited k = true /\ In k (map User.login (mentions issue))
    /\ tallyIssue st issue realm
       = (Thrown (JsObject.cannotRead "push"), Realm.assign k "completedCount" realm).
Proof.
  intros H Hc. destruct (hasAssignees issue) eqn:Hh.
  - destruct (creditAllRun_inherited newUserStats recordCompletion
                "completedCount" "completedIssues" realm issue (fst st) H Hc)
      as (k & Hk & Hin & Hrun).
    exists k. split; [exact Hk|]. split; [exact Hin|].
    now rewrite (tallyIssue_creditAllRun _ _ _ Hh), Hrun.
  - rewrite (unassigned_ordinary _ Hh) in H. discriminate.
Qed.

Lemma clean_tallied st issue :
  forallb (fun a => ordinaryLogin a) (mentions issue) = true ->
  clean (fst st) -> clean (fst (tallied st issue)).
Proof.
  intros H Hc. unfold tallied. destruct (hasAssignees issue); [|exact Hc].
  now apply clean_creditAll.
Qed.

Lemma forEach_tallyIssue_ordinary realm issues :
  ordinaryAssignees issues = true ->
  forall st,
  forEach tallyIssue issues st realm = (Returned (foldl tallied st issues), realm).
Proof.
  unfold ordinaryAssignees.
  induction issues as [|issue issues IH]; intros H st; [reflexivity|].
  cbn [forallb] in H. apply andb_true_iff in H. destruct H as [Hi H].
  cbn [forEach foldl].
  rewrite (bind_Returned _ _ _ _ _ (tallyIssue_ordinary realm st issue Hi)).
  now apply IH.
Qed.

Lemma forEach_tallyIssue_inherited realm issues :
  ordinaryAssignees issues = false ->
  forall st, clean (fst st) ->
  exists k issue,
    JsObject.isInherited k = true
    /\ In issue issues /\ In k (map User.login (mentions issue))
    /\ forEach tallyIssue issues st realm
       = (Thrown (JsObject.cannotRead "push"), Realm.assign k "completedCount" realm).
Proof.
  unfold ordinaryAssignees.
  induction issues as [|issue issues IH]; intros H st Hc; [discriminate|].
  cbn [forallb] in H. cbn [forEach].
  destruct (forallb (fun a => ordinaryLogin a) (mentions issue)) eqn:Hi.
  - rewrite (bind_Returned _ _ _ _ _ (tallyIssue_ordinary realm st issue Hi)).
    destruct (IH H (tallied st issue)) as (k & i & Hk & Hin & Hm & Hrun).
    { now apply clean_tallied. }
    exists k, i. split; [exact Hk|]. split; [now right|]. now split.
  - destruct (tallyIssue_inherited realm st issue Hi Hc) as (k & Hk & Hm & Hrun).
    exists k, issue. split; [exact Hk|]. split; [now left|]. split; [exact Hm|].
    now apply bind_Thrown.
Qed.

Lemma calculateLeaderboard_ordinary now closedIssues realm :
  ordinaryAssignees closedIssues = true ->
  calculateLeaderboard now closedIssues realm
  = (Returned (leaderboardOf now closedIssues), realm).
Proof.
  intros H. unfold calculateLeaderboard.
  now rewrite (bind_Returned _ _ _ _ _
                 (forEach_tallyIssue_ordinary realm closedIssues H _)).
Qed.

Lemma calculateLeaderboard_inherited now closedIssues realm :
  ordinaryAssignees closedIssues = false ->
  exists k issue,
    JsObject.isInherited k = true
    /\ In issue closedIssues /\ In k (map User.login (mentions issue))
    /\ calculateLeaderboard now closedIssues realm
       = (Thrown (JsObject.cannotRead "push"), Realm.assign k "completedCount" realm).
Proof.
  intros H.
  destruct (forEach_tallyIssue_inherited realm closedIssues H (JsObject.empty, 0))
    as (k & issue & Hk & Hin & Hm & Hrun); [apply clean_empty|].
  exists k, issue. split; [exact Hk|]. split; [exact Hin|]. split; [exact Hm|].
  unfold calculateLeaderboard. now apply bind_Thrown.
Qed.

(** A leaderboard that is returned is the one [leaderboardOf] describes. *)
Lemma calculateLeaderboard_Returned now closedIssues realm board realm' :
  calculateLeaderboard now closedIssues realm = (Returned board, realm') ->
  ordinaryAssignees closedIssues = true
  /\ board = leaderboardOf now closedIssues /\ realm' = realm.
Proof.
  intros Hrun. destruct (ordinaryAssignees closedIssues) eqn:H.
  - rewrite (calculateLeaderboard_ordinary _ _ _ H) in Hrun.
    injection Hrun as <- <-. auto.
  - destruct (calculateLeaderboard_inherited now closedIssues realm H)
      as (k & issue & _ & _ & _ & Hthrown).
    rewrite Hthrown in Hrun. discriminate.
Qed.

(** C2 (as the code has it). [calculateLeaderboard] returns a leaderboard
    whenever no assignee has a login that is a property name plain objects
    inherit. Every entry of a leaderboard it returns has a [completedCount]
    equal to the length of its [completedIssues]; and when the closed issues
    have pairwise distinct numbers and none of them lists a login twice in
    [assignees], no issue number occurs twice in the [completedIssues] of an
    entry. *)
Theorem calculateLeaderboard_entries (now : Date) (closedIssues : list Issue.t)
    (realm : Realm.t) :
  (ordinaryAssignees closedIssues = true ->
   exists board, calculateLeaderboard now closedIssues realm = (Returned board, realm))
  /\ forall board realm' e,
       calculateLeaderboard now closedIssues realm = (Returned board, realm') ->
       In e (Leaderboard.leaderboard board) ->
       UserStats.completedCount e = Z.of_nat (length (UserStats.completedIssues e))
       /\ (NoDup (map Issue.number closedIssues) ->
           (forall issue, In issue closedIssues ->
              NoDup (map User.login (assigneeList issue))) ->
           NoDup (UserStats.completedIssues e)).
Proof.
  split.
  - intros H. exists (leaderboardOf now closedIssues).
    now apply calculateLeaderboard_ordinary.
  - intros board realm' e Hrun.
    apply calculateLeaderboard_Returned in Hrun. destruct Hrun as (_ & -> & _).
    apply leaderboardOf_entries.
Qed.

(** C2, an instance: alice reviewed issue 1 together with bob, and issue 2
    alone. *)
Lemma calculateLeaderboard_entries_witness :
  exists board,
    calculateLeaderboard 0 Examples.twoReviews Realm.pristine
    = (Returned board, Realm.pristine)
    /\ forall e, In e (Leaderboard.leaderboard board) ->
         UserStats.completedCount e = Z.of_nat (length (UserStats.completedIssues e))
         /\ NoDup (UserStats.completedIssues e).
Proof.
  destruct (calculateLeaderboard_entries 0 Examples.twoReviews Realm.pristine)
    as [Hreturns Hentries].
  destruct (Hreturns eq_refl) as [board Hrun].
  exists board. split; [exact Hrun|]. intros e He.
  destruct (Hentries board Realm.pristine e Hrun He) as [Hc Hnd].
  split; [exact Hc|]. apply Hnd.
  - apply NoDup_ListNoDup. repeat constructor; simpl; intuition congruence.
  - intros issue [<- | [<- | []]]; apply NoDup_ListNoDup;
      repeat constructor; simpl; intuition congruence.
Defined.

(** C2 as stated fails on a list that holds the same closed issue twice:
    its number is then recorded twice for its assignee. It also fails on an
    issue that lists a login twice in [assignees]: its number is recorded
    once for each place. *)
Lemma calculateLeaderboard_counterexample :
  (exists board e,
     calculateLeaderboard 0 Examples.deliveredTwice Realm.pristine
     = (Returned board, Realm.pristine)
     /\ In e (Leaderboard.leaderboard board)
     /\ UserStats.username e = "alice"
     /\ UserStats.completedIssues e = [7; 7]
     /\ ~ NoDup (UserStats.completedIssues e))
  /\ (exists board e,
        calculateLeaderboard 0 Examples.listedTwice Realm.pristine
        = (Returned board, Realm.pristine)
        /\ In e (Leaderboard.leaderboard board)
        /\ UserStats.username e = "alice"
        /\ UserStats.completedIssues e = [9; 9]
        /\ ~ NoDup (UserStats.completedIssues e)).
Proof.
  split.
  - exists (leaderboardOf 0 Examples.deliveredTwice).
    exists (withSearchUrl
              (UserStats.mk "alice" EmptyString EmptyString 2 (Some 7) [7; 7] None)).
    split; [now apply calculateLeaderboard_ordinary|].
    split; [vm_compute; left; reflexivity|].
    split; [reflexivity|]. split; [reflexivity|].
    simpl. rewrite NoDup_cons. intros [H _]. apply H. now left.
  - exists (leaderboardOf 0 Examples.listedTwice).
    exists (withSearchUrl
              (UserStats.mk "alice" EmptyString EmptyString 2 (Some 9) [9; 9] None)).
    split; [now apply calculateLeaderboard_ordinary|].
    split; [vm_compute; left; reflexivity|].
    split; [reflexivity|]. split; [reflexivity|].
    simpl. rewrite NoDup_cons. intros [H _]. apply H. now left.
Qed.

(** The total counts the issues that have an assignee, each once. *)
Lemma leaderboardOf_totalCompleted (now : Date) (closedIssues : list Issue.t) :
  Leaderboard.totalCompleted (leaderboardOf now closedIssues)
  = Z.of_nat (length (List.filter hasAssignees closedIssues))
  /\ forall issue, hasAssignees issue = true <-> assigned issue.
Proof.
  split; [|apply hasAssignees_assigned].
  unfold leaderboardOf, leaderboardFrom. cbn [Leaderboard.totalCompleted].
  now rewrite totalCompleted_foldl.
Qed.

(** C4. [calculateLeaderboard] returns a leaderboard whenever no assignee
    has a login that is a property name plain objects inherit, and the
    [totalCompleted] it returns is the number of issues of the input that
    have an assignee (the [assignee] field is set or [assignees] is not
    empty), each counted once however many assignees it has. *)
Theorem calculateLeaderboard_totalCompleted (now : Date) (closedIssues : list Issue.t)
    (realm : Realm.t) :
  (ordinaryAssignees closedIssues = true ->
   exists board, calculateLeaderboard now closedIssues realm = (Returned board, realm))
  /\ (forall board realm',
        calculateLeaderboard now closedIssues realm = (Returned board, realm') ->
        Leaderboard.totalCompleted board
        = Z.of_nat (length (List.filter hasAssignees closedIssues)))
  /\ forall issue, hasAssignees issue = true <-> assigned issue.
Proof.
  split; [|split].
  - intros H. exists (leaderboardOf now closedIssues).
    now apply calculateLeaderboard_ordinary.
  - intros board realm' Hrun.
    apply calculateLeaderboard_Returned in Hrun. destruct Hrun as (_ & -> & _).
    apply leaderboardOf_totalCompleted.
  - apply hasAssignees_assigned.
Qed.

(** C4, an instance: two closed issues with assignees, one of them with
    two, and a third closed issue without any. *)
Lemma calculateLeaderboard_totalCompleted_witness :
  exists board,
    calculateLeaderboard 0
      (Examples.twoReviews ++ [Examples.closedIssue 3 Examples.author []])
      Realm.pristine
    = (Returned board, Realm.pristine)
    /\ Leaderboard.totalCompleted board = 2.
Proof.
  destruct (calculateLeaderboard_totalCompleted 0
              (Examples.twoReviews ++ [Examples.closedIssue 3 Examples.author []])
              Realm.pristine) as (Hreturns & Htotal & _).
  destruct (Hreturns eq_refl) as [board Hrun].
  exists board. split; [exact Hrun|]. now rewrite (Htotal board _ Hrun).
Defined.

(** ** Division of numbers *)

Lemma nearestEven_bound n d :
  0 <= n -> 0 < d -> 2 * Z.abs (Double.nearestEven n d * d - n) <= d.
Proof.
  intros Hn Hd. unfold Double.nearestEven.
  pose proof (Z.div_mod n d ltac:(lia)) as Hdm.
  pose proof (Z.mod_pos_bound n d Hd) as Hr.
  destruct (Z.compare_spec (2 * (n mod d)) d) as [Heq | Hlt | Hgt]; [|lia|lia].
  destruct (Z.even (n / d)); lia.
Qed.

Lemma nearestEven_exact n d :
  0 < d -> (d | n) -> Double.nearestEven n d = n / d.
Proof.
  intros Hd Hdiv. unfold Double.nearestEven.
  apply Z.mod_divide in Hdiv; [|lia]. rewrite Hdiv.
  destruct (Z.compare_spec (2 * 0) d); lia.
Qed.

Lemma scaled_down a b e : e <= 0 -> Double.scaled a b e = (a * 2 ^ (- e), b).
Proof. intros He. unfold Double.scaled. now rewrite (proj2 (Z.leb_le e 0) He). Qed.

Lemma scaled_up a b e : 0 < e -> Double.scaled a b e = (a, b * 2 ^ e).
Proof. intros He. unfold Double.scaled. now rewrite (proj2 (Z.leb_gt e 0) He). Qed.

(** The scaled quotient has 53 bits. *)
Lemma scaled_range a b :
  0 < a -> 0 < b ->
  let s := Double.scaled a b (Double.exponent a b) in
  0 < snd s /\ snd s * 2 ^ 52 <= fst s < snd s * 2 ^ 53.
Proof.
  intros Ha Hb. unfold Double.exponent.
  pose proof (Z.log2_spec a Ha) as [Ha1 Ha2].
  pose proof (Z.log2_spec b Hb) as [Hb1 Hb2].
  pose proof (Z.log2_nonneg a) as Hla. pose proof (Z.log2_nonneg b) as Hlb.
  set (la := Z.log2 a) in *. set (lb := Z.log2 b) in *.
  rewrite Z.pow_succ_r in Ha2, Hb2 by lia.
  set (e := la - lb - 53).
  destruct (Z.leb_spec e 0) as [He | He].
  - (* the quotient is scaled up *)
    rewrite (scaled_down a b e He).
    assert (Hpow : 2 ^ la * 2 ^ (- e) = 2 ^ lb * 2 ^ 53).
    { rewrite <- !Z.pow_add_r by lia. f_equal. lia. }
    assert (Hs : 0 < 2 ^ (- e)) by (apply Z.pow_pos_nonneg; lia).
    destruct (Z.ltb_spec (a * 2 ^ (- e)) (b * 2 ^ 53)) as [Hlt | Hge].
    + rewrite (scaled_down a b e He). cbn [fst snd].
      split; [lia|]. split; [nia | exact Hlt].
    + destruct (Z.leb_spec (e + 1) 0) as [He1 | He1].
      * rewrite (scaled_down a b _ He1). cbn [fst snd].
        assert (Hhalf : 2 ^ (- e) = 2 * 2 ^ (- (e + 1))).
        { rewrite <- Z.pow_succ_r by lia. f_equal. lia. }
        split; [lia|]. split; nia.
      * rewrite (scaled_up a b _ He1). cbn [fst snd].
        assert (e = 0) by lia. subst e. replace (la - lb - 53) with 0 in * by lia.
        change (- 0) with 0 in *. change (0 + 1) with 1.
        rewrite Z.pow_0_r, Z.pow_1_r in *.
        split; [lia|]. split; nia.
  - rewrite (scaled_up a b e He).
    assert (Hpow : 2 ^ la = 2 ^ lb * 2 ^ e * 2 ^ 53).
    { rewrite <- !Z.pow_add_r by lia. f_equal. lia. }
    assert (Hs : 0 < 2 ^ e) by (apply Z.pow_pos_nonneg; lia).
    destruct (Z.ltb_spec a (b * 2 ^ e * 2 ^ 53)) as [Hlt | Hge].
    + rewrite (scaled_up a b e He). cbn [fst snd].
      split; [nia|]. split; [nia | exact Hlt].
    + rewrite (scaled_up a b (e + 1)) by lia. cbn [fst snd].
      rewrite Z.pow_add_r, Z.pow_1_r by lia.
      split; [nia|]. split; nia.
Qed.

Lemma quotient_eq a b :
  Double.quotient a b
  = Double.ldexp
      (Double.nearestEven
         (fst (Double.scaled (Zpos a) (Zpos b) (Double.exponent (Zpos a) (Zpos b))))
         (snd (Double.scaled (Zpos a) (Zpos b) (Double.exponent (Zpos a) (Zpos b)))))
      (Double.exponent (Zpos a) (Zpos b)).
Proof.
  unfold Double.quotient. now destruct (Double.scaled _ _ _).
Qed.

(** A quotient that is an integer below 2^53 is exact. *)
Lemma div_exact (k : Z) (b : positive) :
  0 < k < 2 ^ 53 -> (Double.div (k * Zpos b) b == inject_Z k)%Q.
Proof.
  intros Hk. assert (Ha : 0 < k * Zpos b) by lia.
  destruct (k * Zpos b) as [|a|a] eqn:Heq; try lia. cbn [Double.div].
  rewrite quotient_eq.
  pose proof (scaled_range (Zpos a) (Zpos b) ltac:(lia) ltac:(lia)) as Hr.
  cbv zeta in Hr. set (e := Double.exponent (Zpos a) (Zpos b)) in *.
  destruct (Z.leb_spec e 0) as [He | He].
  - rewrite (scaled_down _ _ _ He) in *. cbn [fst snd] in *.
    assert (Hs : 0 < 2 ^ (- e)) by (apply Z.pow_pos_nonneg; lia).
    rewrite nearestEven_exact; [|lia|].
    2:{ exists (k * 2 ^ (- e)). rewrite <- Heq. ring. }
    rewrite <- Heq. replace (k * Zpos b * 2 ^ (- e)) with (k * 2 ^ (- e) * Zpos b) by ring.
    rewrite Z.div_mul by lia.
    unfold Double.ldexp. rewrite (proj2 (Z.leb_le e 0) He).
    unfold Qeq. cbn [Qnum Qden inject_Z]. rewrite Z2Pos.id by lia. ring.
  - exfalso. rewrite (scaled_up _ _ _ He) in Hr. cbn [fst snd] in Hr.
    assert (Hs : 2 <= 2 ^ e).
    { change 2 with (2 ^ 1) at 1. apply Z.pow_le_mono_r; lia. }
    rewrite <- Heq in Hr. nia.
Qed.

(** In general the double is within half a unit in the last place of the
    quotient: the relative error is at most 2^-53. *)
Lemma div_error (a b : positive) :
  (Qabs (Double.div (Zpos a) b - (Zpos a # b)) <= (Zpos a # b) * (1 # 2 ^ 53))%Q.
Proof.
  cbn [Double.div]. rewrite quotient_eq.
  pose proof (scaled_range (Zpos a) (Zpos b) ltac:(lia) ltac:(lia)) as Hr.
  cbv zeta in Hr. set (e := Double.exponent (Zpos a) (Zpos b)) in *.
  set (n := fst (Double.scaled (Zpos a) (Zpos b) e)) in *.
  set (d := snd (Double.scaled (Zpos a) (Zpos b) e)) in *.
  pose proof (nearestEven_bound n d ltac:(nia) ltac:(lia)) as Hm.
  set (m := Double.nearestEven n d) in *.
  apply Qabs_Qle_condition.
  unfold Double.ldexp. destruct (Z.leb_spec e 0) as [He | He].
  - assert (Hs : 0 < 2 ^ (- e)) by (apply Z.pow_pos_nonneg; lia).
    assert (Hn : n = Zpos a * 2 ^ (- e)) by (unfold n; now rewrite scaled_down).
    assert (Hd : d = Zpos b) by (unfold d; now rewrite scaled_down).
    unfold Qle, Qminus, Qplus, Qopp, Qmult. cbn [Qnum Qden].
    rewrite !Pos2Z.inj_mul, Z2Pos.id by lia.
    set (s := 2 ^ (- e)) in *. subst n d.
    split; nia.
  - assert (Hs : 0 < 2 ^ e) by (apply Z.pow_pos_nonneg; lia).
    assert (Hn : n = Zpos a) by (unfold n; now rewrite scaled_up).
    assert (Hd : d = Zpos b * 2 ^ e) by (unfold d; now rewrite scaled_up).
    unfold Qle, Qminus, Qplus, Qopp, Qmult, inject_Z. cbn [Qnum Qden].
    rewrite !Pos2Z.inj_mul.
    set (s := 2 ^ e) in *. subst n d.
    split; nia.
Qed.

(** [Double.div] against the division of [SpecFloat] on the samples. *)
Example div_agrees_with_SFdiv :
  forallb
    (fun '(a, b) => Qeq_bool (Double.div a b) (denoted (SFdiv64 a (Zpos b))))
    samples
  = true.
Proof. vm_compute. reflexivity. Qed.

(** The ratio of a record with a received check, against the quotient of
    its two counts. *)
Lemma ratio_spec (s : BuddyStats.t) :
  0 < BuddyStats.receivedChecks s ->
  let exact :=
    (inject_Z (BuddyStats.receivedChecks s)
     / inject_Z (Z.max (BuddyStats.conductedChecks s) 1))%Q in
  (Qabs (BuddyEntry.ratio (toBuddyEntry s) - exact) <= exact * (1 # 2 ^ 53))%Q
  /\ ((Z.max (BuddyStats.conductedChecks s) 1 | BuddyStats.receivedChecks s) ->
      BuddyStats.receivedChecks s < 2 ^ 53 ->
      (BuddyEntry.ratio (toBuddyEntry s) == exact)%Q).
Proof.
  intros Hpos exact. subst exact. cbn [toBuddyEntry BuddyEntry.ratio].
  set (r := BuddyStats.receivedChecks s) in *.
  set (c := Z.max (BuddyStats.conductedChecks s) 1).
  assert (Hc : 0 < c) by (unfold c; lia).
  assert (Hq : (inject_Z r / inject_Z c == r # Z.to_pos c)%Q).
  { rewrite <- (Z2Pos.id c Hc) at 1. symmetry. apply Qmake_Qdiv. }
  split.
  - rewrite Hq. destruct r as [|a|a]; try lia. apply div_error.
  - intros [k Hk] Hsmall. rewrite Hq.
    assert (Hk' : 0 < k < 2 ^ 53) by nia.
    rewrite Hk. rewrite <- (Z2Pos.id c Hc) at 1.
    rewrite (div_exact k (Z.to_pos c) Hk').
    unfold Qeq. cbn [Qnum Qden inject_Z]. rewrite Z2Pos.id by lia. ring.
Qed.

(** ** The buddy report *)

Lemma get_authorCredited o issue u :
  JsObject.own u (authorCredited o issue)
  = if decide (User.login (Issue.user issue) = u)
    then Some (recordReceived issue
                 (default (newBuddyStats (Issue.user issue)) (JsObject.own u o)))
    else JsObject.own u o.
Proof.
  unfold authorCredited.
  rewrite get_update, get_ensure.
  now destruct (decide (User.login (Issue.user issue) = u)).
Qed.

Lemma get_assigneesCredited o issue u :
  JsObject.own u (assigneesCredited o issue)
  = if Js.strictEq (Issue.state issue) "closed"
    then match List.filter (isUser u) (mentions issue) with
         | [] => JsObject.own u o
         | a :: _ =>
             Some (Nat.iter (creditsOf u issue) (recordConducted issue)
                     (default (newBuddyStats a) (JsObject.own u o)))
         end
    else JsObject.own u o.
Proof.
  unfold assigneesCredited.
  destruct (Js.strictEq (Issue.state issue) "closed"); [|reflexivity].
  destruct (hasAssignees issue) eqn:Hh; simpl.
  - apply (get_creditAll newBuddyStats recordConducted).
  - now rewrite (hasAssignees_false _ Hh).
Qed.

Lemma iter_recordConducted issue n :
  forall s,
  BuddyStats.conductedChecks (Nat.iter n (recordConducted issue) s)
  = BuddyStats.conductedChecks s + Z.of_nat n
  /\ BuddyStats.receivedChecks (Nat.iter n (recordConducted issue) s)
     = BuddyStats.receivedChecks s
  /\ BuddyStats.username (Nat.iter n (recordConducted issue) s)
     = BuddyStats.username s.
Proof.
  induction n as [|n IH]; intros s.
  - simpl. repeat split; lia.
  - destruct (IH s) as (Hc & Hr & Hu). rewrite Nat.iter_succ.
    set (x := Nat.iter n (recordConducted issue) s) in *.
    unfold recordConducted. cbn [BuddyStats.conductedChecks
      BuddyStats.receivedChecks BuddyStats.username].
    rewrite Hc, Hr, Hu. repeat split; lia.
Qed.

(** The first pass, seen from one user. *)
Lemma received_user u issues :
  forall o,
  (forall s, JsObject.own u o = Some s -> BuddyStats.username s = u) ->
  receivedOf (JsObject.own u (foldl authorCredited o issues))
  = receivedOf (JsObject.own u o) + Z.of_nat (authored u issues)
  /\ conductedOf (JsObject.own u (foldl authorCredited o issues))
     = conductedOf (JsObject.own u o)
  /\ (forall s, JsObject.own u (foldl authorCredited o issues) = Some s ->
        BuddyStats.username s = u).
Proof.
  induction issues as [|issue issues IH]; intros o Hname.
  - unfold authored. simpl. repeat split; [lia | exact Hname].
  - cbn [foldl]. unfold authored. cbn [List.filter]. fold (authored u issues).
    pose proof (get_authorCredited o issue u) as Hstep.
    destruct (decide (User.login (Issue.user issue) = u)) as [Heq|Hne].
    + rewrite (isUser_eq _ _ Heq).
      destruct (IH (authorCredited o issue)) as (Hr & Hc & Hn).
      { intros s. rewrite Hstep. intros [= <-].
        destruct (JsObject.own u o) as [s0|] eqn:Hs0; simpl; auto. }
      rewrite Hr, Hc, Hstep. split; [|split; [|exact Hn]].
      * unfold authored. rewrite length_cons, Nat2Z.inj_succ.
        destruct (JsObject.own u o); simpl receivedOf; lia.
      * now destruct (JsObject.own u o).
    + rewrite (isUser_ne _ _ Hne).
      destruct (IH (authorCredited o issue)) as (Hr & Hc & Hn).
      { intros s. rewrite Hstep. apply Hname. }
      rewrite Hr, Hc, Hstep. auto.
Qed.

(** The second pass, seen from one user. *)
Lemma conducted_user u issues :
  forall o,
  (forall s, JsObject.own u o = Some s -> BuddyStats.username s = u) ->
  receivedOf (JsObject.own u (foldl assigneesCredited o issues))
  = receivedOf (JsObject.own u o)
  /\ conductedOf (JsObject.own u (foldl assigneesCredited o issues))
     = conductedOf (JsObject.own u o) + Z.of_nat (conducted u issues)
  /\ (forall s, JsObject.own u (foldl assigneesCredited o issues) = Some s ->
        BuddyStats.username s = u).
Proof.
  induction issues as [|issue issues IH]; intros o Hname.
  - unfold conducted. simpl. repeat split; [lia | exact Hname].
  - cbn [foldl]. unfold conducted. cbn [sum_list_with]. fold (conducted u issues).
    assert (Hstep :
      receivedOf (JsObject.own u (assigneesCredited o issue))
      = receivedOf (JsObject.own u o)
      /\ conductedOf (JsObject.own u (assigneesCredited o issue))
         = conductedOf (JsObject.own u o)
           + Z.of_nat (if Js.strictEq (Issue.state issue) "closed"
                       then creditsOf u issue else 0%nat)
      /\ (forall s, JsObject.own u (assigneesCredited o issue) = Some s ->
            BuddyStats.username s = u)).
    { rewrite get_assigneesCredited.
      destruct (Js.strictEq (Issue.state issue) "closed");
        [|repeat split; [lia | exact Hname]].
      destruct (List.filter (isUser u) (mentions issue)) as [|a rest] eqn:Hm.
      - rewrite (creditsOf_unmentioned _ _ Hm). repeat split; [lia | exact Hname].
      - apply filter_isUser_head in Hm.
        destruct (iter_recordConducted issue (creditsOf u issue)
                    (default (newBuddyStats a) (JsObject.own u o)))
          as (Hc & Hr & Hu).
        cbn [receivedOf conductedOf]. rewrite Hc, Hr.
        destruct (JsObject.own u o) as [s0|] eqn:Hs0; simpl in *.
        + repeat split. intros s [= <-]. rewrite Hu. now apply Hname.
        + repeat split. intros s [= <-]. rewrite Hu. exact Hm. }
    destruct Hstep as (Hr & Hc & Hn).
    destruct (IH (assigneesCredited o issue) Hn) as (Hr' & Hc' & Hn').
    rewrite Hr', Hc', Hr, Hc. repeat split; [lia | exact Hn'].
Qed.

(** What the two passes leave for a user. *)
Lemma buddyUserStats_user u allIssues :
  receivedOf (JsObject.own u (buddyUserStats allIssues))
  = Z.of_nat (authored u allIssues)
  /\ conductedOf (JsObject.own u (buddyUserStats allIssues))
     = Z.of_nat (conducted u allIssues)
  /\ (forall s, JsObject.own u (buddyUserStats allIssues) = Some s ->
        BuddyStats.username s = u).
Proof.
  unfold buddyUserStats.
  destruct (received_user u allIssues JsObject.empty) as (Hr & Hc & Hn).
  { intros s. now rewrite get_empty. }
  destruct (conducted_user u allIssues _ Hn) as (Hr' & Hc' & Hn').
  rewrite Hr', Hc', Hr, Hc, get_empty. cbn [receivedOf conductedOf].
  split; [lia|]. split; [lia | exact Hn'].
Qed.

Lemma buddyUserStats_covered allIssues : covered (buddyUserStats allIssues).
Proof.
  unfold buddyUserStats.
  assert (H1 : covered (foldl authorCredited (@JsObject.empty BuddyStats.t) allIssues)).
  { generalize (@covered_empty BuddyStats.t).
    generalize (@JsObject.empty BuddyStats.t).
    induction allIssues as [|issue issues IH]; intros o Ho; [exact Ho|].
    cbn [foldl]. apply IH. unfold authorCredited.
    apply covered_update. now apply (covered_ensure newBuddyStats). }
  revert H1. generalize (foldl authorCredited (@JsObject.empty BuddyStats.t) allIssues).
  induction allIssues as [|issue issues IH]; intros o Ho; [exact Ho|].
  cbn [foldl]. apply IH. unfold assigneesCredited.
  destruct (_ && _); [|exact Ho].
  now apply (covered_creditAll newBuddyStats recordConducted).
Qed.

(** The entries of the report are the users with a received check. *)
Lemma allRecipients_In now allIssues e :
  In e (BuddyReport.allRecipients (buddyReportOf now allIssues))
  <-> exists s,
        e = toBuddyEntry s
        /\ JsObject.own (BuddyStats.username s) (buddyUserStats allIssues) = Some s
        /\ 0 < BuddyStats.receivedChecks s.
Proof.
  unfold buddyReportOf, buddyReportFrom. cbn [BuddyReport.allRecipients].
  rewrite sort_In, in_map_iff. split.
  - intros (s & <- & Hs). apply filter_In in Hs. destruct Hs as [Hs Hpos].
    apply values_In in Hs. destruct Hs as (u & Hu).
    exists s. split; [reflexivity|]. split; [|lia].
    destruct (buddyUserStats_user u allIssues) as (_ & _ & Hn).
    now rewrite (Hn s Hu).
  - intros (s & -> & Hs & Hpos). exists s. split; [reflexivity|].
    apply filter_In. split; [|lia].
    eapply values_covered; [apply buddyUserStats_covered | exact Hs].
Qed.

(** The entry of a user who opened at least one issue. *)
Lemma allRecipients_user now allIssues u :
  (0 < authored u allIssues)%nat ->
  exists e,
    In e (BuddyReport.allRecipients (buddyReportOf now allIssues))
    /\ BuddyStats.username (BuddyEntry.stats e) = u
    /\ BuddyStats.receivedChecks (BuddyEntry.stats e) = Z.of_nat (authored u allIssues)
    /\ BuddyStats.conductedChecks (BuddyEntry.stats e)
       = Z.of_nat (conducted u allIssues).
Proof.
  intros Hpos. destruct (buddyUserStats_user u allIssues) as (Hr & Hc & Hn).
  destruct (JsObject.own u (buddyUserStats allIssues)) as [s|] eqn:Hs;
    [|simpl in Hr; lia].
  simpl in Hr, Hc. specialize (Hn s eq_refl).
  exists (toBuddyEntry s). split; [|now rewrite <- Hr, <- Hc].
  apply allRecipients_In. exists s. rewrite Hn.
  split; [reflexivity|]. split; [exact Hs | lia].
Qed.

(** The entries of the report: ratio, deficit and the two counts; and the
    entries of a user who opened three issues and conducted no check, and
    of one who opened two and conducted two. *)
Lemma buddyReportOf_entries (now : Date) (allIssues : list Issue.t) :
  (forall e,
     In e (BuddyReport.allRecipients (buddyReportOf now allIssues)) ->
     let s := BuddyEntry.stats e in
     let exact :=
       (inject_Z (BuddyStats.receivedChecks s)
        / inject_Z (Z.max (BuddyStats.conductedChecks s) 1))%Q in
     BuddyEntry.ratio e
     = Double.div (BuddyStats.receivedChecks s)
         (Z.to_pos (Z.max (BuddyStats.conductedChecks s) 1))
     /\ (Qabs (BuddyEntry.ratio e - exact) <= exact * (1 # 2 ^ 53))%Q
     /\ ((Z.max (BuddyStats.conductedChecks s) 1 | BuddyStats.receivedChecks s) ->
         BuddyStats.receivedChecks s < 2 ^ 53 ->
         (BuddyEntry.ratio e == exact)%Q)
     /\ BuddyEntry.deficit e
        = BuddyStats.receivedChecks s - BuddyStats.conductedChecks s
     /\ 0 < BuddyStats.receivedChecks s
     /\ BuddyStats.receivedChecks s
        = Z.of_nat (authored (BuddyStats.username s) allIssues)
     /\ BuddyStats.conductedChecks s
        = Z.of_nat (conducted (BuddyStats.username s) allIssues))
  /\ (forall u,
        authored u allIssues = 3%nat -> conducted u allIssues = 0%nat ->
        exists e,
          In e (BuddyReport.allRecipients (buddyReportOf now allIssues))
          /\ BuddyStats.username (BuddyEntry.stats e) = u
          /\ (BuddyEntry.ratio e == 3)%Q
          /\ BuddyEntry.deficit e = 3)
  /\ (forall u,
        authored u allIssues = 2%nat -> conducted u allIssues = 2%nat ->
        exists e,
          In e (BuddyReport.allRecipients (buddyReportOf now allIssues))
          /\ BuddyStats.username (BuddyEntry.stats e) = u
          /\ (BuddyEntry.ratio e == 1)%Q
          /\ BuddyEntry.deficit e = 0).
Proof.
  assert (Hentry : forall u r c,
    (0 < r)%nat -> authored u allIssues = r -> conducted u allIssues = c ->
    exists e,
      In e (BuddyReport.allRecipients (buddyReportOf now allIssues))
      /\ BuddyStats.username (BuddyEntry.stats e) = u
      /\ BuddyEntry.ratio e
         = Double.div (Z.of_nat r) (Z.to_pos (Z.max (Z.of_nat c) 1))
      /\ BuddyEntry.deficit e = Z.of_nat r - Z.of_nat c).
  { intros u r c Hpos Hr Hc.
    destruct (allRecipients_user now allIssues u) as (e & Hin & Hu & Hre & Hco);
      [lia|].
    exists e. split; [exact Hin|]. split; [exact Hu|].
    apply allRecipients_In in Hin. destruct Hin as (s & -> & _ & _).
    cbn [toBuddyEntry BuddyEntry.stats BuddyEntry.ratio BuddyEntry.deficit] in *.
    now rewrite Hre, Hco, Hr, Hc. }
  split; [|split].
  - intros e Hin s exact. subst s exact.
    apply allRecipients_In in Hin. destruct Hin as (s & -> & Hs & Hpos).
    destruct (ratio_spec s Hpos) as [Herr Hexact].
    cbn [toBuddyEntry BuddyEntry.stats BuddyEntry.ratio BuddyEntry.deficit] in *.
    destruct (buddyUserStats_user (BuddyStats.username s) allIssues) as (Hr & Hc & _).
    rewrite Hs in Hr, Hc. simpl in Hr, Hc. auto 10.
  - intros u Hr Hc. destruct (Hentry u 3%nat 0%nat) as (e & Hin & Hu & Hq & Hd);
      [lia | exact Hr | exact Hc |].
    exists e. rewrite Hq, Hd. split; [exact Hin|]. split; [exact Hu|].
    split; [|reflexivity]. apply (div_exact 3 1). lia.
  - intros u Hr Hc. destruct (Hentry u 2%nat 2%nat) as (e & Hin & Hu & Hq & Hd);
      [lia | exact Hr | exact Hc |].
    exists e. rewrite Hq, Hd. split; [exact Hin|]. split; [exact Hu|].
    split; [|reflexivity]. apply (div_exact 1 2). lia.
Qed.

(** ** The buddy report as it runs *)

Lemma creditAuthor_ordinary realm o issue :
  ordinaryLogin (Issue.user issue) = true ->
  creditAuthor o issue realm = (Returned (authorCredited o issue), realm).
Proof.
  intros H. unfold creditAuthor, authorCredited.
  change (ensureBuddy (Issue.user issue) o)
    with (ensureRun newBuddyStats (Issue.user issue) o).
  rewrite (bind_Returned _ _ _ _ _
             (ensureRun_ordinary newBuddyStats realm (Issue.user issue) o H)).
  destruct (own_ensure newBuddyStats (Issue.user issue) o) as [v Hv].
  now apply (creditRun_own recordReceived "receivedChecks" "receivedIssues") with v.
Qed.

Lemma creditAuthor_inherited realm o issue :
  ordinaryLogin (Issue.user issue) = false -> clean o ->
  creditAuthor o issue realm
  = (Thrown (JsObject.cannotRead "push"),
     Realm.assign (User.login (Issue.user issue)) "receivedChecks" realm).
Proof.
  intros H Hc. unfold creditAuthor.
  change (ensureBuddy (Issue.user issue) o)
    with (ensureRun newBuddyStats (Issue.user issue) o).
  rewrite (bind_Returned _ _ _ _ _
             (ensureRun_inherited newBuddyStats realm (Issue.user issue) o H Hc)).
  apply (creditRun_inherited recordReceived "receivedChecks" "receivedIssues");
    [now apply negb_false_iff in H | exact Hc].
Qed.

Lemma clean_authorCredited o issue :
  ordinaryLogin (Issue.user issue) = true -> clean o -> clean (authorCredited o issue).
Proof.
  intros H Hc. unfold authorCredited. now apply clean_update, clean_ensure.
Qed.

Lemma forEach_creditAuthor_ordinary realm issues :
  ordinaryAuthors issues = true ->
  forall o,
  clean o ->
  forEach creditAuthor issues o realm = (Returned (foldl authorCredited o issues), realm)
  /\ clean (foldl authorCredited o issues).
Proof.
  unfold ordinaryAuthors.
  induction issues as [|issue issues IH]; intros H o Hc; [now split|].
  cbn [forallb] in H. apply andb_true_iff in H. destruct H as [Hi H].
  cbn [forEach foldl].
  rewrite (bind_Returned _ _ _ _ _ (creditAuthor_ordinary realm o issue Hi)).
  apply IH; [exact H | now apply clean_authorCredited].
Qed.

Lemma forEach_creditAuthor_inherited realm issues :
  ordinaryAuthors issues = false ->
  forall o, clean o ->
  exists issue,
    In issue issues /\ JsObject.isInherited (User.login (Issue.user issue)) = true
    /\ forEach creditAuthor issues o realm
       = (Thrown (JsObject.cannotRead "push"),
          Realm.assign (User.login (Issue.user issue)) "receivedChecks" realm).
Proof.
  unfold ordinaryAuthors.
  induction issues as [|issue issues IH]; intros H o Hc; [discriminate|].
  cbn [forallb] in H. cbn [forEach].
  destruct (ordinaryLogin (Issue.user issue)) eqn:Hi.
  - rewrite (bind_Returned _ _ _ _ _ (creditAuthor_ordinary realm o issue Hi)).
    destruct (IH H (authorCredited o issue)) as (i & Hin & Hk & Hrun).
    { now apply clean_authorCredited. }
    exists i. split; [now right|]. now split.
  - exists issue. split; [now left|]. split; [now apply negb_false_iff in Hi|].
    apply bind_Thrown. now apply creditAuthor_inherited.
Qed.

Lemma creditAssignees_creditAllRun o issue realm :
  Js.strictEq (Issue.state issue) "closed" && hasAssignees issue = true ->
  creditAssignees o issue realm
  = creditAllRun newBuddyStats recordConducted "conductedChecks" "conductedIssues"
      issue o realm.
Proof. intros Hh. unfold creditAssignees. now rewrite Hh. Qed.

(** An issue that is dealt with in the second pass: it is closed and has an
    assignee. *)
Lemma creditAssignees_ordinary realm o issue :
  (isClosed issue = true ->
   forallb (fun a => ordinaryLogin a) (mentions issue) = true) ->
  creditAssignees o issue realm = (Returned (assigneesCredited o issue), realm).
Proof.
  intros H.
  destruct (Js.strictEq (Issue.state issue) "closed" && hasAssignees issue) eqn:Hh.
  - rewrite (creditAssignees_creditAllRun _ _ _ Hh). unfold assigneesCredited.
    rewrite Hh. apply creditAllRun_ordinary. apply H.
    apply andb_true_iff in Hh. now destruct Hh.
  - unfold creditAssignees, assigneesCredited. now rewrite Hh.
Qed.

Lemma creditAssignees_inherited realm o issue :
  isClosed issue = true ->
  forallb (fun a => ordinaryLogin a) (mentions issue) = false -> clean o ->
  exists k,
    JsObject.isInherited k = true /\ In k (map User.login (mentions issue))
    /\ creditAssignees o issue realm
       = (Thrown (JsObject.cannotRead "push"), Realm.assign k "conductedChecks" realm).
Proof.
  intros Hclosed H Hc.
  assert (Hh : Js.strictEq (Issue.state issue) "closed" && hasAssignees issue = true).
  { apply andb_true_iff. split; [exact Hclosed|].
    destruct (hasAssignees issue) eqn:Hh; [reflexivity|].
    rewrite (unassigned_ordinary _ Hh) in H. discriminate. }
  rewrite (creditAssignees_creditAllRun _ _ _ Hh).
  now apply creditAllRun_inherited.
Qed.

Lemma clean_assigneesCredited o issue :
  (isClosed issue = true ->
   forallb (fun a => ordinaryLogin a) (mentions issue) = true) ->
  clean o -> clean (assigneesCredited o issue).
Proof.
  intros H Hc. unfold assigneesCredited.
  destruct (Js.strictEq (Issue.state issue) "closed") eqn:Hclosed; [|exact Hc].
  destruct (hasAssignees issue); [|exact Hc]. cbn [andb].
  apply clean_creditAll; [|exact Hc]. now apply H.
Qed.

Lemma forEach_creditAssignees_ordinary realm issues :
  ordinaryAssignees (List.filter isClosed issues) = true ->
  forall o,
  forEach creditAssignees issues o realm
  = (Returned (foldl assigneesCredited o issues), realm).
Proof.
  unfold ordinaryAssignees.
  induction issues as [|issue issues IH]; intros H o; [reflexivity|].
  cbn [List.filter] in H. cbn [forEach foldl].
  destruct (isClosed issue) eqn:Hclosed.
  - cbn [forallb] in H. apply andb_true_iff in H. destruct H as [Hi H].
    rewrite (bind_Returned _ _ _ _ _
               (creditAssignees_ordinary realm o issue (fun _ => Hi))).
    now apply IH.
  - assert (Hord : isClosed issue = true ->
                   forallb (fun a => ordinaryLogin a) (mentions issue) = true)
      by (rewrite Hclosed; discriminate).
    rewrite (bind_Returned _ _ _ _ _ (creditAssignees_ordinary realm o issue Hord)).
    now apply IH.
Qed.

Lemma forEach_creditAssignees_inherited realm issues :
  ordinaryAssignees (List.filter isClosed issues) = false ->
  forall o, clean o ->
  exists k issue,
    JsObject.isInherited k = true
    /\ In issue issues /\ isClosed issue = true
    /\ In k (map User.login (mentions issue))
    /\ forEach creditAssignees issues o realm
       = (Thrown (JsObject.cannotRead "push"), Realm.assign k "conductedChecks" realm).
Proof.
  unfold ordinaryAssignees.
  induction issues as [|issue issues IH]; intros H o Hc; [discriminate|].
  cbn [List.filter] in H. cbn [forEach].
  assert (Hnext : forall Hord : isClosed issue = true ->
                    forallb (fun a => ordinaryLogin a) (mentions issue) = true,
            forallb
              (fun issue => forallb (fun a => ordinaryLogin a) (mentions issue))
              (List.filter isClosed issues) = false ->
            exists k i,
              JsObject.isInherited k = true
              /\ In i (issue :: issues) /\ isClosed i = true
              /\ In k (map User.login (mentions i))
              /\ bind (creditAssignees o issue)
                   (fun s' => forEach creditAssignees issues s') realm
                 = (Thrown (JsObject.cannotRead "push"),
                    Realm.assign k "conductedChecks" realm)).
  { intros Hord Hrest.
    rewrite (bind_Returned _ _ _ _ _ (creditAssignees_ordinary realm o issue Hord)).
    destruct (IH Hrest (assigneesCredited o issue))
      as (k & i & Hk & Hin & Hcl & Hm & Hrun).
    { now apply clean_assigneesCredited. }
    exists k, i. split; [exact Hk|]. split; [now right|]. auto. }
  destruct (isClosed issue) eqn:Hclosed.
  - cbn [forallb] in H.
    destruct (forallb (fun a => ordinaryLogin a) (mentions issue)) eqn:Hi.
    + apply Hnext; [auto | exact H].
    + destruct (creditAssignees_inherited realm o issue Hclosed Hi Hc)
        as (k & Hk & Hm & Hrun).
      exists k, issue. split; [exact Hk|]. split; [now left|].
      split; [exact Hclosed|]. split; [exact Hm|]. now apply bind_Thrown.
  - apply Hnext; [discriminate | exact H].
Qed.

Lemma calculateBuddyRatios_ordinary now allIssues realm :
  ordinaryAuthors allIssues = true ->
  ordinaryAssignees (List.filter isClosed allIssues) = true ->
  calculateBuddyRatios now allIssues realm
  = (Returned (buddyReportOf now allIssues), realm).
Proof.
  intros Hauthors Hassignees. unfold calculateBuddyRatios.
  destruct (forEach_creditAuthor_ordinary realm allIssues Hauthors JsObject.empty)
    as [Hfirst _]; [apply clean_empty|].
  rewrite (bind_Returned _ _ _ _ _ Hfirst).
  now rewrite (bind_Returned _ _ _ _ _
                 (forEach_creditAssignees_ordinary realm allIssues Hassignees _)).
Qed.

Lemma calculateBuddyRatios_inherited now allIssues realm :
  ordinaryAuthors allIssues && ordinaryAssignees (List.filter isClosed allIssues) = false ->
  exists k property,
    JsObject.isInherited k = true
    /\ calculateBuddyRatios now allIssues realm
       = (Thrown (JsObject.cannotRead "push"), Realm.assign k property realm).
Proof.
  intros H. unfold calculateBuddyRatios.
  destruct (ordinaryAuthors allIssues) eqn:Hauthors.
  - cbn [andb] in H.
    destruct (forEach_creditAuthor_ordinary realm allIssues Hauthors JsObject.empty)
      as [Hfirst Hclean]; [apply clean_empty|].
    destruct (forEach_creditAssignees_inherited realm allIssues H _ Hclean)
      as (k & issue & Hk & _ & _ & _ & Hrun).
    exists k, "conductedChecks". split; [exact Hk|].
    rewrite (bind_Returned _ _ _ _ _ Hfirst). now apply bind_Thrown.
  - destruct (forEach_creditAuthor_inherited realm allIssues Hauthors JsObject.empty)
      as (issue & _ & Hk & Hrun); [apply clean_empty|].
    exists (User.login (Issue.user issue)), "receivedChecks". split; [exact Hk|].
    now apply bind_Thrown.
Qed.

(** A report that is returned is the one [buddyReportOf] describes. *)
Lemma calculateBuddyRatios_Returned now allIssues realm report realm' :
  calculateBuddyRatios now allIssues realm = (Returned report, realm') ->
  ordinaryAuthors allIssues = true
  /\ ordinaryAssignees (List.filter isClosed allIssues) = true
  /\ report = buddyReportOf now allIssues /\ realm' = realm.
Proof.
  intros Hrun.
  destruct (ordinaryAuthors allIssues
            && ordinaryAssignees (List.filter isClosed allIssues)) eqn:H.
  - apply andb_true_iff in H. destruct H as [Ha Hb].
    rewrite (calculateBuddyRatios_ordinary _ _ _ Ha Hb) in Hrun.
    injection Hrun as <- <-. auto.
  - destruct (calculateBuddyRatios_inherited now allIssues realm H)
      as (k & property & _ & Hthrown).
    rewrite Hthrown in Hrun. discriminate.
Qed.

(** C7. [calculateBuddyRatios] returns a report whenever no author, and no
    assignee of a closed issue, has a login that is a property name plain
    objects inherit. Every entry of a report it returns has [ratio] equal to
    its [receivedChecks] divided by the larger of its [conductedChecks] and
    1, as numbers are divided: the double nearest to the quotient, which is
    the quotient itself whenever the division of the two integers leaves no
    remainder, and is within 2^-53 of it in relative terms otherwise. The
    entry has [deficit] equal to [receivedChecks - conductedChecks]; its
    [receivedChecks] is positive and counts the issues its user opened, its
    [conductedChecks] counts the closed issues credited to that user. A
    user who opened 3 issues and conducted no check has an entry with ratio
    3 and deficit 3; one who opened 2 and conducted 2 has an entry with
    ratio 1 and deficit 0. *)
Theorem calculateBuddyRatios_entries (now : Date) (allIssues : list Issue.t)
    (realm : Realm.t) :
  (ordinaryAuthors allIssues = true ->
   ordinaryAssignees (List.filter isClosed allIssues) = true ->
   exists report, calculateBuddyRatios now allIssues realm = (Returned report, realm))
  /\ forall report realm',
       calculateBuddyRatios now allIssues realm = (Returned report, realm') ->
       (forall e,
          In e (BuddyReport.allRecipients report) ->
          let s := BuddyEntry.stats e in
          let exact :=
            (inject_Z (BuddyStats.receivedChecks s)
             / inject_Z (Z.max (BuddyStats.conductedChecks s) 1))%Q in
          BuddyEntry.ratio e
          = Double.div (BuddyStats.receivedChecks s)
              (Z.to_pos (Z.max (BuddyStats.conductedChecks s) 1))
          /\ (Qabs (BuddyEntry.ratio e - exact) <= exact * (1 # 2 ^ 53))%Q
          /\ ((Z.max (BuddyStats.conductedChecks s) 1 | BuddyStats.receivedChecks s) ->
              BuddyStats.receivedChecks s < 2 ^ 53 ->
              (BuddyEntry.ratio e == exact)%Q)
          /\ BuddyEntry.deficit e
             = BuddyStats.receivedChecks s - BuddyStats.conductedChecks s
          /\ 0 < BuddyStats.receivedChecks s
          /\ BuddyStats.receivedChecks s
             = Z.of_nat (authored (BuddyStats.username s) allIssues)
          /\ BuddyStats.conductedChecks s
             = Z.of_nat (conducted (BuddyStats.username s) allIssues))
       /\ (forall u,
             authored u allIssues = 3%nat -> conducted u allIssues = 0%nat ->
             exists e,
               In e (BuddyReport.allRecipients report)
               /\ BuddyStats.username (BuddyEntry.stats e) = u
               /\ (BuddyEntry.ratio e == 3)%Q
               /\ BuddyEntry.deficit e = 3)
       /\ (forall u,
             authored u allIssues = 2%nat -> conducted u allIssues = 2%nat ->
             exists e,
               In e (BuddyReport.allRecipients report)
               /\ BuddyStats.username (BuddyEntry.stats e) = u
               /\ (BuddyEntry.ratio e == 1)%Q
               /\ BuddyEntry.deficit e = 0).
Proof.
  split.
  - intros Ha Hb. exists (buddyReportOf now allIssues).
    now apply calculateBuddyRatios_ordinary.
  - intros report realm' Hrun.
    apply calculateBuddyRatios_Returned in Hrun. destruct Hrun as (_ & _ & -> & _).
    apply buddyReportOf_entries.
Qed.

(** C7, an instance: alice opened three issues and conducted no check, bob
    opened two and conducted two. *)
Lemma calculateBuddyRatios_entries_witness :
  exists report,
    calculateBuddyRatios 0 Examples.exchange Realm.pristine
    = (Returned report, Realm.pristine)
    /\ (exists e,
          In e (BuddyReport.allRecipients report)
          /\ BuddyStats.username (BuddyEntry.stats e) = "alice"
          /\ (BuddyEntry.ratio e == 3)%Q
          /\ BuddyEntry.deficit e = 3)
    /\ (exists e,
          In e (BuddyReport.allRecipients report)
          /\ BuddyStats.username (BuddyEntry.stats e) = "bob"
          /\ (BuddyEntry.ratio e == 1)%Q
          /\ BuddyEntry.deficit e = 0).
Proof.
  destruct (calculateBuddyRatios_entries 0 Examples.exchange Realm.pristine)
    as [Hreturns Hentries].
  destruct (Hreturns eq_refl eq_refl) as [report Hrun].
  destruct (Hentries report _ Hrun) as (_ & H3 & H2).
  exists report. split; [exact Hrun|]. split.
  - apply H3; reflexivity.
  - apply H2; reflexivity.
Defined.

(** ** Calling a query twice *)

(** C3 (as the code has it). On one fetched snapshot, two calls of a query
    one after the other, the second in the state the first has left: the
    available-issue filter returns the same list twice and the identifier
    allocation the same number twice, whenever they are called; the
    leaderboard, and likewise the buddy report, either returns two records
    that agree in every field but [lastUpdated], which holds the time of
    each call, or throws the same error twice. *)
Theorem queries_twice (toLowerCase : string -> string) (t1 t2 : Date)
    (snapshot : list Issue.t) (realm : Realm.t) :
  (exists available,
     twice (listAvailableIssues toLowerCase t1 snapshot)
       (listAvailableIssues toLowerCase t2 snapshot) realm
     = (Returned available, Returned available))
  /\ (exists identifier,
        twice (allocateNextIdentifier t1 snapshot)
          (allocateNextIdentifier t2 snapshot) realm
        = (Returned identifier, Returned identifier))
  /\ match twice (buildLeaderboard t1 snapshot) (buildLeaderboard t2 snapshot) realm with
     | (Returned first, Returned second) =>
         first
         = Leaderboard.mk (Leaderboard.leaderboard second)
             (Leaderboard.totalCompleted second)
             (Leaderboard.activeContributors second) t1
         /\ Leaderboard.lastUpdated second = t2
     | (Thrown first, Thrown second) => first = second
     | _ => False
     end
  /\ match twice (buildBuddyReport t1 snapshot) (buildBuddyReport t2 snapshot) realm with
     | (Returned first, Returned second) =>
         first
         = BuddyReport.mk (BuddyReport.allRecipients second)
             (BuddyReport.totalUsers second) (BuddyReport.totalIssues second) t1
         /\ BuddyReport.lastUpdated second = t2
     | (Thrown first, Thrown second) => first = second
     | _ => False
     end.
Proof.
  split; [eexists; reflexivity|]. split; [eexists; reflexivity|]. split.
  - unfold twice, buildLeaderboard.
    destruct (ordinaryAssignees snapshot) eqn:H.
    + rewrite !(calculateLeaderboard_ordinary _ _ _ H). now split.
    + destruct (calculateLeaderboard_inherited t1 snapshot realm H)
        as (k & issue & _ & _ & _ & ->).
      now destruct (calculateLeaderboard_inherited t2 snapshot
                      (Realm.assign k "completedCount" realm) H)
        as (k' & issue' & _ & _ & _ & ->).
  - unfold twice, buildBuddyReport.
    destruct (ordinaryAuthors snapshot
              && ordinaryAssignees (List.filter isClosed snapshot)) eqn:H.
    + apply andb_true_iff in H. destruct H as [Ha Hb].
      rewrite !(calculateBuddyRatios_ordinary _ _ _ Ha Hb). now split.
    + destruct (calculateBuddyRatios_inherited t1 snapshot realm H)
        as (k & property & _ & ->).
      now destruct (calculateBuddyRatios_inherited t2 snapshot
                      (Realm.assign k property realm) H)
        as (k' & property' & _ & ->).
Qed.

(** C3 as stated fails for the leaderboard and for the buddy report: two
    calls on the same (here empty) snapshot, a millisecond apart, return
    different records. *)
Lemma queries_twice_counterexample :
  (let (first, second) :=
     twice (buildLeaderboard 0 []) (buildLeaderboard 1 []) Realm.pristine in
   first <> second)
  /\ (let (first, second) :=
        twice (buildBuddyReport 0 []) (buildBuddyReport 1 []) Realm.pristine in
      first <> second).
Proof. split; vm_compute; intros H; discriminate H. Qed.

(** * Further properties *)

(** ** The availability filters, continued *)

Lemma filter_sublist {A} (f : A -> bool) (l : list A) : sublist (List.filter f l) l.
Proof.
  induction l as [|x l IH]; simpl; [constructor|].
  destruct (f x); now constructor.
Qed.

Lemma filter_filter {A} (f g : A -> bool) (l : list A) :
  List.filter f (List.filter g l) = List.filter (fun x => g x && f x) l.
Proof.
  induction l as [|x l IH]; simpl; [reflexivity|].
  destruct (g x); simpl; [destruct (f x)|]; now rewrite IH.
Qed.

(** X1. The three filters keep the issues in the order they arrived in and
    add none: each result is a subsequence of the input. *)
Theorem filters_keep_order (toLowerCase : string -> string) (issues : list Issue.t) :
  sublist (filterAvailableIssues toLowerCase issues) issues
  /\ sublist (filterAvailableIssues_rev2 toLowerCase issues) issues
  /\ sublist (filterUnassignedIssues issues) issues.
Proof. repeat split; apply filter_sublist. Qed.

(** X2. The filter the application loads is the filter of the second copy
    followed by the test for the "buddy exchange" label: the gate only
    removes issues. *)
Theorem filterAvailableIssues_gate (toLowerCase : string -> string)
    (issues : list Issue.t) :
  filterAvailableIssues toLowerCase issues
  = List.filter (hasLabel toLowerCase BuddyExchangeConfig.labels_buddyExchange)
      (filterAvailableIssues_rev2 toLowerCase issues).
Proof.
  unfold filterAvailableIssues, filterAvailableIssues_rev2.
  rewrite filter_filter. apply filter_ext. intros issue.
  destruct (hasLabel toLowerCase BuddyExchangeConfig.labels_buddyExchange issue);
    simpl.
  - destruct (hasLabel toLowerCase BuddyExchangeConfig.labels_needsCodechecker issue);
      [reflexivity | now rewrite andb_true_r].
  - now rewrite andb_false_r.
Qed.

(** X3. Every issue the legacy [filterUnassignedIssues] keeps is kept by
    the filter of the second copy; and when no issue of the list carries
    "needs codechecker" the two filters return the same list. *)
Theorem filterUnassignedIssues_legacy (toLowerCase : string -> string)
    (issues : list Issue.t) :
  (forall issue,
     In issue (filterUnassignedIssues issues) ->
     In issue (filterAvailableIssues_rev2 toLowerCase issues))
  /\ ((forall issue,
         In issue issues ->
         hasLabel toLowerCase BuddyExchangeConfig.labels_needsCodechecker issue
         = false) ->
      filterAvailableIssues_rev2 toLowerCase issues = filterUnassignedIssues issues).
Proof.
  split.
  - intros issue. unfold filterUnassignedIssues.
    rewrite filter_In, filterAvailableIssues_rev2_In.
    intros [Hin ->]. split; [exact Hin | apply orb_true_r].
  - intros Hnone. unfold filterAvailableIssues_rev2, filterUnassignedIssues.
    apply filter_ext_in. intros issue Hin. now rewrite (Hnone issue Hin).
Qed.

(** X3, an instance: a taken and a free issue, neither wanted. *)
Lemma filterUnassignedIssues_legacy_witness :
  filterAvailableIssues_rev2 Js.toLowerCaseAscii [Examples.taken; Examples.unlabelled]
  = filterUnassignedIssues [Examples.taken; Examples.unlabelled].
Proof.
  apply (proj2 (filterUnassignedIssues_legacy Js.toLowerCaseAscii
                  [Examples.taken; Examples.unlabelled])).
  intros issue [<- | [<- | []]]; reflexivity.
Defined.

(** ** Search links *)




Lemma unhexDigit_hexDigit n : (n < 16)%nat -> unhexDigit (Js.hexDigit n) = n.
Proof.
  intros Hn. do 16 (destruct n as [|n]; [reflexivity|]). lia.
Qed.

Lemma escape_inj c1 c2 :
  Js.hexDigit (nat_of_ascii c1 / 16) = Js.hexDigit (nat_of_ascii c2 / 16) ->
  Js.hexDigit (nat_of_ascii c1 mod 16) = Js.hexDigit (nat_of_ascii c2 mod 16) ->
  c1 = c2.
Proof.
  intros Hhi Hlo.
  pose proof (nat_ascii_bounded c1) as B1. pose proof (nat_ascii_bounded c2) as B2.
  apply (f_equal unhexDigit) in Hhi, Hlo.
  rewrite !unhexDigit_hexDigit in Hhi, Hlo
    by (try (apply Nat.mod_upper_bound; lia);
        apply Nat.Div0.div_lt_upper_bound; lia).
  rewrite <- (ascii_nat_embedding c1), <- (ascii_nat_embedding c2).
  f_equal.
  rewrite (Nat.div_mod_eq (nat_of_ascii c1) 16), (Nat.div_mod_eq (nat_of_ascii c2) 16).
  now rewrite Hhi, Hlo.
Qed.

Lemma encodeURIComponent_inj s1 :
  forall s2, Js.encodeURIComponent s1 = Js.encodeURIComponent s2 -> s1 = s2.
Proof.
  induction s1 as [|c1 s1 IH]; intros [|c2 s2]; cbn [Js.encodeURIComponent].
  - reflexivity.
  - destruct (Js.isUnreserved c2); discriminate.
  - destruct (Js.isUnreserved c1); discriminate.
  - destruct (Js.isUnreserved c1) eqn:H1, (Js.isUnreserved c2) eqn:H2.
    + intros [= -> H]. f_equal. now apply IH.
    + intros [= -> _]. discriminate H1.
    + intros [= <- _]. discriminate H2.
    + intros [= Hhi Hlo H]. f_equal; [now apply escape_inj | now apply IH].
Qed.

Lemma append_cancel_r (c a : string) : forall b, a +:+ c = b +:+ c -> a = b.
Proof.
  induction a as [|x a IH]; intros [|y b]; norm_append; intros H.
  - reflexivity.
  - apply (f_equal String.length) in H. simpl in H. rewrite append_length in H. lia.
  - apply (f_equal String.length) in H. simpl in H. rewrite append_length in H. lia.
  - injection H as -> H. f_equal. now apply IH.
Qed.

(** X5. Different usernames get different search links. *)
Theorem generateUserIssuesSearchUrl_inj (username1 username2 : string) :
  username1 <> username2 ->
  generateUserIssuesSearchUrl username1 <> generateUserIssuesSearchUrl username2.
Proof.
  unfold generateUserIssuesSearchUrl. intros Hne H. apply Hne.
  apply (inj (String.append _)), append_cancel_r, encodeURIComponent_inj in H.
  do 7 apply (inj (String.append _)) in H.
  now apply append_cancel_r in H.
Qed.

(** X5, an instance. *)
Lemma generateUserIssuesSearchUrl_inj_witness :
  generateUserIssuesSearchUrl "alice" <> generateUserIssuesSearchUrl "bob".
Proof.
  apply (generateUserIssuesSearchUrl_inj "alice" "bob"). discriminate.
Defined.

(** ** The paginated fetchers, continued *)

Section FetchMore.

Variable fetch : Request.t -> Outcome Response.t.
Variable request : nat -> Request.t.
Variable perPage : nat.

(** A run that returns a list met no failing page. *)
Lemma fetchPages_returned remaining :
  forall page allIssues sent issues rq,
  snd (fetchPages fetch request perPage remaining page allIssues sent)
  = Returned issues ->
  In rq (fst (fetchPages fetch request perPage remaining page allIssues sent)) ->
  In rq sent \/ pageItems fetch rq <> None.
Proof.
  induction remaining as [|remaining IH]; intros page allIssues sent issues rq;
    simpl; [auto|].
  assert (Hhere : forall items,
            pageItems fetch (request page) = Some items ->
            In rq (sent ++ [request page]) ->
            In rq sent \/ pageItems fetch rq <> None).
  { intros items Hi Hin. apply in_app_or in Hin.
    destruct Hin as [Hin | [<- | []]]; [now left | right; congruence]. }
  unfold pageItems in Hhere at 1.
  destruct (fetch (request page)) as [response | e]; [|discriminate].
  destruct (Response.ok response); simpl; [|discriminate].
  destruct (Response.json response) as [items | e]; [|discriminate].
  destruct (length items =? 0)%nat; [intros _; now apply Hhere with items|].
  destruct (length items <? perPage)%nat; [intros _; now apply Hhere with items|].
  intros Hret Hin. destruct (IH _ _ _ _ _ Hret Hin) as [H | H]; [|now right].
  now apply Hhere with items.
Qed.

(** An error of the transport or of the body parser ends the run with that
    very error. *)
Lemma fetchPages_rejected remaining :
  forall page allIssues sent p e,
  In (request p) (fst (fetchPages fetch request perPage remaining page allIssues sent)) ->
  ~ In (request p) sent ->
  fetch (request p) = Thrown e
  \/ (exists response,
        fetch (request p) = Returned response
        /\ Response.ok response = true /\ Response.json response = Thrown e) ->
  snd (fetchPages fetch request perPage remaining page allIssues sent) = Thrown e.
Proof.
  induction remaining as [|remaining IH]; intros page allIssues sent p e; simpl.
  - intros Hin Hnot. contradiction.
  - intros Hin Hnot Hbad.
    assert (Hhere : In (request p) (sent ++ [request page]) ->
                    fetch (request page) = fetch (request p)).
    { intros H. apply in_app_or in H. destruct H as [H | [H | []]];
        [contradiction | now rewrite H]. }
    destruct (fetch (request page)) as [response | e'] eqn:Hf.
    2:{ simpl in *. specialize (Hhere Hin).
        destruct Hbad as [Hb | (r & Hb & _)]; congruence. }
    destruct (Response.ok response) eqn:Hok; simpl in *.
    2:{ specialize (Hhere Hin).
        destruct Hbad as [Hb | (r & Hb & Hok' & _)]; congruence. }
    destruct (Response.json response) as [items | e'] eqn:Hj; simpl in *.
    2:{ specialize (Hhere Hin).
        destruct Hbad as [Hb | (r & Hb & _ & Hj')]; congruence. }
    assert (Hnot' : ~ In (request p) (sent ++ [request page])).
    { intros H. specialize (Hhere H).
      destruct Hbad as [Hb | (r & Hb & _ & Hj')]; congruence. }
    destruct (length items =? 0)%nat; simpl in *; [contradiction|].
    destruct (length items <? perPage)%nat; simpl in *; [contradiction|].
    now apply IH with p.
Qed.

End FetchMore.

(** X6. When [fetchAllBuddyExchangeIssues] returns a list, every page it
    requested had delivered its issues, and the list is these pages put
    together in request order. *)
Theorem fetchAllBuddyExchangeIssues_returned
    (fetch : Request.t -> Outcome Response.t) (perPage maxPages : nat)
    (issues : list Issue.t) :
  snd (fetchAllBuddyExchangeIssues fetch perPage maxPages) = Returned issues ->
  exists k,
    (k <= maxPages)%nat
    /\ fst (fetchAllBuddyExchangeIssues fetch perPage maxPages)
       = map (allBuddyExchangeRequest perPage) (seq 1 k)
    /\ (forall p, (1 <= p <= k)%nat ->
          pageItems fetch (allBuddyExchangeRequest perPage p) <> None)
    /\ issues
       = flat_map (fun p => pageBody fetch (allBuddyExchangeRequest perPage p))
           (seq 1 k).
Proof.
  unfold fetchAllBuddyExchangeIssues. intros Hret.
  destruct (fetchPages_run fetch (allBuddyExchangeRequest perPage) perPage maxPages
              1 [] []) as (k & Hle & Hsent & _ & _ & Hout).
  exists k. split; [exact Hle|]. split; [exact Hsent|].
  assert (Hok : forall p, (1 <= p <= k)%nat ->
            pageItems fetch (allBuddyExchangeRequest perPage p) <> None).
  { intros p Hp.
    destruct (fetchPages_returned fetch (allBuddyExchangeRequest perPage) perPage
                maxPages 1 [] [] issues (allBuddyExchangeRequest perPage p) Hret)
      as [[] | H]; [|exact H].
    rewrite Hsent. simpl. apply in_map, in_seq. lia. }
  split; [exact Hok|].
  rewrite Hout in Hret by (intros p Hp; apply Hok; lia).
  now injection Hret as <-.
Qed.

(** X6, an instance: two issues in pages of two. *)
Lemma fetchAllBuddyExchangeIssues_returned_witness :
  exists k,
    (k <= 50)%nat
    /\ fst (fetchAllBuddyExchangeIssues Examples.twoIssues 2 50)
       = map (allBuddyExchangeRequest 2) (seq 1 k)
    /\ (forall p, (1 <= p <= k)%nat ->
          pageItems Examples.twoIssues (allBuddyExchangeRequest 2 p) <> None)
    /\ [Examples.closedIssue 1 Examples.author [Examples.alice];
        Examples.closedIssue 2 Examples.author [Examples.bob]]
       = flat_map (fun p => pageBody Examples.twoIssues (allBuddyExchangeRequest 2 p))
           (seq 1 k).
Proof.
  apply (fetchAllBuddyExchangeIssues_returned Examples.twoIssues 2 50). reflexivity.
Defined.

(** X7. When the first [maxPages] pages are all full, the leaderboard
    fetch requests exactly these pages and returns their issues without
    any error: whatever lies behind the ceiling is left out silently. *)
Theorem fetchClosedBuddyExchangeIssues_ceiling
    (fetch : Request.t -> Outcome Response.t) (perPage maxPages : nat) :
  (forall p, (1 <= p <= maxPages)%nat ->
     fullPage fetch perPage (closedBuddyExchangeRequest perPage p)) ->
  fst (fetchClosedBuddyExchangeIssues fetch perPage maxPages)
  = map (closedBuddyExchangeRequest perPage) (seq 1 maxPages)
  /\ snd (fetchClosedBuddyExchangeIssues fetch perPage maxPages)
     = Returned
         (flat_map (fun p => pageBody fetch (closedBuddyExchangeRequest perPage p))
            (seq 1 maxPages)).
Proof.
  unfold fetchClosedBuddyExchangeIssues. intros Hfull.
  destruct (fetchPages_run fetch (closedBuddyExchangeRequest perPage) perPage maxPages
              1 [] []) as (k & Hle & Hsent & _ & Hlast & Hout).
  assert (k = maxPages) as ->.
  { destruct (decide (k = maxPages)) as [|Hne]; [assumption|]. exfalso.
    destruct Hlast as [H1 Hnot]; [lia|]. apply Hnot, Hfull. lia. }
  split; [exact Hsent|]. apply Hout.
  intros p Hp. destruct (Hfull p) as (items & Hi & _); [lia|]. congruence.
Qed.

(** X8. When the transport rejects a request [fetchAllIssues] made, or the
    body of a successful response does not parse, the call ends with that
    very error. *)
Theorem fetchAllIssues_rejected
    (fetch : Request.t -> Outcome Response.t) (perPage maxPages page : nat)
    (e : string) :
  In (allIssuesRequest perPage page) (fst (fetchAllIssues fetch perPage maxPages)) ->
  fetch (allIssuesRequest perPage page) = Thrown e
  \/ (exists response,
        fetch (allIssuesRequest perPage page) = Returned response
        /\ Response.ok response = true /\ Response.json response = Thrown e) ->
  snd (fetchAllIssues fetch perPage maxPages) = Thrown e.
Proof.
  unfold fetchAllIssues. intros Hin Hbad.
  apply fetchPages_rejected with page; auto.
Qed.

(** X7, an instance: every page holds one issue and the ceiling is three
    pages. *)
Lemma fetchClosedBuddyExchangeIssues_ceiling_witness :
  fst (fetchClosedBuddyExchangeIssues Samples.endless 1 3)
  = map (closedBuddyExchangeRequest 1) [1; 2; 3]%nat
  /\ snd (fetchClosedBuddyExchangeIssues Samples.endless 1 3)
     = Returned
         [Examples.closedIssue 1 Examples.author [Examples.alice];
          Examples.closedIssue 2 Examples.author [Examples.alice];
          Examples.closedIssue 3 Examples.author [Examples.alice]].
Proof.
  apply (fetchClosedBuddyExchangeIssues_ceiling Samples.endless 1 3).
  intros p Hp. eexists. split; [reflexivity|]. split; [discriminate | simpl; lia].
Defined.

(** X8, an instance: the connection is lost on the second page. *)
Lemma fetchAllIssues_rejected_witness :
  snd (fetchAllIssues Samples.offline 2 50) = Thrown "Failed to fetch".
Proof.
  apply (fetchAllIssues_rejected Samples.offline 2 50 2).
  - right. left. reflexivity.
  - left. reflexivity.
Defined.

(** ** Sorting, continued *)

Section SortSorted.

Context {A : Type} (before : A -> A -> bool).
Hypothesis before_total : forall a b, before a b = true \/ before b a = true.
Hypothesis before_trans :
  forall a b c, before a b = true -> before b c = true -> before a c = true.

Lemma insertSorted_sorted x l :
  StronglySorted (fun a b => before a b = true) l ->
  StronglySorted (fun a b => before a b = true) (Js.insertSorted before x l).
Proof.
  induction 1 as [|y l Hs IH Hy]; simpl.
  - repeat constructor.
  - destruct (before x y) eqn:Hxy.
    + constructor; [now constructor|]. constructor; [exact Hxy|].
      eapply Forall_impl; [exact Hy|]. simpl. intros z Hz.
      now apply before_trans with y.
    + constructor; [exact IH|].
      rewrite List.Forall_forall. intros z Hz.
      apply (Permutation_in _ (insertSorted_Permutation before x l)) in Hz.
      destruct Hz as [<- | Hz].
      * destruct (before_total x y) as [H | H]; [congruence | exact H].
      * rewrite List.Forall_forall in Hy. now apply Hy.
Qed.

Lemma sort_sorted l : StronglySorted (fun a b => before a b = true) (Js.sort before l).
Proof.
  induction l as [|x l IH]; simpl; [constructor|]. now apply insertSorted_sorted.
Qed.

End SortSorted.

Lemma StronglySorted_map {A B} (f : A -> B) (R : B -> B -> Prop) l :
  StronglySorted (fun a b => R (f a) (f b)) l -> StronglySorted R (map f l).
Proof.
  induction 1 as [|x l Hs IH Hx]; simpl; constructor; [exact IH|].
  rewrite List.Forall_forall in *. intros y Hy.
  apply in_map_iff in Hy. destruct Hy as (z & <- & Hz). now apply Hx.
Qed.

Lemma StronglySorted_impl {A} (R R' : A -> A -> Prop) l :
  (forall a b, R a b -> R' a b) -> StronglySorted R l -> StronglySorted R' l.
Proof.
  intros Himpl. induction 1 as [|x l Hs IH Hx]; constructor; [exact IH|].
  eapply Forall_impl; [exact Hx|]. simpl. auto.
Qed.

(** ** The leaderboard, continued *)

(** The records come in descending order of [completedCount]. *)
Lemma leaderboardOf_descending (now : Date) (closedIssues : list Issue.t) :
  StronglySorted
    (fun a b => UserStats.completedCount b <= UserStats.completedCount a)
    (Leaderboard.leaderboard (leaderboardOf now closedIssues)).
Proof.
  unfold leaderboardOf, leaderboardFrom. cbn [Leaderboard.leaderboard].
  apply StronglySorted_map.
  eapply StronglySorted_impl; [|apply (sort_sorted byCompletedCount)].
  - intros a b H. unfold byCompletedCount in H. apply Z.leb_le in H.
    cbn [withSearchUrl UserStats.completedCount]. lia.
  - intros a b. unfold byCompletedCount. rewrite !Z.leb_le. lia.
  - intros a b c. unfold byCompletedCount. rewrite !Z.leb_le. lia.
Qed.

(** X9. [calculateLeaderboard] returns a leaderboard whenever no assignee
    has an inherited name for a login, and a leaderboard it returns is in
    descending order of [completedCount]: no entry has a larger count than
    an entry in front of it. *)
Theorem calculateLeaderboard_descending (now : Date) (closedIssues : list Issue.t)
    (realm : Realm.t) :
  (ordinaryAssignees closedIssues = true ->
   exists board, calculateLeaderboard now closedIssues realm = (Returned board, realm))
  /\ forall board realm',
       calculateLeaderboard now closedIssues realm = (Returned board, realm') ->
       StronglySorted
         (fun a b => UserStats.completedCount b <= UserStats.completedCount a)
         (Leaderboard.leaderboard board).
Proof.
  split.
  - intros H. exists (leaderboardOf now closedIssues).
    now apply calculateLeaderboard_ordinary.
  - intros board realm' Hrun.
    apply calculateLeaderboard_Returned in Hrun. destruct Hrun as (_ & -> & _).
    apply leaderboardOf_descending.
Qed.

(** X9, an instance. *)
Lemma calculateLeaderboard_descending_witness :
  exists board,
    calculateLeaderboard 0 Examples.twoReviews Realm.pristine
    = (Returned board, Realm.pristine)
    /\ StronglySorted
         (fun a b => UserStats.completedCount b <= UserStats.completedCount a)
         (Leaderboard.leaderboard board).
Proof.
  destruct (calculateLeaderboard_descending 0 Examples.twoReviews Realm.pristine)
    as [Hreturns Hsorted].
  destruct (Hreturns eq_refl) as [board Hrun].
  exists board. split; [exact Hrun|]. now apply (Hsorted board Realm.pristine).
Defined.

Section TidyFacts.

Context {V : Type}.
Implicit Types (o : JsObject.t V) (k : string).

Lemma tidy_empty : tidy (@JsObject.empty V).
Proof. split; [constructor | intros k []]. Qed.

Lemma tidy_set o k (v : V) : tidy o -> tidy (JsObject.set k v o).
Proof.
  intros [Hnd Hval]. unfold tidy, JsObject.set. simpl.
  destruct (JsObject.props o !! k) as [w|] eqn:Hw; simpl.
  - split; [exact Hnd|]. intros k' Hk'.
    destruct (decide (k = k')) as [<-|Hne];
      [rewrite lookup_insert_eq | rewrite lookup_insert_ne by exact Hne]; eauto.
  - split.
    + apply NoDup_app. split; [exact Hnd|]. split; [|apply NoDup_singleton].
      intros k' Hk' Hk. apply list_elem_of_singleton in Hk. subst k'.
      apply list_elem_of_In, Hval in Hk'. rewrite Hw in Hk'. now destruct Hk'.
    + intros k' Hk'. apply in_app_or in Hk'.
      destruct (decide (k = k')) as [<-|Hne];
        [rewrite lookup_insert_eq; eauto|].
      rewrite lookup_insert_ne by exact Hne.
      destruct Hk' as [Hk' | [Hk' | []]]; [now apply Hval | contradiction].
Qed.

Lemma tidy_update o k (f : V -> V) : tidy o -> tidy (JsObject.update k f o).
Proof.
  intros Ht. unfold JsObject.update.
  destruct (JsObject.own k o); [now apply tidy_set | exact Ht].
Qed.

Lemma tidy_ensure (fresh : User.t -> V) o a : tidy o -> tidy (ensure fresh a o).
Proof.
  intros Ht. unfold ensure. destruct (Js.truthy _); [exact Ht | now apply tidy_set].
Qed.

Lemma tidy_creditAll (fresh : User.t -> V) (record : Issue.t -> V -> V) issue o :
  tidy o -> tidy (creditAll fresh record issue o).
Proof.
  intros Ht. unfold creditAll. rewrite creditAdditional_foldl.
  assert (Hp : tidy (creditPrimary fresh record issue o)).
  { unfold creditPrimary. destruct (Issue.assignee issue); [|exact Ht].
    now apply tidy_update, tidy_ensure. }
  revert Hp. generalize (creditPrimary fresh record issue o).
  induction (assigneeList issue) as [|a l IH]; intros o' Ho'; [exact Ho'|].
  cbn [foldl]. apply IH. unfold creditAdditionalOne.
  destruct (notPrimary issue (User.login a)).
  - now apply tidy_update, tidy_ensure.
  - now apply tidy_ensure.
Qed.

Lemma tidy_key o k : tidy o -> covered o -> (In k (JsObject.keys o) <-> is_Some (JsObject.own k o)).
Proof. intros [_ Hval] Hc. split; [apply Hval | apply Hc]. Qed.

(** The values come in the order of the enumeration, one for each key. *)
Lemma values_keys (name : V -> string) o :
  tidy o ->
  (forall k v, JsObject.own k o = Some v -> name v = k) ->
  map name (JsObject.values o) = JsObject.ownKeys o.
Proof.
  intros [_ Hval] Hname. unfold JsObject.values.
  assert (Hown : forall k, In k (JsObject.ownKeys o) -> is_Some (JsObject.props o !! k))
    by (intros k Hk; now apply Hval, ownKeys_In).
  induction (JsObject.ownKeys o) as [|k ks IH]; [reflexivity|].
  cbn [omap list_omap]. destruct (Hown k) as [v Hv]; [now left|].
  rewrite Hv. cbn [map]. rewrite (Hname k v Hv). f_equal.
  apply IH. intros k' Hk'. apply Hown. now right.
Qed.

Lemma tidy_ownKeys o : tidy o -> NoDup (JsObject.ownKeys o).
Proof. intros [Hnd _]. now rewrite ownKeys_Permutation. Qed.

End TidyFacts.

Lemma names_filter issue u :
  names issue u <-> List.filter (isUser u) (mentions issue) <> [].
Proof.
  unfold names. rewrite in_map_iff. split.
  - intros (a & Ha & Hin) Hnil.
    assert (H : In a (List.filter (isUser u) (mentions issue))).
    { apply filter_In. split; [exact Hin | now apply isUser_eq]. }
    now rewrite Hnil in H.
  - destruct (List.filter (isUser u) (mentions issue)) as [|a rest] eqn:Hf;
      [congruence|]. intros _.
    assert (H : In a (List.filter (isUser u) (mentions issue))) by (rewrite Hf; now left).
    apply filter_In in H. destruct H as [Hin Ha].
    exists a. split; [now apply bool_decide_eq_true in Ha | exact Hin].
Qed.

Lemma creditsOf_names issue u : (0 < creditsOf u issue)%nat <-> names issue u.
Proof.
  rewrite names_filter. split.
  - intros Hpos Hnil. rewrite (creditsOf_unmentioned _ _ Hnil) in Hpos. lia.
  - unfold creditsOf, mentions. destruct (Issue.assignee issue) as [p|].
    + cbn [List.filter]. destruct (isUser u p); [lia|].
      destruct (List.filter (isUser u) (assigneeList issue)); [congruence | simpl; lia].
    + destruct (List.filter (isUser u) (assigneeList issue)); [congruence | simpl; lia].
Qed.

Lemma history_nil u issues :
  history u issues = [] <-> forall issue, In issue issues -> ~ names issue u.
Proof.
  unfold history. induction issues as [|issue issues IH]; cbn [flat_map].
  - split; [intros _ issue [] | reflexivity].
  - split.
    + intros H. apply app_eq_nil in H. destruct H as [H1 H2].
      intros i [<- | Hi]; [|now apply IH].
      rewrite <- creditsOf_names. destruct (creditsOf u issue); [lia | discriminate].
    + intros H. rewrite (proj2 IH) by (intros i Hi; apply H; now right).
      assert (Hc : creditsOf u issue = 0%nat).
      { pose proof (H issue (or_introl eq_refl)) as Hn.
        rewrite <- creditsOf_names in Hn. lia. }
      now rewrite Hc.
Qed.

(** The users the loop over the issues has a record for. *)
Lemma tally_present u issues :
  forall st,
  is_Some (JsObject.own u (fst (foldl tallied st issues)))
  <-> is_Some (JsObject.own u (fst st))
      \/ exists issue, In issue issues /\ names issue u.
Proof.
  induction issues as [|issue issues IH]; intros st; cbn [foldl].
  - split; [now left | intros [H | (i & [] & _)]; exact H].
  - rewrite IH, get_tallied.
    pose proof (names_filter issue u) as Hn.
    destruct (List.filter (isUser u) (mentions issue)) as [|a rest].
    + split.
      * intros [H | (i & Hi & Hu)]; [now left | right; exists i; split; [now right | exact Hu]].
      * intros [H | (i & [<- | Hi] & Hu)]; [now left | | right; eauto].
        exfalso. now apply Hn in Hu.
    + split.
      * intros _. right. exists issue. split; [now left|]. apply Hn. discriminate.
      * intros _. left. eauto.
Qed.

Lemma tallied_tidy issues :
  forall st,
  tidy (fst st) /\ covered (fst st) ->
  tidy (fst (foldl tallied st issues))
  /\ covered (fst (foldl tallied st issues)).
Proof.
  induction issues as [|issue issues IH]; intros st Hst; [exact Hst|].
  cbn [foldl]. apply IH. unfold tallied.
  destruct (hasAssignees issue); [|exact Hst]. destruct Hst as [Ht Hc].
  split.
  - now apply (tidy_creditAll newUserStats recordCompletion).
  - now apply (covered_creditAll newUserStats recordCompletion).
Qed.

(** The usernames on the leaderboard are the keys of the tally, up to the
    order. *)
Lemma leaderboard_usernames now closedIssues :
  Permutation
    (map UserStats.username
       (Leaderboard.leaderboard (leaderboardOf now closedIssues)))
    (JsObject.keys (fst (foldl tallied (JsObject.empty, 0) closedIssues))).
Proof.
  unfold leaderboardOf, leaderboardFrom. cbn [Leaderboard.leaderboard].
  rewrite map_map. cbn [withSearchUrl UserStats.username].
  rewrite (sort_Permutation byCompletedCount).
  destruct (tallied_tidy closedIssues (JsObject.empty, 0)) as [Ht _].
  { split; [apply tidy_empty | apply covered_empty]. }
  rewrite (values_keys UserStats.username); [apply ownKeys_Permutation | exact Ht|].
  intros k v Hv.
  destruct (tally_user k closedIssues (JsObject.empty, 0)) as (_ & _ & Hn).
  { intros e. cbn [fst]. now rewrite get_empty. }
  now apply Hn.
Qed.

Lemma leaderboard_user now closedIssues u :
  In u (map UserStats.username
          (Leaderboard.leaderboard (leaderboardOf now closedIssues)))
  <-> exists issue, In issue closedIssues /\ names issue u.
Proof.
  assert (Hperm : In u (map UserStats.username
                     (Leaderboard.leaderboard (leaderboardOf now closedIssues)))
                  <-> In u (JsObject.keys
                              (fst (foldl tallied (JsObject.empty, 0) closedIssues)))).
  { split; apply Permutation_in;
      [|symmetry]; apply leaderboard_usernames. }
  rewrite Hperm. clear Hperm.
  destruct (tallied_tidy closedIssues (JsObject.empty, 0)) as [Ht Hc].
  { split; [apply tidy_empty | apply covered_empty]. }
  rewrite (tidy_key _ u Ht Hc), tally_present. cbn [fst]. rewrite get_empty.
  split; [intros [[v Hv] | H]; [discriminate | exact H] | now right].
Qed.

(** One record for each login the issues name, and no other. *)
Lemma leaderboardOf_users (now : Date) (closedIssues : list Issue.t) :
  NoDup (map UserStats.username
           (Leaderboard.leaderboard (leaderboardOf now closedIssues)))
  /\ forall u,
       In u (map UserStats.username
               (Leaderboard.leaderboard (leaderboardOf now closedIssues)))
       <-> exists issue,
             In issue closedIssues /\ In u (map User.login (mentions issue)).
Proof.
  split; [|apply leaderboard_user].
  rewrite leaderboard_usernames.
  destruct (tallied_tidy closedIssues (JsObject.empty, 0)) as [[Hnd _] _];
    [|exact Hnd].
  split; [apply tidy_empty | apply covered_empty].
Qed.

(** No record has a count below one. *)
Lemma leaderboardOf_positive (now : Date) (closedIssues : list Issue.t)
    (e : UserStats.t) :
  In e (Leaderboard.leaderboard (leaderboardOf now closedIssues)) ->
  1 <= UserStats.completedCount e.
Proof.
  intros Hin. destruct (leaderboard_entry _ _ _ Hin) as [_ Hc].
  assert (Hu : exists issue, In issue closedIssues /\ names issue (UserStats.username e)).
  { apply (leaderboard_user now). now apply in_map. }
  destruct (history (UserStats.username e) closedIssues) eqn:Hh; [|simpl in Hc; lia].
  exfalso. destruct Hu as (issue & Hi & Hn).
  now apply (proj1 (history_nil _ _) Hh issue Hi).
Qed.

(** X10. Each user has at most one entry on a leaderboard that
    [calculateLeaderboard] returns, and the users with an entry are exactly
    those some issue of the input names as [assignee] or in [assignees]. *)
Theorem calculateLeaderboard_users (now : Date) (closedIssues : list Issue.t)
    (realm : Realm.t) :
  (ordinaryAssignees closedIssues = true ->
   exists board, calculateLeaderboard now closedIssues realm = (Returned board, realm))
  /\ forall board realm',
       calculateLeaderboard now closedIssues realm = (Returned board, realm') ->
       NoDup (map UserStats.username (Leaderboard.leaderboard board))
       /\ forall u,
            In u (map UserStats.username (Leaderboard.leaderboard board))
            <-> exists issue,
                  In issue closedIssues /\ In u (map User.login (mentions issue)).
Proof.
  split.
  - intros H. exists (leaderboardOf now closedIssues).
    now apply calculateLeaderboard_ordinary.
  - intros board realm' Hrun.
    apply calculateLeaderboard_Returned in Hrun. destruct Hrun as (_ & -> & _).
    apply leaderboardOf_users.
Qed.

(** X10, an instance: alice and bob. *)
Lemma calculateLeaderboard_users_witness :
  exists board,
    calculateLeaderboard 0 Examples.twoReviews Realm.pristine
    = (Returned board, Realm.pristine)
    /\ NoDup (map UserStats.username (Leaderboard.leaderboard board))
    /\ In "bob" (map UserStats.username (Leaderboard.leaderboard board)).
Proof.
  destruct (calculateLeaderboard_users 0 Examples.twoReviews Realm.pristine)
    as [Hreturns Husers].
  destruct (Hreturns eq_refl) as [board Hrun].
  destruct (Husers board Realm.pristine Hrun) as [Hnd Hin].
  exists board. split; [exact Hrun|]. split; [exact Hnd|].
  apply Hin. exists (Examples.closedIssue 1 Examples.author [Examples.alice; Examples.bob]).
  split; [now left|]. simpl. auto.
Defined.

(** X11. No entry of a leaderboard that [calculateLeaderboard] returns has
    a count below one. *)
Theorem calculateLeaderboard_positive (now : Date) (closedIssues : list Issue.t)
    (realm : Realm.t) :
  (ordinaryAssignees closedIssues = true ->
   exists board, calculateLeaderboard now closedIssues realm = (Returned board, realm))
  /\ forall board realm' e,
       calculateLeaderboard now closedIssues realm = (Returned board, realm') ->
       In e (Leaderboard.leaderboard board) ->
       1 <= UserStats.completedCount e.
Proof.
  split.
  - intros H. exists (leaderboardOf now closedIssues).
    now apply calculateLeaderboard_ordinary.
  - intros board realm' e Hrun.
    apply calculateLeaderboard_Returned in Hrun. destruct Hrun as (_ & -> & _).
    apply leaderboardOf_positive.
Qed.

(** X11, an instance. *)
Lemma calculateLeaderboard_positive_witness :
  exists board,
    calculateLeaderboard 0 Examples.twoReviews Realm.pristine
    = (Returned board, Realm.pristine)
    /\ forall e, In e (Leaderboard.leaderboard board) -> 1 <= UserStats.completedCount e.
Proof.
  destruct (calculateLeaderboard_positive 0 Examples.twoReviews Realm.pristine)
    as [Hreturns Hpositive].
  destruct (Hreturns eq_refl) as [board Hrun].
  exists board. split; [exact Hrun|]. intros e.
  now apply (Hpositive board Realm.pristine).
Defined.

Lemma forEach_tallyIssue_unassigned issues :
  forall st realm,
  forEach tallyIssue (List.filter hasAssignees issues) st realm
  = forEach tallyIssue issues st realm.
Proof.
  induction issues as [|issue issues IH]; intros st realm; [reflexivity|].
  cbn [List.filter]. destruct (hasAssignees issue) eqn:Hh.
  - cbn [forEach]. unfold bind.
    destruct (tallyIssue st issue realm) as [[st'|message] realm']; [apply IH | reflexivity].
  - cbn [forEach]. unfold bind, tallyIssue. rewrite Hh. apply IH.
Qed.

(** X13. Closed issues without any assignee leave no trace: whatever the
    other issues are, [calculateLeaderboard] does on the input what it does
    on the input with these issues removed. *)
Theorem calculateLeaderboard_unassigned (now : Date) (closedIssues : list Issue.t)
    (realm : Realm.t) :
  calculateLeaderboard now (List.filter hasAssignees closedIssues) realm
  = calculateLeaderboard now closedIssues realm.
Proof.
  unfold calculateLeaderboard, bind. now rewrite forEach_tallyIssue_unassigned.
Qed.

Lemma iter_lastCompleted issue n :
  forall e,
  UserStats.lastCompleted (Nat.iter n (recordCompletion issue) e)
  = match n with
    | O => UserStats.lastCompleted e
    | S _ => later (UserStats.lastCompleted e) (closedDate issue)
    end.
Proof.
  induction n as [|n IH]; intros e; [reflexivity|].
  rewrite Nat.iter_succ. specialize (IH e).
  set (x := Nat.iter n (recordCompletion issue) e) in *.
  unfold recordCompletion. cbn [UserStats.lastCompleted]. rewrite IH.
  destruct n as [|n].
  - destruct (UserStats.lastCompleted e) as [d0|]; [|reflexivity]. simpl.
    destruct (Z.ltb_spec d0 (closedDate issue)); f_equal; lia.
  - destruct (UserStats.lastCompleted e) as [d0|]; simpl.
    + destruct (Z.ltb_spec (Z.max d0 (closedDate issue)) (closedDate issue));
        f_equal; lia.
    + destruct (Z.ltb_spec (closedDate issue) (closedDate issue)); f_equal; lia.
Qed.

Lemma last_user u issues :
  forall st,
  lastOf (JsObject.own u (fst (foldl tallied st issues)))
  = foldl (laterIf u) (lastOf (JsObject.own u (fst st))) issues.
Proof.
  induction issues as [|issue issues IH]; intros st; [reflexivity|].
  cbn [foldl]. rewrite IH. f_equal. rewrite get_tallied. unfold laterIf.
  pose proof (creditsOf_names issue u) as Hc. rewrite names_filter in Hc.
  destruct (List.filter (isUser u) (mentions issue)) as [|a rest].
  - destruct (Nat.ltb_spec 0 (creditsOf u issue)) as [Hpos|]; [|reflexivity].
    now apply Hc in Hpos.
  - assert (Hpos : (0 < creditsOf u issue)%nat) by (apply Hc; discriminate).
    cbn [lastOf]. rewrite iter_lastCompleted.
    destruct (creditsOf u issue) as [|n]; [lia|]. simpl.
    now destruct (JsObject.own u (fst st)).
Qed.

(** The date [laterIf] leaves is the largest one seen. *)
Lemma latest_spec u issues :
  forall acc,
  match foldl (laterIf u) acc issues with
  | None => acc = None /\ forall issue, In issue issues -> ~ names issue u
  | Some d =>
      (acc = Some d
       \/ exists issue, In issue issues /\ names issue u /\ closedDate issue = d)
      /\ (forall d0, acc = Some d0 -> d0 <= d)
      /\ forall issue, In issue issues -> names issue u -> closedDate issue <= d
  end.
Proof.
  induction issues as [|issue issues IH]; intros acc; cbn [foldl].
  - destruct acc as [d|].
    + split; [now left|]. split; [intros d0 [= ->]; lia | intros issue []].
    + split; [reflexivity | intros issue []].
  - specialize (IH (laterIf u acc issue)). unfold laterIf in *.
    pose proof (creditsOf_names issue u) as Hc.
    destruct (Nat.ltb_spec 0 (creditsOf u issue)) as [Hpos | Hzero].
    + apply Hc in Hpos.
      destruct (foldl _ _ issues) as [d|].
      * destruct IH as (Hd & Hacc & Hall).
        assert (Hstep : forall d1, later acc (closedDate issue) = Some d1 ->
                  closedDate issue <= d1 /\ (forall d0, acc = Some d0 -> d0 <= d1)
                  /\ (acc = Some d1 \/ closedDate issue = d1)).
        { intros d1. destruct acc as [d0|]; simpl; intros [= <-].
          - split; [lia|]. split; [intros ? [= <-]; lia|].
            destruct (Z.max_spec d0 (closedDate issue)) as [[_ ->] | [_ ->]]; auto.
          - split; [lia|]. split; [discriminate | now right]. }
        destruct (later acc (closedDate issue)) as [d1|] eqn:Hl;
          [|destruct acc; discriminate].
        destruct (Hstep d1 eq_refl) as (H1 & H2 & H3).
        specialize (Hacc d1 eq_refl).
        split; [|split].
        -- destruct Hd as [Hd | (i & Hi & Hn & Hcd)].
           ++ injection Hd as ->. destruct H3 as [H3 | H3]; [now left|].
              right. exists issue. split; [now left | auto].
           ++ right. exists i. split; [now right | auto].
        -- intros d0 Hd0. specialize (H2 d0 Hd0). lia.
        -- intros i [<- | Hi] Hn; [lia | now apply Hall].
      * destruct IH as [Hl _]. destruct acc; discriminate.
    + destruct (foldl _ _ issues) as [d|].
      * destruct IH as (Hd & Hacc & Hall). split; [|split; [exact Hacc|]].
        -- destruct Hd as [Hd | (i & Hi & Hn & Hcd)]; [now left|].
           right. exists i. split; [now right | auto].
        -- intros i [<- | Hi] Hn; [apply Hc in Hn; lia | now apply Hall].
      * destruct IH as [Hacc Hall]. split; [exact Hacc|].
        intros i [<- | Hi] Hn; [apply Hc in Hn; lia | now apply (Hall i)].
Qed.

(** The record an entry of the leaderboard was made from. *)
Lemma leaderboard_source now closedIssues e :
  In e (Leaderboard.leaderboard (leaderboardOf now closedIssues)) ->
  exists e0,
    e = withSearchUrl e0
    /\ JsObject.own (UserStats.username e)
         (fst (foldl tallied (JsObject.empty, 0) closedIssues)) = Some e0.
Proof.
  unfold leaderboardOf, leaderboardFrom. cbn [Leaderboard.leaderboard].
  rewrite in_map_iff. intros (e0 & <- & Hin).
  apply sort_In, values_In in Hin. destruct Hin as (u & Hu).
  exists e0. split; [reflexivity|].
  destruct (tally_user u closedIssues (JsObject.empty, 0)) as (_ & _ & Hn).
  { intros e'. cbn [fst]. now rewrite get_empty. }
  cbn [withSearchUrl UserStats.username]. now rewrite (Hn e0 Hu).
Qed.

(** [lastCompleted] is the latest closing date among the issues that name
    the user. *)
Lemma leaderboardOf_lastCompleted (now : Date) (closedIssues : list Issue.t)
    (e : UserStats.t) :
  In e (Leaderboard.leaderboard (leaderboardOf now closedIssues)) ->
  exists d,
    UserStats.lastCompleted e = Some d
    /\ (exists issue,
          In issue closedIssues
          /\ In (UserStats.username e) (map User.login (mentions issue))
          /\ closedDate issue = d)
    /\ forall issue,
         In issue closedIssues ->
         In (UserStats.username e) (map User.login (mentions issue)) ->
         closedDate issue <= d.
Proof.
  intros Hin.
  assert (Hu : exists issue, In issue closedIssues /\ names issue (UserStats.username e)).
  { apply (leaderboard_user now). now apply in_map. }
  destruct (leaderboard_source _ _ _ Hin) as (e0 & He & Hget).
  pose proof (last_user (UserStats.username e) closedIssues (JsObject.empty, 0)) as Hl.
  cbn [fst] in Hl. rewrite get_empty, Hget in Hl. cbn [lastOf] in Hl.
  pose proof (latest_spec (UserStats.username e) closedIssues None) as Hs.
  rewrite <- Hl in Hs.
  assert (Hsame : UserStats.lastCompleted e = UserStats.lastCompleted e0)
    by (rewrite He; reflexivity).
  rewrite Hsame. destruct (UserStats.lastCompleted e0) as [d|].
  - destruct Hs as ([Hd | Hd] & _ & Hall); [discriminate|].
    exists d. split; [reflexivity|]. split; [exact Hd | exact Hall].
  - exfalso. destruct Hs as [_ Hnone]. destruct Hu as (issue & Hi & Hn).
    now apply (Hnone issue).
Qed.

(** X12. [lastCompleted] of an entry of a leaderboard that
    [calculateLeaderboard] returns is set, and it is the latest closing date
    among the issues that name its user as an assignee. *)
Theorem calculateLeaderboard_lastCompleted (now : Date) (closedIssues : list Issue.t)
    (realm : Realm.t) :
  (ordinaryAssignees closedIssues = true ->
   exists board, calculateLeaderboard now closedIssues realm = (Returned board, realm))
  /\ forall board realm' e,
       calculateLeaderboard now closedIssues realm = (Returned board, realm') ->
       In e (Leaderboard.leaderboard board) ->
       exists d,
         UserStats.lastCompleted e = Some d
         /\ (exists issue,
               In issue closedIssues
               /\ In (UserStats.username e) (map User.login (mentions issue))
               /\ closedDate issue = d)
         /\ forall issue,
              In issue closedIssues ->
              In (UserStats.username e) (map User.login (mentions issue)) ->
              closedDate issue <= d.
Proof.
  split.
  - intros H. exists (leaderboardOf now closedIssues).
    now apply calculateLeaderboard_ordinary.
  - intros board realm' e Hrun.
    apply calculateLeaderboard_Returned in Hrun. destruct Hrun as (_ & -> & _).
    apply leaderboardOf_lastCompleted.
Qed.

(** X12, an instance: alice's two reviews were closed at times 1 and 2. *)
Lemma calculateLeaderboard_lastCompleted_witness :
  exists board,
    calculateLeaderboard 0 Examples.twoReviews Realm.pristine
    = (Returned board, Realm.pristine)
    /\ forall e,
         In e (Leaderboard.leaderboard board) ->
         exists d,
           UserStats.lastCompleted e = Some d
           /\ forall issue,
                In issue Examples.twoReviews ->
                In (UserStats.username e) (map User.login (mentions issue)) ->
                closedDate issue <= d.
Proof.
  destruct (calculateLeaderboard_lastCompleted 0 Examples.twoReviews Realm.pristine)
    as [Hreturns Hlast].
  destruct (Hreturns eq_refl) as [board Hrun].
  exists board. split; [exact Hrun|]. intros e He.
  destruct (Hlast board Realm.pristine e Hrun He) as (d & Hd & _ & Hall).
  now exists d.
Defined.

(** ** The buddy report, continued *)

Lemma Qle_bool_total (a b : Q) : Qle_bool a b = true \/ Qle_bool b a = true.
Proof.
  rewrite !Qle_bool_iff. destruct (Qlt_le_dec a b) as [H | H]; [left | now right].
  now apply Qlt_le_weak.
Qed.

(** The entries come in descending order of [ratio]. *)
Lemma buddyReportOf_descending (now : Date) (allIssues : list Issue.t) :
  StronglySorted
    (fun a b => (BuddyEntry.ratio b <= BuddyEntry.ratio a)%Q)
    (BuddyReport.allRecipients (buddyReportOf now allIssues)).
Proof.
  unfold buddyReportOf, buddyReportFrom. cbn [BuddyReport.allRecipients].
  eapply StronglySorted_impl; [|apply (sort_sorted byRatio)].
  - intros a b H. now apply Qle_bool_iff.
  - intros a b. apply Qle_bool_total.
  - intros a b c. unfold byRatio. rewrite !Qle_bool_iff. intros H1 H2.
    now apply Qle_trans with (BuddyEntry.ratio b).
Qed.

(** X14. [calculateBuddyRatios] returns a report whenever no author, and no
    assignee of a closed issue, has an inherited name for a login, and the
    entries of a report it returns are in descending order of [ratio]. *)
Theorem calculateBuddyRatios_descending (now : Date) (allIssues : list Issue.t)
    (realm : Realm.t) :
  (ordinaryAuthors allIssues = true ->
   ordinaryAssignees (List.filter isClosed allIssues) = true ->
   exists report, calculateBuddyRatios now allIssues realm = (Returned report, realm))
  /\ forall report realm',
       calculateBuddyRatios now allIssues realm = (Returned report, realm') ->
       StronglySorted
         (fun a b => (BuddyEntry.ratio b <= BuddyEntry.ratio a)%Q)
         (BuddyReport.allRecipients report).
Proof.
  split.
  - intros Ha Hb. exists (buddyReportOf now allIssues).
    now apply calculateBuddyRatios_ordinary.
  - intros report realm' Hrun.
    apply calculateBuddyRatios_Returned in Hrun. destruct Hrun as (_ & _ & -> & _).
    apply buddyReportOf_descending.
Qed.

(** X14, an instance. *)
Lemma calculateBuddyRatios_descending_witness :
  exists report,
    calculateBuddyRatios 0 Examples.exchange Realm.pristine
    = (Returned report, Realm.pristine)
    /\ StronglySorted
         (fun a b => (BuddyEntry.ratio b <= BuddyEntry.ratio a)%Q)
         (BuddyReport.allRecipients report).
Proof.
  destruct (calculateBuddyRatios_descending 0 Examples.exchange Realm.pristine)
    as [Hreturns Hsorted].
  destruct (Hreturns eq_refl eq_refl) as [report Hrun].
  exists report. split; [exact Hrun|]. now apply (Hsorted report Realm.pristine).
Defined.

Lemma buddyUserStats_tidy allIssues : tidy (buddyUserStats allIssues).
Proof.
  unfold buddyUserStats.
  assert (H1 : tidy (foldl authorCredited (@JsObject.empty BuddyStats.t) allIssues)).
  { generalize (@tidy_empty BuddyStats.t).
    generalize (@JsObject.empty BuddyStats.t).
    induction allIssues as [|issue issues IH]; intros o Ho; [exact Ho|].
    cbn [foldl]. apply IH. unfold authorCredited.
    apply tidy_update. now apply (tidy_ensure newBuddyStats). }
  revert H1. generalize (foldl authorCredited (@JsObject.empty BuddyStats.t) allIssues).
  induction allIssues as [|issue issues IH]; intros o Ho; [exact Ho|].
  cbn [foldl]. apply IH. unfold assigneesCredited.
  destruct (_ && _); [|exact Ho].
  now apply (tidy_creditAll newBuddyStats recordConducted).
Qed.

Lemma buddyUserStats_keys allIssues :
  map BuddyStats.username (JsObject.values (buddyUserStats allIssues))
  = JsObject.ownKeys (buddyUserStats allIssues).
Proof.
  apply values_keys; [apply buddyUserStats_tidy|].
  intros k v Hv. destruct (buddyUserStats_user k allIssues) as (_ & _ & Hn).
  now apply Hn.
Qed.

Lemma sublist_map_filter {A B} (f : A -> B) (p : A -> bool) l :
  sublist (map f (List.filter p l)) (map f l).
Proof.
  induction l as [|x l IH]; simpl; [constructor|].
  destruct (p x); simpl; now constructor.
Qed.

Lemma allRecipients_usernames now allIssues :
  Permutation
    (map (fun e => BuddyStats.username (BuddyEntry.stats e))
       (BuddyReport.allRecipients (buddyReportOf now allIssues)))
    (map BuddyStats.username
       (List.filter (fun user => 0 <? BuddyStats.receivedChecks user)
          (JsObject.values (buddyUserStats allIssues)))).
Proof.
  unfold buddyReportOf, buddyReportFrom. cbn [BuddyReport.allRecipients].
  rewrite (sort_Permutation byRatio), map_map. reflexivity.
Qed.

(** One entry for each author, and no other. *)
Lemma buddyReportOf_users (now : Date) (allIssues : list Issue.t) :
  NoDup (map (fun e => BuddyStats.username (BuddyEntry.stats e))
           (BuddyReport.allRecipients (buddyReportOf now allIssues)))
  /\ forall u,
       In u (map (fun e => BuddyStats.username (BuddyEntry.stats e))
               (BuddyReport.allRecipients (buddyReportOf now allIssues)))
       <-> exists issue, In issue allIssues /\ User.login (Issue.user issue) = u.
Proof.
  split.
  - rewrite allRecipients_usernames.
    eapply sublist_NoDup; [|apply sublist_map_filter].
    rewrite buddyUserStats_keys. apply tidy_ownKeys, buddyUserStats_tidy.
  - intros u.
    assert (Hauth : (0 < authored u allIssues)%nat
                    <-> exists issue, In issue allIssues /\ User.login (Issue.user issue) = u).
    { unfold authored. split.
      - intros Hpos.
        destruct (List.filter _ allIssues) as [|issue rest] eqn:Hf; [simpl in Hpos; lia|].
        assert (Hin : In issue (List.filter (fun issue => isUser u (Issue.user issue))
                                  allIssues)) by (rewrite Hf; now left).
        apply filter_In in Hin. destruct Hin as [Hin Hu].
        exists issue. split; [exact Hin | now apply bool_decide_eq_true in Hu].
      - intros (issue & Hin & Hu).
        assert (H : In issue (List.filter (fun issue => isUser u (Issue.user issue))
                                allIssues)).
        { apply filter_In. split; [exact Hin | now apply isUser_eq]. }
        destruct (List.filter _ allIssues); [destruct H | simpl; lia]. }
    rewrite <- Hauth, in_map_iff. split.
    + intros (e & <- & Hin). apply allRecipients_In in Hin.
      destruct Hin as (s & -> & Hs & Hpos). cbn [toBuddyEntry BuddyEntry.stats].
      destruct (buddyUserStats_user (BuddyStats.username s) allIssues) as (Hr & _ & _).
      rewrite Hs in Hr. simpl in Hr. lia.
    + intros Hpos.
      destruct (allRecipients_user now allIssues u Hpos) as (e & Hin & Hu & _).
      now exists e.
Qed.

(** X15. Each user has at most one entry in a report that
    [calculateBuddyRatios] returns, and the users with an entry are exactly
    the authors of the issues. *)
Theorem calculateBuddyRatios_users (now : Date) (allIssues : list Issue.t)
    (realm : Realm.t) :
  (ordinaryAuthors allIssues = true ->
   ordinaryAssignees (List.filter isClosed allIssues) = true ->
   exists report, calculateBuddyRatios now allIssues realm = (Returned report, realm))
  /\ forall report realm',
       calculateBuddyRatios now allIssues realm = (Returned report, realm') ->
       NoDup (map (fun e => BuddyStats.username (BuddyEntry.stats e))
                (BuddyReport.allRecipients report))
       /\ forall u,
            In u (map (fun e => BuddyStats.username (BuddyEntry.stats e))
                    (BuddyReport.allRecipients report))
            <-> exists issue, In issue allIssues /\ User.login (Issue.user issue) = u.
Proof.
  split.
  - intros Ha Hb. exists (buddyReportOf now allIssues).
    now apply calculateBuddyRatios_ordinary.
  - intros report realm' Hrun.
    apply calculateBuddyRatios_Returned in Hrun. destruct Hrun as (_ & _ & -> & _).
    apply buddyReportOf_users.
Qed.

(** X15, an instance: alice and bob both opened issues. *)
Lemma calculateBuddyRatios_users_witness :
  exists report,
    calculateBuddyRatios 0 Examples.exchange Realm.pristine
    = (Returned report, Realm.pristine)
    /\ NoDup (map (fun e => BuddyStats.username (BuddyEntry.stats e))
                (BuddyReport.allRecipients report))
    /\ In "bob" (map (fun e => BuddyStats.username (BuddyEntry.stats e))
                   (BuddyReport.allRecipients report)).
Proof.
  destruct (calculateBuddyRatios_users 0 Examples.exchange Realm.pristine)
    as [Hreturns Husers].
  destruct (Hreturns eq_refl eq_refl) as [report Hrun].
  destruct (Husers report Realm.pristine Hrun) as [Hnd Hin].
  exists report. split; [exact Hrun|]. split; [exact Hnd|].
  apply Hin. exists (Examples.openIssueBy 4 Examples.bob).
  split; [|reflexivity]. simpl. auto.
Defined.

Lemma sumZ_app l1 l2 : sumZ (l1 ++ l2) = sumZ l1 + sumZ l2.
Proof. induction l1 as [|x l1 IH]; simpl; [reflexivity|]. rewrite IH. lia. Qed.

Lemma sumZ_Permutation l1 l2 : Permutation l1 l2 -> sumZ l1 = sumZ l2.
Proof. induction 1; simpl; lia. Qed.

Lemma sumZ_filter_positive l :
  Forall (fun x => 0 <= x) l -> sumZ (List.filter (fun x => 0 <? x) l) = sumZ l.
Proof.
  induction 1 as [|x l Hx _ IH]; simpl; [reflexivity|].
  destruct (Z.ltb_spec 0 x); simpl; lia.
Qed.

Lemma sumZ_of_nat {A} (f : A -> nat) l :
  sumZ (map (fun k => Z.of_nat (f k)) l) = Z.of_nat (sum_list_with f l).
Proof. induction l as [|x l IH]; simpl; [reflexivity|]. rewrite IH. lia. Qed.

Lemma sum_indicator (k0 : string) (L : list string) :
  NoDup L -> In k0 L ->
  sum_list_with (fun k => if bool_decide (k0 = k) then 1%nat else 0%nat) L = 1%nat.
Proof.
  induction 1 as [|k L Hk Hnd IH]; [intros []|].
  intros Hin. cbn [sum_list_with]. destruct (decide (k0 = k)) as [->|Hne].
  - rewrite bool_decide_eq_true_2 by reflexivity.
    assert (Hzero : forall L', ~ In k L' ->
              sum_list_with (fun k' => if bool_decide (k = k') then 1%nat else 0%nat) L'
              = 0%nat).
    { induction L' as [|k' L' IH']; [reflexivity|]. intros Hnot.
      cbn [sum_list_with]. rewrite bool_decide_eq_false_2.
      - rewrite IH'; [reflexivity|]. intros H. apply Hnot. now right.
      - intros ->. apply Hnot. now left. }
    rewrite Hzero; [reflexivity|]. intros H. now apply Hk, list_elem_of_In.
  - rewrite bool_decide_eq_false_2 by exact Hne.
    destruct Hin as [-> | Hin]; [congruence|]. now rewrite IH.
Qed.

(** Counting the issues author by author counts each issue once. *)
Lemma authored_total (L : list string) issues :
  NoDup L ->
  (forall issue, In issue issues -> In (User.login (Issue.user issue)) L) ->
  sum_list_with (fun k => authored k issues) L = length issues.
Proof.
  intros Hnd. induction issues as [|issue issues IH]; intros Hcov.
  - unfold authored. simpl. clear.
    induction L as [|k L IHL]; [reflexivity | exact IHL].
  - assert (Hsplit : forall L',
      sum_list_with (fun k => authored k (issue :: issues)) L'
      = (sum_list_with
           (fun k => if bool_decide (User.login (Issue.user issue) = k)
                     then 1%nat else 0%nat) L'
         + sum_list_with (fun k => authored k issues) L')%nat).
    { induction L' as [|k L' IH']; [reflexivity|]. cbn [sum_list_with].
      rewrite IH'. unfold authored at 1. cbn [List.filter]. unfold isUser at 1.
      destruct (bool_decide (User.login (Issue.user issue) = k)); simpl;
        unfold authored; lia. }
    rewrite Hsplit, sum_indicator, IH; [reflexivity | | exact Hnd |].
    + intros i Hi. apply Hcov. now right.
    + apply Hcov. now left.
Qed.

Lemma values_map {V} (f : V -> Z) (o : JsObject.t V) :
  tidy o ->
  map f (JsObject.values o)
  = map (fun k => match JsObject.own k o with Some v => f v | None => 0 end)
      (JsObject.ownKeys o).
Proof.
  intros [_ Hval]. unfold JsObject.values, JsObject.own.
  assert (Hown : forall k, In k (JsObject.ownKeys o) -> is_Some (JsObject.props o !! k))
    by (intros k Hk; now apply Hval, ownKeys_In).
  induction (JsObject.ownKeys o) as [|k ks IH]; [reflexivity|].
  cbn [omap list_omap map]. destruct (Hown k) as [v Hv]; [now left|].
  rewrite Hv. cbn [map]. f_equal. apply IH. intros k' Hk'. apply Hown. now right.
Qed.

(** The [receivedChecks] of the entries add up to the number of issues. *)
Lemma buddyReportOf_received_total (now : Date) (allIssues : list Issue.t) :
  sumZ (map (fun e => BuddyStats.receivedChecks (BuddyEntry.stats e))
          (BuddyReport.allRecipients (buddyReportOf now allIssues)))
  = BuddyReport.totalIssues (buddyReportOf now allIssues).
Proof.
  unfold buddyReportOf, buddyReportFrom.
  cbn [BuddyReport.allRecipients BuddyReport.totalIssues].
  rewrite (sumZ_Permutation _ _
             (Permutation_map _ (sort_Permutation byRatio _))).
  set (vals := JsObject.values (buddyUserStats allIssues)).
  transitivity
    (sumZ (map BuddyStats.receivedChecks
             (List.filter (fun user => 0 <? BuddyStats.receivedChecks user) vals))).
  { now rewrite map_map. }
  assert (Hrec : map BuddyStats.receivedChecks vals
                 = map (fun k => Z.of_nat (authored k allIssues))
                     (JsObject.ownKeys (buddyUserStats allIssues))).
  { unfold vals. rewrite (values_map _ _ (buddyUserStats_tidy allIssues)).
    apply map_ext. intros k.
    destruct (buddyUserStats_user k allIssues) as (Hr & _ & _).
    now destruct (JsObject.own k (buddyUserStats allIssues)). }
  assert (Hfilter : map BuddyStats.receivedChecks
                      (List.filter (fun user => 0 <? BuddyStats.receivedChecks user) vals)
                    = List.filter (fun x => 0 <? x) (map BuddyStats.receivedChecks vals)).
  { clear. induction vals as [|v vals IH]; simpl; [reflexivity|].
    destruct (0 <? BuddyStats.receivedChecks v); simpl; now rewrite IH. }
  rewrite Hfilter, sumZ_filter_positive, Hrec, sumZ_of_nat.
  - f_equal. apply authored_total; [apply tidy_ownKeys, buddyUserStats_tidy|].
    intros issue Hin. apply ownKeys_In, buddyUserStats_covered.
    destruct (buddyUserStats_user (User.login (Issue.user issue)) allIssues)
      as (Hr & _ & _).
    assert (Hpos : (0 < authored (User.login (Issue.user issue)) allIssues)%nat).
    { unfold authored.
      assert (H : In issue (List.filter
                (fun i => isUser (User.login (Issue.user issue)) (Issue.user i))
                allIssues)).
      { apply filter_In. split; [exact Hin | now apply isUser_eq]. }
      destruct (List.filter _ allIssues); [destruct H | simpl; lia]. }
    unfold JsObject.own in Hr.
    destruct (JsObject.props (buddyUserStats allIssues) !! _); [eauto|].
    simpl in Hr. lia.
  - rewrite Hrec, List.Forall_forall. intros x Hx.
    apply in_map_iff in Hx. destruct Hx as (k & <- & _). lia.
Qed.

(** X16. The [receivedChecks] of the entries of a report that
    [calculateBuddyRatios] returns add up to its [totalIssues]: every issue
    is counted for exactly one recipient. *)
Theorem calculateBuddyRatios_received_total (now : Date) (allIssues : list Issue.t)
    (realm : Realm.t) :
  (ordinaryAuthors allIssues = true ->
   ordinaryAssignees (List.filter isClosed allIssues) = true ->
   exists report, calculateBuddyRatios now allIssues realm = (Returned report, realm))
  /\ forall report realm',
       calculateBuddyRatios now allIssues realm = (Returned report, realm') ->
       sumZ (map (fun e => BuddyStats.receivedChecks (BuddyEntry.stats e))
               (BuddyReport.allRecipients report))
       = BuddyReport.totalIssues report
       /\ BuddyReport.totalIssues report = Z.of_nat (length allIssues).
Proof.
  split.
  - intros Ha Hb. exists (buddyReportOf now allIssues).
    now apply calculateBuddyRatios_ordinary.
  - intros report realm' Hrun.
    apply calculateBuddyRatios_Returned in Hrun. destruct Hrun as (_ & _ & -> & _).
    split; [apply buddyReportOf_received_total | reflexivity].
Qed.

(** X16, an instance: five issues, three opened by alice and two by bob. *)
Lemma calculateBuddyRatios_received_total_witness :
  exists report,
    calculateBuddyRatios 0 Examples.exchange Realm.pristine
    = (Returned report, Realm.pristine)
    /\ sumZ (map (fun e => BuddyStats.receivedChecks (BuddyEntry.stats e))
               (BuddyReport.allRecipients report)) = 5.
Proof.
  destruct (calculateBuddyRatios_received_total 0 Examples.exchange Realm.pristine)
    as [Hreturns Htotal].
  destruct (Hreturns eq_refl eq_refl) as [report Hrun].
  destruct (Htotal report Realm.pristine Hrun) as [Hsum Hlen].
  exists report. split; [exact Hrun|]. now rewrite Hsum, Hlen.
Defined.

(** ** Formatting and reading back an identifier *)

Lemma range_check (f : Z -> bool) (lo len : Z) :
  forallb f (map (fun i => lo + Z.of_nat i) (seq 0 (Z.to_nat len))) = true ->
  forall z, lo <= z < lo + len -> f z = true.
Proof.
  intros H z Hz. rewrite forallb_forall in H. apply H.
  apply in_map_iff. exists (Z.to_nat (z - lo)). split; [lia|]. apply in_seq. lia.
Qed.

Lemma yearShown_range y : 1000 <= y <= 9999 -> yearShown y = true.
Proof.
  intros Hy. apply (range_check yearShown 1000 9000); [vm_compute; reflexivity | lia].
Qed.

Lemma numberPadded_range n : 1 <= n <= 999 -> numberPadded n = true.
Proof.
  intros Hn. apply (range_check numberPadded 1 999); [vm_compute; reflexivity | lia].
Qed.

Lemma numberTooLong_range n : 1000 <= n <= 9999 -> numberTooLong n = true.
Proof.
  intros Hn. apply (range_check numberTooLong 1000 9000); [vm_compute; reflexivity | lia].
Qed.

Lemma matchAt_nondigit k re c s :
  isDigit c = false -> matchAt (Digits (S k) :: re) (String c s) = None.
Proof. intros Hc. simpl. now rewrite Hc. Qed.

Lemma scan_no_digits k re s :
  noDigits s = true -> scan (Digits (S k) :: re) 0 s = [].
Proof.
  induction s as [|c s IH]; [reflexivity|].
  unfold noDigits. cbn [allChars]. intros H. apply andb_true_iff in H.
  destruct H as [Hc Hs]. apply negb_true_iff in Hc.
  cbn [scan]. rewrite (matchAt_nondigit _ _ _ _ Hc). now apply IH.
Qed.

Lemma scan_nondigit_prefix k re before s :
  noDigits before = true ->
  scan (Digits (S k) :: re) 0 (before +:+ s) = scan (Digits (S k) :: re) 0 s.
Proof.
  induction before as [|c before IH]; norm_append; [reflexivity|].
  unfold noDigits. cbn [allChars]. intros H. apply andb_true_iff in H.
  destruct H as [Hc Hs]. apply negb_true_iff in Hc.
  cbn [scan]. rewrite (matchAt_nondigit _ _ _ _ Hc). now apply IH.
Qed.

(** A title made of a digit-free text, one year-dash-number text and a
    rest in which the pattern does not match. *)
Lemma extractFromTitle_dashed before year suffix after :
  noDigits before = true ->
  allDigits year = true -> String.length year = 4%nat ->
  allDigits suffix = true -> String.length suffix = 3%nat ->
  scan [Digits 4; Dash; Digits 3] 0 after = [] ->
  extractFromTitle patterns (before +:+ (year +:+ String dash suffix) +:+ after)
  = omap identifierOf [year +:+ String dash suffix].
Proof.
  intros Hb Hy Hly Hs Hls Hafter.
  unfold patterns. cbn [extractFromTitle]. unfold String_match.
  rewrite scan_nondigit_prefix by exact Hb.
  rewrite scan_head, Hafter; [reflexivity | |].
  - exists year, (String dash suffix). split; [reflexivity|].
    split; [exact Hly|]. split; [exact Hy|].
    exists suffix. split; [reflexivity|].
    exists suffix, EmptyString. rewrite append_nil_r. repeat split; assumption.
  - destruct year; [discriminate Hly | discriminate].
Qed.

Lemma formatIdentifier_parts year n :
  formatIdentifier year n
  = Js.showZ year +:+ String dash (padStart identifierPadding "0" (Js.showZ n)).
Proof. reflexivity. Qed.

Lemma identifierOf_kept n m :
  0 < n < 10000 ->
  identifierOf m = (if (0 <? n) && (n <? 10000) then Some n else None) ->
  identifierOf m = Some n.
Proof.
  intros Hn ->. destruct (Z.ltb_spec 0 n); [|lia].
  destruct (Z.ltb_spec n 10000); [reflexivity | lia].
Qed.

(** X17. An identifier below 1000 that [formatIdentifier] writes in a
    four-digit year is read back by the extraction: a title that holds it
    between texts without digits yields exactly that number. *)
Theorem formatIdentifier_read_back (year n : Z) (before after : string) :
  1000 <= year <= 9999 -> 1 <= n <= 999 ->
  noDigits before = true -> noDigits after = true ->
  extractFromTitle patterns (before +:+ formatIdentifier year n +:+ after) = [n].
Proof.
  intros Hyear Hn Hb Ha.
  pose proof (yearShown_range year Hyear) as Hy.
  pose proof (numberPadded_range n Hn) as Hp.
  unfold yearShown in Hy. unfold numberPadded in Hp.
  apply andb_true_iff in Hy. destruct Hy as [Hy Hly]. apply Nat.eqb_eq in Hly.
  apply andb_true_iff in Hp. destruct Hp as [Hp Hdec].
  apply andb_true_iff in Hp. destruct Hp as [Hp Hlp].
  apply Nat.eqb_eq in Hlp. apply Z.eqb_eq in Hdec.
  rewrite formatIdentifier_parts.
  rewrite extractFromTitle_dashed; auto using scan_no_digits.
  cbn [omap list_omap].
  rewrite (identifierOf_kept n); [reflexivity | lia |].
  pose proof (identifierOf_dashed (Js.showZ year)
                (padStart identifierPadding "0" (Js.showZ n)) Hy Hp) as Hid.
  rewrite Hdec in Hid. apply Hid.
  intros Hempty. rewrite Hempty in Hlp. discriminate.
Qed.

(** X17, an instance: the third identifier of 2025 in a usual title. *)
Lemma formatIdentifier_read_back_witness :
  extractFromTitle patterns ("Smith et al. | " +:+ formatIdentifier 2025 3 +:+ " (draft)")
  = [3].
Proof.
  apply (formatIdentifier_read_back 2025 3); try reflexivity; lia.
Defined.

Lemma scan_after_digit d after :
  noDigits after = true -> scan [Digits 4; Dash; Digits 3] 0 (String d after) = [].
Proof.
  intros Ha. cbn [scan].
  assert (Hnone : matchAt [Digits 4; Dash; Digits 3] (String d after) = None).
  { cbn [matchAt matchDigits]. destruct (isDigit d); [|reflexivity].
    destruct after as [|c after]; [reflexivity|].
    unfold noDigits in Ha. cbn [allChars] in Ha. apply andb_true_iff in Ha.
    destruct Ha as [Hc _]. apply negb_true_iff in Hc. now rewrite Hc. }
  rewrite Hnone. now apply scan_no_digits.
Qed.

(** X18. From 1000 on the identifier is not read back: the pattern takes
    the year, the dash and three digits, so a title that holds the
    identifier [n] (1000 to 9999) between texts without digits yields [n]
    without its last digit. *)
Theorem formatIdentifier_misread (year n : Z) (before after : string) :
  1000 <= year <= 9999 -> 1000 <= n <= 9999 ->
  noDigits before = true -> noDigits after = true ->
  extractFromTitle patterns (before +:+ formatIdentifier year n +:+ after)
  = [n / 10].
Proof.
  intros Hyear Hn Hb Ha.
  pose proof (yearShown_range year Hyear) as Hy.
  pose proof (numberTooLong_range n Hn) as Hp.
  unfold yearShown in Hy. unfold numberTooLong in Hp.
  apply andb_true_iff in Hy. destruct Hy as [Hy Hly]. apply Nat.eqb_eq in Hly.
  rewrite formatIdentifier_parts.
  destruct (padStart identifierPadding "0" (Js.showZ n))
    as [|a [|b [|c [|d [|? ?]]]]]; try discriminate.
  apply andb_true_iff in Hp. destruct Hp as [Hp Hdec]. apply Z.eqb_eq in Hdec.
  assert (Habc : allDigits (String a (String b (String c EmptyString))) = true).
  { cbn [allDigits] in *.
    destruct (isDigit a), (isDigit b), (isDigit c); simpl in *; congruence. }
  replace (before +:+ (Js.showZ year
             +:+ String dash (String a (String b (String c (String d EmptyString)))))
           +:+ after)
    with (before +:+ (Js.showZ year
             +:+ String dash (String a (String b (String c EmptyString))))
           +:+ String d after)
    by (now rewrite !append_assoc).
  rewrite extractFromTitle_dashed; auto using scan_after_digit.
  cbn [omap list_omap].
  rewrite (identifierOf_kept (n / 10)); [reflexivity | |].
  - split; [apply Z.div_str_pos; lia | apply Z.div_lt_upper_bound; lia].
  - rewrite <- Hdec. apply identifierOf_dashed; auto; discriminate.
Qed.

(** X18, an instance: 2025-1000 is read as 100. *)
Lemma formatIdentifier_misread_witness :
  extractFromTitle patterns ("Smith et al. | " +:+ formatIdentifier 2025 1000 +:+ EmptyString)
  = [1000 / 10].
Proof.
  apply (formatIdentifier_misread 2025 1000); try reflexivity; lia.
Defined.

(** ** Allocating, using and allocating again *)

Lemma extractCertificateIdentifiers_strict issues :
  StronglySorted Z.lt (extractCertificateIdentifiers issues).
Proof.
  unfold extractCertificateIdentifiers.
  apply StronglySorted_strict; [apply sort_ascending|].
  rewrite sort_Permutation. apply setOf_NoDup.
Qed.

Lemma extractCertificateIdentifiers_positive issues :
  Forall (fun u => 0 < u) (extractCertificateIdentifiers issues).
Proof.
  rewrite List.Forall_forall. intros n Hn.
  apply extractCertificateIdentifiers_In in Hn. destruct Hn as (issue & _ & Hn).
  pose proof (extractFromTitle_range (Issue.title issue) patterns) as H.
  rewrite List.Forall_forall in H. apply H in Hn. lia.
Qed.

(** The identifier allocated for a register: the least positive number
    its titles do not yield. *)
Lemma next_least issues :
  0 < calculateNextIdentifier (extractCertificateIdentifiers issues)
  /\ ~ In (calculateNextIdentifier (extractCertificateIdentifiers issues))
          (extractCertificateIdentifiers issues)
  /\ forall k,
       0 < k < calculateNextIdentifier (extractCertificateIdentifiers issues) ->
       In k (extractCertificateIdentifiers issues).
Proof.
  apply calculateNextIdentifier_spec;
    [apply extractCertificateIdentifiers_strict
    | apply extractCertificateIdentifiers_positive].
Qed.

Lemma extractCertificateIdentifiers_snoc issues issue k :
  In k (extractCertificateIdentifiers (issues ++ [issue]))
  <-> In k (extractCertificateIdentifiers issues)
      \/ In k (extractFromTitle patterns (Issue.title issue)).
Proof.
  rewrite !extractCertificateIdentifiers_In. split.
  - intros (i & Hi & Hk). apply in_app_or in Hi.
    destruct Hi as [Hi | [<- | []]]; [left; eauto | now right].
  - intros [(i & Hi & Hk) | Hk].
    + exists i. split; [apply in_or_app; now left | exact Hk].
    + exists issue. split; [apply in_or_app; right; now left | exact Hk].
Qed.

(** X19. Below 1000 the allocation moves on: once an issue whose title
    holds the allocated identifier (between texts without digits) is
    added, the next allocation is larger. *)
Theorem allocation_advances (issues : list Issue.t) (issue : Issue.t)
    (year : Z) (before after : string) :
  1000 <= year <= 9999 ->
  noDigits before = true -> noDigits after = true ->
  calculateNextIdentifier (extractCertificateIdentifiers issues) <= 999 ->
  Issue.title issue
  = before
    +:+ formatCertificateIdentifier year
          (calculateNextIdentifier (extractCertificateIdentifiers issues))
    +:+ after ->
  calculateNextIdentifier (extractCertificateIdentifiers issues)
  < calculateNextIdentifier (extractCertificateIdentifiers (issues ++ [issue])).
Proof.
  intros Hyear Hb Ha Hsmall Htitle.
  destruct (next_least issues) as (Hpos & _ & Hbelow).
  destruct (next_least (issues ++ [issue])) as (_ & Hnot' & _).
  set (next := calculateNextIdentifier (extractCertificateIdentifiers issues)) in *.
  set (next' := calculateNextIdentifier
                  (extractCertificateIdentifiers (issues ++ [issue]))) in *.
  assert (Hread : extractFromTitle patterns (Issue.title issue) = [next]).
  { rewrite Htitle. apply formatIdentifier_read_back; auto. lia. }
  destruct (Z.lt_trichotomy next next') as [Hlt | [Heq | Hgt]]; [exact Hlt | |];
    exfalso; apply Hnot', extractCertificateIdentifiers_snoc.
  - right. rewrite Hread, <- Heq. now left.
  - left. apply Hbelow.
    destruct (next_least (issues ++ [issue])) as (Hpos' & _ & _). fold next' in Hpos'.
    lia.
Qed.

(** X19, an instance: after 2025-001 and 2025-002 the identifier 3 is
    allocated; once it is used the allocation is past 3. *)
Lemma allocation_advances_witness :
  calculateNextIdentifier (extractCertificateIdentifiers Register.begun)
  < calculateNextIdentifier
      (extractCertificateIdentifiers
         (Register.begun ++ [Examples.titled "Miller | 2025-003"])).
Proof.
  apply (allocation_advances Register.begun (Examples.titled "Miller | 2025-003")
           2025 "Miller | " EmptyString).
  - lia.
  - reflexivity.
  - reflexivity.
  - vm_compute. discriminate.
  - reflexivity.
Defined.

(** X20. From 1000 on the allocation is stuck: the title of the issue
    that uses the allocated identifier is read as a smaller number, which
    is taken already, so the same identifier is allocated again. *)
Theorem allocation_stuck (issues : list Issue.t) (issue : Issue.t)
    (year : Z) (before after : string) :
  1000 <= year <= 9999 ->
  noDigits before = true -> noDigits after = true ->
  1000 <= calculateNextIdentifier (extractCertificateIdentifiers issues) <= 9999 ->
  Issue.title issue
  = before
    +:+ formatCertificateIdentifier year
          (calculateNextIdentifier (extractCertificateIdentifiers issues))
    +:+ after ->
  calculateNextIdentifier (extractCertificateIdentifiers (issues ++ [issue]))
  = calculateNextIdentifier (extractCertificateIdentifiers issues).
Proof.
  intros Hyear Hb Ha Hlarge Htitle.
  destruct (next_least issues) as (Hpos & Hnot & Hbelow).
  destruct (next_least (issues ++ [issue])) as (Hpos' & Hnot' & Hbelow').
  set (next := calculateNextIdentifier (extractCertificateIdentifiers issues)) in *.
  set (next' := calculateNextIdentifier
                  (extractCertificateIdentifiers (issues ++ [issue]))) in *.
  assert (Hread : extractFromTitle patterns (Issue.title issue) = [next / 10]).
  { rewrite Htitle. apply formatIdentifier_misread; auto. }
  assert (Hsame : forall k,
            In k (extractCertificateIdentifiers (issues ++ [issue]))
            <-> In k (extractCertificateIdentifiers issues)).
  { intros k. rewrite extractCertificateIdentifiers_snoc, Hread. split; [|now left].
    intros [H | [<- | []]]; [exact H|]. apply Hbelow.
    split; [apply Z.div_str_pos; lia | apply Z.div_lt; lia]. }
  destruct (Z.lt_trichotomy next next') as [Hlt | [Heq | Hgt]]; [|now symmetry|].
  - exfalso. apply Hnot, Hsame, Hbelow'. lia.
  - exfalso. apply Hnot', Hsame, Hbelow. lia.
Qed.

(** X20, an instance: with 2025-001 to 2025-999 taken, 1000 is allocated,
    and allocated again after an issue titled 2025-1000 is added. *)
Lemma allocation_stuck_witness :
  calculateNextIdentifier
    (extractCertificateIdentifiers
       (Register.full ++ [Examples.titled (formatIdentifier 2025 1000)]))
  = calculateNextIdentifier (extractCertificateIdentifiers Register.full).
Proof.
  apply (allocation_stuck Register.full (Examples.titled (formatIdentifier 2025 1000))
           2025 EmptyString EmptyString).
  - lia.
  - reflexivity.
  - reflexivity.
  - vm_compute. split; discriminate.
  - reflexivity.
Defined.

(** ** Lines of the codecheckers table *)

Lemma joinComma_snoc fields f :
  fields <> [] -> joinComma (fields ++ [f]) = joinComma fields +:+ String comma f.
Proof.
  induction fields as [|g fields IH]; [congruence|]. intros _.
  destruct fields as [|h fields]; [reflexivity|].
  change (joinComma ((g :: h :: fields) ++ [f]))
    with (g +:+ String comma (joinComma ((h :: fields) ++ [f]))).
  rewrite IH by discriminate.
  change (joinComma (g :: h :: fields))
    with (g +:+ String comma (joinComma (h :: fields))).
  now rewrite append_assoc.
Qed.

Lemma joinComma_last fields f s :
  joinComma (fields ++ [f +:+ s]) = joinComma (fields ++ [f]) +:+ s.
Proof.
  destruct fields as [|g fields]; [reflexivity|].
  rewrite !joinComma_snoc by discriminate. rewrite append_assoc. norm_append.
  reflexivity.
Qed.

Lemma includes_append c a b :
  String_includes c (a +:+ b) = String_includes c a || String_includes c b.
Proof.
  induction a as [|x a IH]; norm_append; [reflexivity|]. simpl.
  now rewrite IH, orb_assoc.
Qed.

Lemma parseCSVFrom_plain line :
  String_includes quote line = false ->
  forall result current,
  joinComma (parseCSVFrom line result current false)
  = joinComma (result ++ [current]) +:+ line.
Proof.
  induction line as [|c line IH]; intros Hq result current.
  - cbn [parseCSVFrom]. now rewrite append_nil_r.
  - cbn [String_includes] in Hq. apply orb_false_iff in Hq. destruct Hq as [Hc Hq].
    cbn [parseCSVFrom]. rewrite Hc.
    destruct (Ascii.eqb_spec c comma) as [->|Hne]; cbn [andb negb].
    + rewrite IH by exact Hq. rewrite joinComma_snoc by (destruct result; discriminate).
      now rewrite append_assoc.
    + rewrite IH by exact Hq. rewrite joinComma_last, append_assoc. reflexivity.
Qed.

(** On a line without double quotes no field that is read holds a comma. *)
Lemma parseCSVFrom_cut line :
  String_includes quote line = false ->
  forall result current,
  Forall (fun f => String_includes comma f = false) result ->
  String_includes comma current = false ->
  Forall (fun f => String_includes comma f = false)
    (parseCSVFrom line result current false).
Proof.
  induction line as [|c line IH]; intros Hq result current Hr Hc.
  - cbn [parseCSVFrom]. apply Forall_app. split; [exact Hr | now constructor].
  - cbn [String_includes] in Hq. apply orb_false_iff in Hq. destruct Hq as [Hcq Hq].
    cbn [parseCSVFrom]. rewrite Hcq.
    destruct (Ascii.eqb c comma) eqn:Hcc; cbn [andb negb].
    + apply IH; [exact Hq | | reflexivity].
      apply Forall_app. split; [exact Hr | now constructor].
    + apply IH; [exact Hq | exact Hr |].
      rewrite includes_append, Hc. simpl. now rewrite Hcc.
Qed.

(** X21. A line without double quotes is cut at its commas and nowhere
    else: no field holds a comma, and joining the fields with commas gives
    the line back. *)
Theorem parseCSVLine_join (line : string) :
  String_includes quote line = false ->
  Forall (fun f => String_includes comma f = false) (parseCSVLine line)
  /\ joinComma (parseCSVLine line) = line.
Proof.
  intros Hq. unfold parseCSVLine. split.
  - apply parseCSVFrom_cut; [exact Hq | constructor | reflexivity].
  - now rewrite parseCSVFrom_plain.
Qed.

(** X21, an instance: four fields, the third one empty. *)
Lemma parseCSVLine_join_witness :
  Forall (fun f => String_includes comma f = false) (parseCSVLine "Ada,@ada,,R")
  /\ joinComma (parseCSVLine "Ada,@ada,,R") = "Ada,@ada,,R".
Proof. apply (parseCSVLine_join "Ada,@ada,,R"). reflexivity. Defined.

Lemma parseCSVFrom_clean line :
  forall result current inQuotes,
  Forall (fun f => String_includes quote f = false) result ->
  String_includes quote current = false ->
  Forall (fun f => String_includes quote f = false)
    (parseCSVFrom line result current inQuotes)
  /\ parseCSVFrom line result current inQuotes <> [].
Proof.
  induction line as [|c line IH]; intros result current inQuotes Hr Hc.
  - cbn [parseCSVFrom]. split; [|destruct result; discriminate].
    apply Forall_app. split; [exact Hr | now constructor].
  - cbn [parseCSVFrom]. destruct (Ascii.eqb c quote) eqn:Hcq; [now apply IH|].
    destruct (Ascii.eqb c comma && negb inQuotes).
    + apply IH; [|reflexivity]. apply Forall_app. split; [exact Hr | now constructor].
    + apply IH; [exact Hr|]. rewrite includes_append, Hc. simpl.
      now rewrite Hcq.
Qed.

(** X22. Whatever the line, [parseCSVLine] returns at least one field and
    no field holds a double quote: quotes only switch the reading of
    commas, a doubled quote inside a quoted field included. *)
Theorem parseCSVLine_fields (line : string) :
  parseCSVLine line <> []
  /\ Forall (fun f => String_includes quote f = false) (parseCSVLine line).
Proof.
  destruct (parseCSVFrom_clean line [] EmptyString false) as [H1 H2];
    [constructor | reflexivity |]. now split.
Qed.

Lemma parseCSVFrom_inside s :
  String_includes quote s = false ->
  forall rest result current,
  parseCSVFrom (s +:+ rest) result current true
  = parseCSVFrom rest result (current +:+ s) true.
Proof.
  induction s as [|c s IH]; intros Hq rest result current; norm_append.
  - now rewrite append_nil_r.
  - cbn [String_includes] in Hq. apply orb_false_iff in Hq. destruct Hq as [Hc Hq].
    cbn [parseCSVFrom]. rewrite Hc. cbn [negb]. rewrite andb_false_r.
    rewrite IH by exact Hq. rewrite append_assoc. reflexivity.
Qed.

Lemma parseCSVFrom_quoted f rest result :
  String_includes quote f = false ->
  parseCSVFrom (quoted f +:+ rest) result EmptyString false
  = parseCSVFrom rest result f false.
Proof.
  intros Hq. unfold quoted. norm_append. cbn [parseCSVFrom].
  rewrite (proj2 (Ascii.eqb_eq quote quote) eq_refl). cbn [negb].
  rewrite append_assoc, parseCSVFrom_inside by exact Hq.
  norm_append. cbn [parseCSVFrom].
  now rewrite (proj2 (Ascii.eqb_eq quote quote) eq_refl).
Qed.

Lemma parseCSVFrom_quoted_fields fields :
  Forall (fun f => String_includes quote f = false) fields ->
  fields <> [] ->
  forall result,
  parseCSVFrom (joinComma (map quoted fields)) result EmptyString false
  = result ++ fields.
Proof.
  induction 1 as [|f fields Hf Hfs IH]; [congruence|]. intros _ result.
  destruct fields as [|g fields].
  - cbn [map joinComma]. rewrite <- (append_nil_r (quoted f)).
    now rewrite parseCSVFrom_quoted.
  - change (joinComma (map quoted (f :: g :: fields)))
      with (quoted f +:+ String comma (joinComma (map quoted (g :: fields)))).
    rewrite parseCSVFrom_quoted by exact Hf. cbn [parseCSVFrom].
    change (Ascii.eqb comma quote) with false.
    rewrite (proj2 (Ascii.eqb_eq comma comma) eq_refl). cbn [andb negb].
    rewrite IH by discriminate. now rewrite <- app_assoc.
Qed.

(** X23. Fields written between double quotes and joined with commas are
    read back as they were, whatever commas they hold themselves, as long
    as they hold no double quote. *)
Theorem parseCSVLine_quoted (fields : list string) :
  fields <> [] ->
  Forall (fun f => String_includes quote f = false) fields ->
  parseCSVLine (joinComma (map quoted fields)) = fields.
Proof.
  intros Hne Hq. unfold parseCSVLine. now rewrite parseCSVFrom_quoted_fields.
Qed.

(** X23, an instance: a field with commas inside. *)
Lemma parseCSVLine_quoted_witness :
  parseCSVLine (joinComma (map quoted ["Ada"; "R, Python"; "ecology, hydrology"]))
  = ["Ada"; "R, Python"; "ecology, hydrology"].
Proof.
  apply (parseCSVLine_quoted ["Ada"; "R, Python"; "ecology, hydrology"]).
  - discriminate.
  - repeat constructor.
Defined.

(** ** Relative times *)

(** X24. For a date 360 to 364 days back [getTimeAgo] answers
    "0 years ago": twelve months of thirty days are over, a year of 365 days
    is not. *)
Theorem getTimeAgo_zero_years (now date : Date) :
  360 * dayMs <= now - date < 365 * dayMs ->
  getTimeAgo now date = "0 years ago".
Proof.
  unfold dayMs, getTimeAgo. intros H.
  set (diffDays := (now - date) / (1000 * 60 * 60 * 24)).
  assert (Hd : 360 <= diffDays <= 364).
  { unfold diffDays. split.
    - apply Z.div_le_lower_bound; lia.
    - cut ((now - date) / (1000 * 60 * 60 * 24) < 365); [lia|].
      apply Z.div_lt_upper_bound; lia. }
  assert (Hm : diffDays / 30 = 12).
  { symmetry. apply Z.div_unique with (diffDays - 360); lia. }
  assert (Hy : diffDays / 365 = 0) by (apply Z.div_small; lia).
  destruct (Z.eqb_spec diffDays 0); [lia|].
  destruct (Z.eqb_spec diffDays 1); [lia|].
  destruct (Z.ltb_spec diffDays 30); [lia|].
  rewrite Hm, Hy. reflexivity.
Qed.

(** X24, an instance: 361 days. *)
Lemma getTimeAgo_zero_years_witness :
  getTimeAgo (361 * dayMs) 0 = "0 years ago".
Proof. apply (getTimeAgo_zero_years (361 * dayMs) 0). unfold dayMs. lia. Defined.

(** X25. For a date that lies ahead of the clock [getTimeAgo] answers with
    a negative number of days. *)
Theorem getTimeAgo_future (now date : Date) :
  now < date ->
  (now - date) / dayMs < 0
  /\ getTimeAgo now date = Js.showZ ((now - date) / dayMs) +:+ " days ago".
Proof.
  unfold dayMs, getTimeAgo. intros H.
  set (diffDays := (now - date) / (1000 * 60 * 60 * 24)).
  assert (Hd : diffDays < 0).
  { unfold diffDays. apply Z.div_lt_upper_bound; lia. }
  split; [exact Hd|].
  destruct (Z.eqb_spec diffDays 0); [lia|].
  destruct (Z.eqb_spec diffDays 1); [lia|].
  destruct (Z.ltb_spec diffDays 30); [reflexivity | lia].
Qed.

(** X25, an instance: an issue created one second ahead of the clock. *)
Lemma getTimeAgo_future_witness : getTimeAgo 0 1000 = "-1 days ago".
Proof.
  destruct (getTimeAgo_future 0 1000) as [_ H]; [lia|]. exact H.
Defined.
(** ** The codecheckers table *)





(** ** The leaderboard and the buddy report side by side *)

Lemma history_closed u issues :
  length (history u (List.filter isClosed issues)) = conducted u issues.
Proof.
  unfold conducted. induction issues as [|issue issues IH]; [reflexivity|].
  cbn [List.filter sum_list_with]. unfold isClosed at 1.
  destruct (Js.strictEq (Issue.state issue) "closed").
  - unfold history. cbn [flat_map]. fold (history u (List.filter isClosed issues)).
    now rewrite length_app, length_replicate, IH.
  - now rewrite IH.
Qed.

(** The count of a user on the leaderboard of the closed issues is the
    number of checks the buddy report credits to that user. *)
Lemma leaderboardOf_matches_buddyReportOf (now now' : Date) (allIssues : list Issue.t)
    (e : UserStats.t) (b : BuddyEntry.t) :
  In e (Leaderboard.leaderboard
          (leaderboardOf now (List.filter isClosed allIssues))) ->
  In b (BuddyReport.allRecipients (buddyReportOf now' allIssues)) ->
  UserStats.username e = BuddyStats.username (BuddyEntry.stats b) ->
  UserStats.completedCount e = BuddyStats.conductedChecks (BuddyEntry.stats b).
Proof.
  intros He Hb Hu.
  destruct (leaderboard_entry _ _ _ He) as [_ Hc]. rewrite Hc, history_closed, Hu.
  apply allRecipients_In in Hb. destruct Hb as (s & -> & Hs & _).
  cbn [toBuddyEntry BuddyEntry.stats].
  destruct (buddyUserStats_user (BuddyStats.username s) allIssues) as (_ & Hco & _).
  rewrite Hs in Hco. simpl in Hco. now rewrite Hco.
Qed.

(** X27. The two reports agree on a user: the [completedCount] on the
    leaderboard made from the closed issues of a list equals the
    [conductedChecks] in the buddy report made from the whole list. *)
Theorem leaderboard_matches_buddy_report (now now' : Date) (allIssues : list Issue.t)
    (realm1 realm1' realm2 realm2' : Realm.t)
    (board : Leaderboard.t) (report : BuddyReport.t)
    (e : UserStats.t) (b : BuddyEntry.t) :
  calculateLeaderboard now (List.filter isClosed allIssues) realm1
  = (Returned board, realm1') ->
  calculateBuddyRatios now' allIssues realm2 = (Returned report, realm2') ->
  In e (Leaderboard.leaderboard board) ->
  In b (BuddyReport.allRecipients report) ->
  UserStats.username e = BuddyStats.username (BuddyEntry.stats b) ->
  UserStats.completedCount e = BuddyStats.conductedChecks (BuddyEntry.stats b).
Proof.
  intros Hboard Hreport.
  apply calculateLeaderboard_Returned in Hboard. destruct Hboard as (_ & -> & _).
  apply calculateBuddyRatios_Returned in Hreport. destruct Hreport as (_ & _ & -> & _).
  apply leaderboardOf_matches_buddyReportOf.
Qed.

(** X27, an instance: bob, who conducted the checks of the issues 2 and
    3. *)
Lemma leaderboard_matches_buddy_report_witness :
  UserStats.completedCount
    (withSearchUrl
       (UserStats.mk "bob" EmptyString EmptyString 2 (Some 3) [2; 3] None))
  = BuddyStats.conductedChecks
      (BuddyEntry.stats
         (toBuddyEntry
            (BuddyStats.mk "bob" EmptyString EmptyString 2 2 [4; 5] [2; 3]))).
Proof.
  apply (leaderboard_matches_buddy_report 0 0 Examples.exchange
           Realm.pristine Realm.pristine Realm.pristine Realm.pristine
           (leaderboardOf 0 (List.filter isClosed Examples.exchange))
           (buddyReportOf 0 Examples.exchange)).
  - now apply calculateLeaderboard_ordinary.
  - now apply calculateBuddyRatios_ordinary.
  - vm_compute. left. reflexivity.
  - vm_compute. right. left. reflexivity.
  - reflexivity.
Defined.

(** ** Logins that are inherited property names *)

Lemma ordinaryAssignees_false issues issue a :
  In issue issues -> In a (mentions issue) ->
  JsObject.isInherited (User.login a) = true ->
  ordinaryAssignees issues = false.
Proof.
  intros Hissue Ha Hk. unfold ordinaryAssignees.
  destruct (forallb _ issues) eqn:H; [|reflexivity].
  rewrite forallb_forall in H. specialize (H issue Hissue).
  rewrite forallb_forall in H. specialize (H a Ha).
  now rewrite Hk in H.
Qed.

Lemma isAssigned_assign holder property realm :
  Realm.isAssigned holder property (Realm.assign holder property realm) = true.
Proof.
  unfold Realm.isAssigned, Realm.assign. cbn [Realm.assigned].
  apply bool_decide_eq_true_2. set_solver.
Qed.

(** X28. When an issue of the input names an assignee whose login is a
    property name plain objects inherit ([constructor], [toString],
    [valueOf], ...), [calculateLeaderboard] returns nothing: it throws the
    [TypeError] of a [push] on [undefined], and it leaves behind a
    [completedCount] assigned on the built-in that such a login of the input
    leads to. *)
Theorem calculateLeaderboard_inherited_login (now : Date) (closedIssues : list Issue.t)
    (realm : Realm.t) (issue : Issue.t) (a : User.t) :
  In issue closedIssues -> In a (mentions issue) ->
  JsObject.isInherited (User.login a) = true ->
  exists k issue',
    JsObject.isInherited k = true
    /\ In issue' closedIssues /\ In k (map User.login (mentions issue'))
    /\ calculateLeaderboard now closedIssues realm
       = (Thrown (JsObject.cannotRead "push"), Realm.assign k "completedCount" realm)
    /\ Realm.isAssigned k "completedCount"
         (snd (calculateLeaderboard now closedIssues realm)) = true.
Proof.
  intros Hissue Ha Hk.
  destruct (calculateLeaderboard_inherited now closedIssues realm
              (ordinaryAssignees_false _ _ _ Hissue Ha Hk))
    as (k & issue' & Hk' & Hin & Hm & Hrun).
  exists k, issue'. rewrite Hrun. cbn [snd].
  repeat (split; [assumption || reflexivity|]). apply isAssigned_assign.
Qed.

(** X28, an instance: a closed issue assigned to the user [constructor]. *)
Lemma calculateLeaderboard_inherited_login_witness :
  fst (calculateLeaderboard 0
         [Examples.closedIssue 1 Examples.author
            [User.mk "constructor" EmptyString EmptyString]]
         Realm.pristine)
  = Thrown "Cannot read properties of undefined (reading 'push')"
  /\ Realm.isAssigned "constructor" "completedCount"
       (snd (calculateLeaderboard 0
               [Examples.closedIssue 1 Examples.author
                  [User.mk "constructor" EmptyString EmptyString]]
               Realm.pristine))
     = true.
Proof.
  destruct (calculateLeaderboard_inherited_login 0
              [Examples.closedIssue 1 Examples.author
                 [User.mk "constructor" EmptyString EmptyString]]
              Realm.pristine
              (Examples.closedIssue 1 Examples.author
                 [User.mk "constructor" EmptyString EmptyString])
              (User.mk "constructor" EmptyString EmptyString))
    as (k & issue' & _ & [<- | []] & [<- | [<- | []]] & Hrun & Hassigned).
  - now left.
  - now left.
  - reflexivity.
  - split; [now rewrite Hrun | exact Hassigned].
  - split; [now rewrite Hrun | exact Hassigned].
Defined.



